(** * RP2 tax engine: lot matching, yearly aggregation and verification

    A shallow embedding of [src/rp2/tax_engine.py] and of the accounting
    method check of [src/rp2/configuration.py], with the properties the
    design document states about them. *)

From Stdlib Require Import List Bool Arith ZArith QArith Qfield Lia Lqa.
From Stdlib Require Import String Ascii DecimalString.
From Stdlib Require Import Sorting.Sorted Sorting.Permutation.
From Equations Require Import Equations.
Import ListNotations.

Local Open Scope Q_scope.

(** ** Decimals *)

(** Modelled from the spec: [rp2_decimal.py] is not among the sources.  The
    spec describes crypto and USD quantities as arbitrary-precision decimals,
    so [RP2Decimal] is taken to be the exact rationals; Python's [==] on two
    decimals is numeric equality ([Qeq]), not equality of representations. *)
Definition RP2Decimal := Q.

(** Modelled from the spec: the constant [ZERO] of [rp2_decimal.py]. *)
Definition ZERO : RP2Decimal := 0.

Definition Qltb (a b : Q) : bool := negb (Qle_bool b a).

Lemma Qltb_true a b : Qltb a b = true <-> a < b.
Proof.
  unfold Qltb. rewrite negb_true_iff. split; intro H.
  - apply Qnot_le_lt. intro Hle. apply Qle_bool_iff in Hle. congruence.
  - destruct (Qle_bool b a) eqn:E; [|reflexivity].
    apply Qle_bool_iff in E. exfalso. apply (Qlt_not_le _ _ H E).
Qed.

Lemma Qltb_false a b : Qltb a b = false <-> b <= a.
Proof.
  unfold Qltb. rewrite negb_false_iff. apply Qle_bool_iff.
Qed.

Lemma Qeq_bool_false a b : Qeq_bool a b = false <-> ~ a == b.
Proof.
  split; intro H.
  - intro E. apply Qeq_bool_iff in E. congruence.
  - destruct (Qeq_bool a b) eqn:E; [|reflexivity].
    apply Qeq_bool_iff in E. contradiction.
Qed.

Lemma Q_eq_dec (a b : Q) : {a = b} + {a <> b}.
Proof. decide equality; [apply Pos.eq_dec | apply Z.eq_dec]. Defined.

(** Sum of a list of decimals, as a running [+=] from [ZERO]. *)
Definition Qsum (l : list Q) : Q := fold_right Qplus 0 l.

Lemma Qsum_nil : Qsum [] = 0.
Proof. reflexivity. Qed.

Lemma Qsum_cons a l : Qsum (a :: l) = a + Qsum l.
Proof. reflexivity. Qed.

Lemma Qsum_app l1 l2 : Qsum (l1 ++ l2) == Qsum l1 + Qsum l2.
Proof.
  induction l1 as [|a l1 IH].
  - rewrite app_nil_l, Qsum_nil. lra.
  - rewrite <- app_comm_cons, !Qsum_cons, IH. lra.
Qed.

(** ** Errors and results

    The exception classes the two modules raise.  [RP2TypeError] and
    [RP2ValueError] are the user-facing RP2 errors; [PlainException] is
    Python's base [Exception] raised by the verifier; [DecimalDivisionError]
    is the signal the decimal division raises on a zero divisor. *)
Inductive PyError :=
| RP2TypeError
| RP2ValueError
| NotImplementedError
| PlainException
| DecimalDivisionError.

Definition is_rp2_error (e : PyError) : bool :=
  match e with
  | RP2TypeError | RP2ValueError => true
  | _ => false
  end.

Inductive Result (A : Type) :=
| Ok (a : A)
| Raise (e : PyError).
Arguments Ok {A} a.
Arguments Raise {A} e.

Definition bind {A B} (r : Result A) (k : A -> Result B) : Result B :=
  match r with
  | Ok a => k a
  | Raise e => Raise e
  end.

Notation "x <- r ;; k" := (bind r (fun x => k))
  (at level 61, r at next level, right associativity).
Notation "' p <- r ;; k" := (bind r (fun x => let p := x in k))
  (at level 61, p pattern, r at next level, right associativity).

(** Modelled from the spec: the division of [rp2_decimal.py], which is
    Python's decimal division; a zero divisor raises. *)
Definition rp2_div (a b : RP2Decimal) : Result RP2Decimal :=
  if Qeq_bool b 0 then Raise DecimalDivisionError else Ok (a / b).

(** ** Transactions *)

(** Modelled from the spec: [entry_types.py] is not among the sources.
    [tax_engine.py] names one member, [EARN], the lotless earned-income
    kind; the others stand for the acquisition, disposal and transfer kinds,
    and [TransactionType_value] for the member's [value]. *)
Inductive TransactionType := BUY | DONATE | EARN | GIFT | MOVE | SELL.

Definition TransactionType_value (t : TransactionType) : string :=
  match t with
  | BUY => "buy" | DONATE => "donate" | EARN => "earn"
  | GIFT => "gift" | MOVE => "move" | SELL => "sell"
  end%string.

Definition is_EARN (t : TransactionType) : bool :=
  match t with EARN => true | _ => false end.

Lemma TransactionType_eq_dec (a b : TransactionType) : {a = b} + {a <> b}.
Proof. decide equality. Defined.

(** Modelled from the spec: a timezone-aware timestamp, as its position on
    the time line and the calendar year it shows. *)
Record datetime := {
  instant : Z;
  year : Z
}.

Lemma datetime_eq_dec (a b : datetime) : {a = b} + {a <> b}.
Proof. decide equality; apply Z.eq_dec. Defined.

(** Modelled from the spec: [abstract_transaction.py] is not among the
    sources.  A transaction is an immutable record; the fields are the
    attributes and the [is_taxable()] predicate that [tax_engine.py] reads. *)
Record AbstractTransaction := {
  timestamp : datetime;
  asset : string;
  transaction_type : TransactionType;
  is_taxable : bool;
  crypto_taxable_amount : RP2Decimal;
  usd_taxable_amount : RP2Decimal
}.

(** Modelled from the spec: [in_transaction.py] is not among the sources.
    An acquisition lot is a transaction with its original quantity and its
    USD cost including fees. *)
Record InTransaction := {
  in_base :> AbstractTransaction;
  crypto_in : RP2Decimal;
  usd_in_with_fee : RP2Decimal
}.

Lemma AbstractTransaction_eq_dec (a b : AbstractTransaction) : {a = b} + {a <> b}.
Proof.
  decide equality;
    first [ apply Q_eq_dec | apply bool_dec | apply TransactionType_eq_dec
          | apply string_dec | apply datetime_eq_dec ].
Defined.

Lemma InTransaction_eq_dec (a b : InTransaction) : {a = b} + {a <> b}.
Proof.
  decide equality; first [ apply Q_eq_dec | apply AbstractTransaction_eq_dec ].
Defined.

(** ** Configuration ([configuration.py]) *)
Inductive AccountingMethod := FIFO | LIFO.

Lemma AccountingMethod_eq_dec (a b : AccountingMethod) : {a = b} + {a <> b}.
Proof. decide equality. Defined.

(** The dynamically typed values the type checks of [configuration.py]
    inspect with [isinstance]. *)
Inductive PyValue :=
| PyNone
| PyStr (s : string)
| PyInt (z : Z)
| PyAccountingMethod (m : AccountingMethod).

Definition type_check_parameter_name (name : PyValue) : Result PyValue :=
  match name with
  | PyStr _ => Ok name
  | _ => Raise RP2TypeError
  end.

Definition type_check_string (name value : PyValue) : Result PyValue :=
  _ <- type_check_parameter_name name ;;
  match value with
  | PyStr _ => Ok value
  | _ => Raise RP2TypeError
  end.

Definition type_check_int (name value : PyValue) : Result Z :=
  _ <- type_check_parameter_name name ;;
  match value with
  | PyInt z => Ok z
  | _ => Raise RP2TypeError
  end.

Definition type_check_positive_int (name value : PyValue) (non_zero : bool)
  : Result Z :=
  result <- type_check_int name value ;;
  if (result <? 0)%Z then Raise RP2ValueError
  else if non_zero && (result =? 0)%Z then Raise RP2ValueError
  else Ok result.

(** [AccountingMethod.type_check] *)
Definition AccountingMethod_type_check (name instance : PyValue)
  : Result AccountingMethod :=
  _ <- type_check_parameter_name name ;;
  match instance with
  | PyAccountingMethod m =>
      if AccountingMethod_eq_dec m FIFO then Ok m
      else Raise NotImplementedError
  | _ => Raise RP2TypeError
  end.

(** What the constructor reads from the JSON configuration file. *)
Record JsonConfiguration := {
  json_assets : list string;
  json_exchanges : list string;
  json_holders : list string
}.

(** The file system the constructor looks at: whether a path exists, and
    the outcome of loading the file and validating it against the schema. *)
Record FileSystem := {
  path_exists : string -> bool;
  load_and_validate : string -> Result JsonConfiguration
}.

Record Configuration := {
  configuration_path : string;
  accounting_method : AccountingMethod;
  up_to_year : option Z;
  assets : list string;
  exchanges : list string;
  holders : list string
}.

Definition py_of_option_int (o : option Z) : PyValue :=
  match o with
  | Some z => PyInt z
  | None => PyNone
  end.

(** Truth value of [up_to_year] in [... if up_to_year else up_to_year]. *)
Definition truthy_up_to_year (o : option Z) : bool :=
  match o with
  | Some z => negb (z =? 0)%Z
  | None => false
  end.

(** [Configuration.__init__], with the parameters typed as annotated. *)
Definition Configuration_init (fs : FileSystem) (configuration_path : string)
  (accounting_method : AccountingMethod) (up_to_year : option Z)
  : Result Configuration :=
  _ <- type_check_string (PyStr "configuration_path") (PyStr configuration_path) ;;
  method <- AccountingMethod_type_check (PyStr "accounting_method")
              (PyAccountingMethod accounting_method) ;;
  year <- (if truthy_up_to_year up_to_year
           then (y <- type_check_positive_int (PyStr "up_to_year")
                        (py_of_option_int up_to_year) true ;; Ok (Some y))
           else Ok up_to_year) ;;
  if negb (path_exists fs configuration_path) then Raise RP2ValueError
  else
    json <- load_and_validate fs configuration_path ;;
    Ok {| configuration_path := configuration_path;
          accounting_method := method;
          up_to_year := year;
          assets := json_assets json;
          exchanges := json_exchanges json;
          holders := json_holders json |}.

(** ** Input data and gain/loss records *)

(** Modelled from the spec: [transaction_set.py] is not among the sources.
    A transaction set iterates in chronological order, ties in insertion
    order. *)
Definition TransactionSet := list AbstractTransaction.

(** Modelled from the spec: [TransactionSet.add_entry], which keeps the
    chronological order of the set. *)
Fixpoint add_entry (t : AbstractTransaction) (s : TransactionSet) : TransactionSet :=
  match s with
  | [] => [t]
  | x :: s' =>
      if (instant (timestamp t) <? instant (timestamp x))%Z
      then t :: x :: s'
      else x :: add_entry t s'
  end.

(** Modelled from the spec: [input_data.py] is not among the sources; the
    asset and the three transaction collections. *)
Record InputData := {
  input_asset : string;
  in_transaction_set : list InTransaction;
  out_transaction_set : TransactionSet;
  intra_transaction_set : TransactionSet
}.

(** Modelled from the spec: [gain_loss.py] is not among the sources.  A
    gain/loss record holds a fragment amount, the taxable event and the lot,
    which is [None] for a lotless event. *)
Record GainLoss := {
  crypto_amount : RP2Decimal;
  taxable_event : AbstractTransaction;
  from_lot : option InTransaction
}.

(** Modelled from the spec: the constructor call
    [GainLoss(configuration, crypto_amount, taxable_event, from_lot)]. *)
Definition GainLoss_new (configuration : Configuration) (crypto_amount : RP2Decimal)
  (taxable_event : AbstractTransaction) (from_lot : option InTransaction) : GainLoss :=
  {| crypto_amount := crypto_amount;
     taxable_event := taxable_event;
     from_lot := from_lot |}.

(** Modelled from the spec: [gain_loss_set.py] is not among the sources; a
    gain/loss set holds the records in the order they were added. *)
Definition GainLossSet := list GainLoss.

Definition gain_loss_set_add_entry (s : GainLossSet) (g : GainLoss) : GainLossSet :=
  s ++ [g].

(** ** Iterators *)

(** Modelled from the spec: the iterator of an entry set is not among the
    sources.  [next] on an exhausted iterator raises [StopIteration] whose
    value is the iterator itself, which is what the handler of
    [_create_gain_and_loss_set] compares with [from_lot_iterator]; the two
    iterators of the matcher are told apart by their identity. *)
Inductive IteratorId := taxable_event_iterator_id | from_lot_iterator_id.

Definition IteratorId_eqb (a b : IteratorId) : bool :=
  match a, b with
  | taxable_event_iterator_id, taxable_event_iterator_id => true
  | from_lot_iterator_id, from_lot_iterator_id => true
  | _, _ => false
  end.

(** Modelled from the spec: [next] on an iterator, given by the entries it
    has still to yield; [None] stands for [StopIteration]. *)
Definition next {A} (it : list A) : option (A * list A) :=
  match it with
  | [] => None
  | x :: rest => Some (x, rest)
  end.

(** ** The lot matcher: [_create_gain_and_loss_set] *)
Record LoopState := {
  gain_loss_set : GainLossSet;
  cur_taxable_event : AbstractTransaction;
  taxable_event_amount : RP2Decimal;
  taxable_event_iterator : list AbstractTransaction;
  cur_from_lot : InTransaction;
  from_lot_amount : RP2Decimal;
  from_lot_iterator : list InTransaction
}.

(** One pass through the body of [while True]: either control returns to
    the top of the loop, or a [next] raised [StopIteration]; [value] is the
    exhausted iterator and the set holds the records added so far. *)
Inductive LoopStep :=
| Continue (st : LoopState)
| StopIteration (value : IteratorId) (gain_loss_set : GainLossSet).

Definition loop_body (configuration : Configuration) (st : LoopState) : LoopStep :=
  let taxable_event := cur_taxable_event st in
  let from_lot := cur_from_lot st in
  if is_EARN (transaction_type taxable_event) then
    let gls := gain_loss_set_add_entry (gain_loss_set st)
                 (GainLoss_new configuration (taxable_event_amount st) taxable_event None) in
    match next (taxable_event_iterator st) with
    | None => StopIteration taxable_event_iterator_id gls
    | Some (taxable_event', it') =>
        Continue {| gain_loss_set := gls;
                    cur_taxable_event := taxable_event';
                    taxable_event_amount := crypto_taxable_amount taxable_event';
                    taxable_event_iterator := it';
                    cur_from_lot := from_lot;
                    from_lot_amount := from_lot_amount st;
                    from_lot_iterator := from_lot_iterator st |}
    end
  else if Qeq_bool (taxable_event_amount st) (from_lot_amount st) then
    let gls := gain_loss_set_add_entry (gain_loss_set st)
                 (GainLoss_new configuration (taxable_event_amount st) taxable_event
                    (Some from_lot)) in
    match next (taxable_event_iterator st) with
    | None => StopIteration taxable_event_iterator_id gls
    | Some (taxable_event', it') =>
        match next (from_lot_iterator st) with
        | None => StopIteration from_lot_iterator_id gls
        | Some (from_lot', lots') =>
            Continue {| gain_loss_set := gls;
                        cur_taxable_event := taxable_event';
                        taxable_event_amount := crypto_taxable_amount taxable_event';
                        taxable_event_iterator := it';
                        cur_from_lot := from_lot';
                        from_lot_amount := crypto_in from_lot';
                        from_lot_iterator := lots' |}
        end
    end
  else if Qltb (taxable_event_amount st) (from_lot_amount st) then
    let gls := gain_loss_set_add_entry (gain_loss_set st)
                 (GainLoss_new configuration (taxable_event_amount st) taxable_event
                    (Some from_lot)) in
    let from_lot_amount' := from_lot_amount st - taxable_event_amount st in
    match next (taxable_event_iterator st) with
    | None => StopIteration taxable_event_iterator_id gls
    | Some (taxable_event', it') =>
        Continue {| gain_loss_set := gls;
                    cur_taxable_event := taxable_event';
                    taxable_event_amount := crypto_taxable_amount taxable_event';
                    taxable_event_iterator := it';
                    cur_from_lot := from_lot;
                    from_lot_amount := from_lot_amount';
                    from_lot_iterator := from_lot_iterator st |}
    end
  else
    let gls := gain_loss_set_add_entry (gain_loss_set st)
                 (GainLoss_new configuration (from_lot_amount st) taxable_event
                    (Some from_lot)) in
    let taxable_event_amount' := taxable_event_amount st - from_lot_amount st in
    match next (from_lot_iterator st) with
    | None => StopIteration from_lot_iterator_id gls
    | Some (from_lot', lots') =>
        Continue {| gain_loss_set := gls;
                    cur_taxable_event := taxable_event;
                    taxable_event_amount := taxable_event_amount';
                    taxable_event_iterator := taxable_event_iterator st;
                    cur_from_lot := from_lot';
                    from_lot_amount := crypto_in from_lot';
                    from_lot_iterator := lots' |}
    end.

(** Entries the two iterators have still to yield. *)
Definition remaining (st : LoopState) : nat :=
  (List.length (taxable_event_iterator st) + List.length (from_lot_iterator st))%nat.

Lemma loop_body_remaining configuration st st' :
  loop_body configuration st = Continue st' ->
  (remaining st' < remaining st)%nat.
Proof.
  unfold loop_body, remaining.
  destruct st as [gls te ta tes lot la lots]; cbn [cur_taxable_event
    cur_from_lot taxable_event_iterator from_lot_iterator gain_loss_set
    taxable_event_amount from_lot_amount].
  destruct (is_EARN (transaction_type te)).
  { destruct tes; cbn; intro H; inversion H; subst; cbn; lia. }
  destruct (Qeq_bool ta la).
  { destruct tes; cbn; [discriminate|].
    destruct lots; cbn; intro H; inversion H; subst; cbn; lia. }
  destruct (Qltb ta la).
  { destruct tes; cbn; intro H; inversion H; subst; cbn; lia. }
  destruct lots; cbn; intro H; inversion H; subst; cbn; lia.
Qed.

Definition inspect {A} (a : A) : {b : A | a = b} := exist _ a eq_refl.

Equations while_true (configuration : Configuration) (st : LoopState)
  : IteratorId * GainLossSet by wf (remaining st) lt :=
  while_true configuration st with inspect (loop_body configuration st) := {
    | exist _ (Continue st') Heq => while_true configuration st'
    | exist _ (StopIteration value gls) _ => (value, gls)
  }.
Next Obligation.
  eapply loop_body_remaining; eassumption.
Qed.

(** The state in which [_create_gain_and_loss_set] enters the loop. *)
Definition initial_state (taxable_event : AbstractTransaction)
  (taxable_event_iterator : list AbstractTransaction)
  (from_lot : InTransaction) (from_lot_iterator : list InTransaction) : LoopState :=
  {| gain_loss_set := [];
     cur_taxable_event := taxable_event;
     taxable_event_amount := crypto_taxable_amount taxable_event;
     taxable_event_iterator := taxable_event_iterator;
     cur_from_lot := from_lot;
     from_lot_amount := crypto_in from_lot;
     from_lot_iterator := from_lot_iterator |}.

Definition _create_gain_and_loss_set (configuration : Configuration)
  (input_data : InputData) (taxable_event_set : TransactionSet)
  : Result GainLossSet :=
  let gain_loss_set : GainLossSet := [] in
  match next taxable_event_set with
  | None =>
      (* StopIteration from the taxable event iterator *)
      Ok gain_loss_set
  | Some (taxable_event, taxable_event_iterator) =>
      match next (in_transaction_set input_data) with
      | None => Raise RP2ValueError
      | Some (from_lot, from_lot_iterator) =>
          let '(value, gain_loss_set) :=
            while_true configuration
              (initial_state taxable_event taxable_event_iterator
                 from_lot from_lot_iterator) in
          if IteratorId_eqb value from_lot_iterator_id
          then Raise RP2ValueError
          else Ok gain_loss_set
      end
  end.

(** *** Reasoning about the loop *)

Lemma while_true_step configuration st :
  while_true configuration st =
  match loop_body configuration st with
  | Continue st' => while_true configuration st'
  | StopIteration value gls => (value, gls)
  end.
Proof.
  rewrite while_true_equation_1. unfold inspect.
  generalize (@eq_refl _ (loop_body configuration st)).
  generalize (loop_body configuration st) at 2 4 5.
  intros [st'|value gls] Heq; reflexivity.
Qed.

(** Invariant rule: a property kept by every pass that continues, and
    turned into [Post] by the pass that stops, gives [Post] of the outcome. *)
Lemma while_true_invariant configuration
  (Inv : LoopState -> Prop) (Post : IteratorId -> GainLossSet -> Prop) :
  (forall st st', Inv st -> loop_body configuration st = Continue st' -> Inv st') ->
  (forall st value gls,
      Inv st -> loop_body configuration st = StopIteration value gls -> Post value gls) ->
  forall st, Inv st ->
    Post (fst (while_true configuration st)) (snd (while_true configuration st)).
Proof.
  intros Hstep Hstop st.
  remember (remaining st) as n eqn:Hn.
  revert st Hn.
  induction n as [n IH] using lt_wf_ind.
  intros st Hn Hinv.
  rewrite while_true_step.
  destruct (loop_body configuration st) as [st'|value gls] eqn:Hbody.
  - apply (IH (remaining st')).
    + subst n. eapply loop_body_remaining; eassumption.
    + reflexivity.
    + eapply Hstep; eassumption.
  - cbn. eapply Hstop; eassumption.
Qed.

(** ** The taxable event extractor: [_create_taxable_event_set]

    The function builds a fresh transaction set and adds entries to it; the
    three input collections are only iterated.  The state threaded through
    the two nested loops holds both the input data and the set under
    construction, so that what the loops do to either can be stated. *)
Record ExtractorState := {
  es_input_data : InputData;
  es_taxable_event_set : TransactionSet
}.

Definition extractor_visit (st : ExtractorState) (transaction : AbstractTransaction)
  : ExtractorState :=
  if is_taxable transaction
  then {| es_input_data := es_input_data st;
          es_taxable_event_set := add_entry transaction (es_taxable_event_set st) |}
  else st.

Definition in_entries (input_data : InputData) : list AbstractTransaction :=
  map in_base (in_transaction_set input_data).

Definition extractor_run (configuration : Configuration) (input_data : InputData)
  : ExtractorState :=
  fold_left
    (fun st transaction_set => fold_left extractor_visit (transaction_set (es_input_data st)) st)
    [in_entries; out_transaction_set; intra_transaction_set]
    {| es_input_data := input_data; es_taxable_event_set := [] |}.

Definition _create_taxable_event_set (configuration : Configuration)
  (input_data : InputData) : TransactionSet :=
  es_taxable_event_set (extractor_run configuration input_data).

(** ** Derived attributes of a gain/loss record *)

(** Modelled from the spec: [GainLoss.asset] of [gain_loss.py], the asset of
    the record's taxable event. *)
Definition GainLoss_asset (g : GainLoss) : string := asset (taxable_event g).

(** Modelled from the spec: the proceeds of a record in [gain_loss.py], the
    proportional share of the event's USD taxable amount. *)
Definition taxable_event_usd_amount_with_fee_fraction (g : GainLoss) : RP2Decimal :=
  (crypto_amount g / crypto_taxable_amount (taxable_event g))
  * usd_taxable_amount (taxable_event g).

(** Modelled from the spec: the cost basis of a record in [gain_loss.py],
    the proportional share of the lot's USD cost, zero without a lot. *)
Definition usd_cost_basis (g : GainLoss) : RP2Decimal :=
  match from_lot g with
  | None => ZERO
  | Some lot => (crypto_amount g / crypto_in lot) * usd_in_with_fee lot
  end.

(** Modelled from the spec: the gain of a record in [gain_loss.py],
    proceeds minus cost basis. *)
Definition usd_gain (g : GainLoss) : RP2Decimal :=
  taxable_event_usd_amount_with_fee_fraction g - usd_cost_basis g.

(** ** Yearly summaries *)
Record _YearlyGainLossId := {
  id_year : Z;
  id_asset : string;
  id_transaction_type : TransactionType;
  id_is_long_term_capital_gains : bool
}.

Lemma _YearlyGainLossId_eq_dec (a b : _YearlyGainLossId) : {a = b} + {a <> b}.
Proof.
  decide equality;
    first [ apply bool_dec | apply TransactionType_eq_dec | apply string_dec
          | apply Z.eq_dec ].
Defined.

Record _YearlyGainLossAmounts := {
  sum_crypto_amount : RP2Decimal;
  sum_usd_amount : RP2Decimal;
  sum_usd_cost_basis : RP2Decimal;
  sum_usd_gain_loss : RP2Decimal
}.

(** Modelled from the spec: [computed_data.py] is not among the sources;
    [YearlyGainLoss] with the eight fields the engine sets. *)
Record YearlyGainLoss := {
  ygl_year : Z;
  ygl_asset : string;
  ygl_transaction_type : TransactionType;
  ygl_is_long_term_capital_gains : bool;
  ygl_crypto_amount : RP2Decimal;
  ygl_usd_amount : RP2Decimal;
  ygl_usd_cost_basis : RP2Decimal;
  ygl_usd_gain_loss : RP2Decimal
}.

Definition ygl_id (y : YearlyGainLoss) : _YearlyGainLossId :=
  {| id_year := ygl_year y;
     id_asset := ygl_asset y;
     id_transaction_type := ygl_transaction_type y;
     id_is_long_term_capital_gains := ygl_is_long_term_capital_gains y |}.

(** *** The dictionary of summaries

    A Python [dict]: keys compared with the dataclass [==], entries kept in
    insertion order. *)
Definition SummaryDict := list (_YearlyGainLossId * _YearlyGainLossAmounts).

Fixpoint dict_get (d : SummaryDict) (key : _YearlyGainLossId)
  : option _YearlyGainLossAmounts :=
  match d with
  | [] => None
  | (k, v) :: d' => if _YearlyGainLossId_eq_dec key k then Some v else dict_get d' key
  end.

Fixpoint dict_set (d : SummaryDict) (key : _YearlyGainLossId)
  (value : _YearlyGainLossAmounts) : SummaryDict :=
  match d with
  | [] => [(key, value)]
  | (k, v) :: d' =>
      if _YearlyGainLossId_eq_dec key k then (k, value) :: d'
      else (k, v) :: dict_set d' key value
  end.

Definition dict_setdefault (d : SummaryDict) (key : _YearlyGainLossId)
  (default : _YearlyGainLossAmounts) : _YearlyGainLossAmounts * SummaryDict :=
  match dict_get d key with
  | Some v => (v, d)
  | None => (default, dict_set d key default)
  end.

(** *** The set of yearly summaries

    A Python [set]: adding an element equal to one already present changes
    nothing.  Equality of the frozen dataclass compares the fields, decimals
    numerically.  The set is only read through [sorted]; the order of the
    list stands for the order in which Python iterates the set, which the
    language leaves open, and what is proved of [sorted_reverse] holds for
    every list. *)
Definition YearlyGainLoss_eqb (a b : YearlyGainLoss) : bool :=
  (if _YearlyGainLossId_eq_dec (ygl_id a) (ygl_id b) then true else false)
  && Qeq_bool (ygl_crypto_amount a) (ygl_crypto_amount b)
  && Qeq_bool (ygl_usd_amount a) (ygl_usd_amount b)
  && Qeq_bool (ygl_usd_cost_basis a) (ygl_usd_cost_basis b)
  && Qeq_bool (ygl_usd_gain_loss a) (ygl_usd_gain_loss b).

Definition set_add (s : list YearlyGainLoss) (x : YearlyGainLoss) : list YearlyGainLoss :=
  if existsb (YearlyGainLoss_eqb x) s then s else s ++ [x].

(** *** Sorting

    [_yearly_gain_loss_sort_criteria] and [sorted(..., key=..., reverse=True)]:
    a stable sort on the key strings, largest first. *)
Definition str_of_int (z : Z) : string := NilZero.string_of_int (Z.to_int z).

Definition _yearly_gain_loss_sort_criteria (yearly_gain_loss : YearlyGainLoss) : string :=
  (ygl_asset yearly_gain_loss
   ++ " " ++ str_of_int (ygl_year yearly_gain_loss)
   ++ " " ++ (if ygl_is_long_term_capital_gains yearly_gain_loss then "LONG" else "SHORT")
   ++ " " ++ TransactionType_value (ygl_transaction_type yearly_gain_loss))%string.

Section Sorted.
Context {A : Type} (key : A -> string).

Fixpoint insert_reverse (x : A) (l : list A) : list A :=
  match l with
  | [] => [x]
  | y :: l' =>
      if String.leb (key y) (key x) then x :: y :: l'
      else y :: insert_reverse x l'
  end.

Definition sorted_reverse (l : list A) : list A :=
  fold_right insert_reverse [] l.
End Sorted.

(** ** The consistency verifier: [_verify_computation] *)

(** A running [+=] of [f] over a collection, from [init]. *)
Definition running_sum {A} (f : A -> RP2Decimal) (l : list A) (init : RP2Decimal)
  : RP2Decimal :=
  fold_left (fun acc x => acc + f x) l init.

(** The cost basis loop: [crypto_in_amount_total] and
    [cost_basis_total_verify] are threaded through; the [break] ends it. *)
Fixpoint cost_basis_loop (crypto_sold_amount_total_verify : RP2Decimal)
  (lots : list InTransaction)
  (crypto_in_amount_total cost_basis_total_verify : RP2Decimal)
  : Result (RP2Decimal * RP2Decimal) :=
  match lots with
  | [] => Ok (crypto_in_amount_total, cost_basis_total_verify)
  | in_transaction :: lots' =>
      if Qltb crypto_sold_amount_total_verify
              (crypto_in_amount_total + crypto_in in_transaction)
      then
        let crypto_in_amount := crypto_sold_amount_total_verify - crypto_in_amount_total in
        fraction <- rp2_div crypto_in_amount (crypto_in in_transaction) ;;
        Ok (crypto_in_amount_total + crypto_in_amount,
            cost_basis_total_verify + fraction * usd_in_with_fee in_transaction)
      else
        cost_basis_loop crypto_sold_amount_total_verify lots'
          (crypto_in_amount_total + crypto_in in_transaction)
          (cost_basis_total_verify + usd_in_with_fee in_transaction)
  end.

(** The four totals the verifier derives from the raw collections. *)
Record VerifyTotals := {
  crypto_taxable_amount_total_verify : RP2Decimal;
  usd_taxable_amount_total_verify : RP2Decimal;
  cost_basis_total_verify : RP2Decimal;
  gain_loss_total_verify : RP2Decimal
}.

Definition crypto_sold_amount_total (input_data : InputData) : RP2Decimal :=
  running_sum crypto_taxable_amount (intra_transaction_set input_data)
    (running_sum crypto_taxable_amount (out_transaction_set input_data) ZERO).

Definition verify_totals (input_data : InputData) : Result VerifyTotals :=
  let usd_total :=
    running_sum usd_taxable_amount (intra_transaction_set input_data)
      (running_sum usd_taxable_amount (out_transaction_set input_data)
         (running_sum usd_taxable_amount (in_entries input_data) ZERO)) in
  let crypto_earned := running_sum crypto_taxable_amount (in_entries input_data) ZERO in
  let crypto_sold := crypto_sold_amount_total input_data in
  let crypto_total := crypto_sold + crypto_earned in
  '(_, cost_basis) <- cost_basis_loop crypto_sold (in_transaction_set input_data) ZERO ZERO ;;
  Ok {| crypto_taxable_amount_total_verify := crypto_total;
        usd_taxable_amount_total_verify := usd_total;
        cost_basis_total_verify := cost_basis;
        gain_loss_total_verify := usd_total - cost_basis |}.

Definition _verify_computation (input_data : InputData)
  (crypto_taxable_amount_total usd_taxable_amount_total
   cost_basis_total gain_loss_total : RP2Decimal) : Result unit :=
  v <- verify_totals input_data ;;
  if negb (Qeq_bool crypto_taxable_amount_total (crypto_taxable_amount_total_verify v))
  then Raise PlainException
  else if negb (Qeq_bool usd_taxable_amount_total (usd_taxable_amount_total_verify v))
  then Raise PlainException
  else if negb (Qeq_bool cost_basis_total (cost_basis_total_verify v))
  then Raise PlainException
  else if negb (Qeq_bool gain_loss_total (gain_loss_total_verify v))
  then Raise PlainException
  else Ok tt.

(** The verification cost basis as the design document words it: walk the
    lots in order, take whole lots while they fit in what is left of the
    disposed amount, and a proportional fraction of the first lot that does
    not fit. *)
Fixpoint cost_basis_by_walk (lots : list InTransaction) (left_to_cover : RP2Decimal)
  : RP2Decimal :=
  match lots with
  | [] => 0
  | lot :: lots' =>
      if Qle_bool (crypto_in lot) left_to_cover
      then usd_in_with_fee lot + cost_basis_by_walk lots' (left_to_cover - crypto_in lot)
      else (left_to_cover / crypto_in lot) * usd_in_with_fee lot
  end.

(** Modelled from the spec: [ComputedData] of [computed_data.py], with the
    seven values [compute_tax] passes to it. *)
Record ComputedData (BalanceSet : Type) := {
  cd_asset : string;
  cd_taxable_event_set : TransactionSet;
  cd_gain_loss_set : GainLossSet;
  cd_balance_set : BalanceSet;
  cd_yearly_gain_loss_list : list YearlyGainLoss;
  cd_price_per_unit : RP2Decimal;
  cd_input_data : InputData
}.
Arguments cd_price_per_unit {BalanceSet} _.
Arguments cd_gain_loss_set {BalanceSet} _.
Arguments cd_taxable_event_set {BalanceSet} _.
Arguments cd_yearly_gain_loss_list {BalanceSet} _.

Section Engine.

(** The rule that tells from the lot's and the event's timestamps whether
    the holding period is long, and the constructor of [BalanceSet], a
    collaborator of [balance.py] that may raise, are parameters. *)
Variable long_term_holding_period : datetime -> datetime -> bool.
Variable BalanceSet : Type.
Variable BalanceSet_new : Configuration -> InputData -> Result BalanceSet.

(** Modelled from the spec: [GainLoss.is_long_term_capital_gains] of
    [gain_loss.py].  The classification depends on the holding period, from
    the lot's timestamp to the event's; a record without a lot is never
    long-term. *)
Definition is_long_term_capital_gains (g : GainLoss) : bool :=
  match from_lot g with
  | None => false
  | Some lot => long_term_holding_period (timestamp lot) (timestamp (taxable_event g))
  end.

(** *** The yearly aggregator: [_create_yearly_gain_loss_list] *)
Definition gain_loss_key (gain_loss : GainLoss) : _YearlyGainLossId :=
  {| id_year := year (timestamp (taxable_event gain_loss));
     id_asset := GainLoss_asset gain_loss;
     id_transaction_type := transaction_type (taxable_event gain_loss);
     id_is_long_term_capital_gains := is_long_term_capital_gains gain_loss |}.

Definition accumulate (summaries : SummaryDict) (gain_loss : GainLoss) : SummaryDict :=
  let key := gain_loss_key gain_loss in
  let '(value, summaries) :=
    dict_setdefault summaries key
      {| sum_crypto_amount := ZERO; sum_usd_amount := ZERO;
         sum_usd_cost_basis := ZERO; sum_usd_gain_loss := ZERO |} in
  let crypto_amount := sum_crypto_amount value + crypto_amount gain_loss in
  let usd_amount :=
    sum_usd_amount value + taxable_event_usd_amount_with_fee_fraction gain_loss in
  let usd_cost_basis := sum_usd_cost_basis value + usd_cost_basis gain_loss in
  let usd_gain_loss := sum_usd_gain_loss value + usd_gain gain_loss in
  dict_set summaries key
    {| sum_crypto_amount := crypto_amount;
       sum_usd_amount := usd_amount;
       sum_usd_cost_basis := usd_cost_basis;
       sum_usd_gain_loss := usd_gain_loss |}.

Definition summaries_of (gain_loss_set : GainLossSet) : SummaryDict :=
  fold_left accumulate gain_loss_set [].

Definition yearly_gain_loss_of (item : _YearlyGainLossId * _YearlyGainLossAmounts)
  : YearlyGainLoss :=
  let '(key, value) := item in
  {| ygl_year := id_year key;
     ygl_asset := id_asset key;
     ygl_transaction_type := id_transaction_type key;
     ygl_is_long_term_capital_gains := id_is_long_term_capital_gains key;
     ygl_crypto_amount := sum_crypto_amount value;
     ygl_usd_amount := sum_usd_amount value;
     ygl_usd_cost_basis := sum_usd_cost_basis value;
     ygl_usd_gain_loss := sum_usd_gain_loss value |}.

(** State of the second loop: the set and the four running totals. *)
Record TotalsState := {
  yearly_gain_loss_set : list YearlyGainLoss;
  crypto_taxable_amount_total : RP2Decimal;
  usd_taxable_amount_total : RP2Decimal;
  cost_basis_total : RP2Decimal;
  gain_loss_total : RP2Decimal
}.

Definition collect (st : TotalsState) (item : _YearlyGainLossId * _YearlyGainLossAmounts)
  : TotalsState :=
  let yearly_gain_loss := yearly_gain_loss_of item in
  {| yearly_gain_loss_set := set_add (yearly_gain_loss_set st) yearly_gain_loss;
     crypto_taxable_amount_total :=
       crypto_taxable_amount_total st + ygl_crypto_amount yearly_gain_loss;
     usd_taxable_amount_total :=
       usd_taxable_amount_total st + ygl_usd_amount yearly_gain_loss;
     cost_basis_total := cost_basis_total st + ygl_usd_cost_basis yearly_gain_loss;
     gain_loss_total := gain_loss_total st + ygl_usd_gain_loss yearly_gain_loss |}.

Definition collect_all (summaries : SummaryDict) : TotalsState :=
  fold_left collect summaries
    {| yearly_gain_loss_set := [];
       crypto_taxable_amount_total := ZERO;
       usd_taxable_amount_total := ZERO;
       cost_basis_total := ZERO;
       gain_loss_total := ZERO |}.

Definition _create_yearly_gain_loss_list (input_data : InputData)
  (gain_loss_set : GainLossSet) : Result (list YearlyGainLoss) :=
  let summaries := summaries_of gain_loss_set in
  let st := collect_all summaries in
  _ <- _verify_computation input_data
         (crypto_taxable_amount_total st) (usd_taxable_amount_total st)
         (cost_basis_total st) (gain_loss_total st) ;;
  Ok (sorted_reverse _yearly_gain_loss_sort_criteria (yearly_gain_loss_set st)).

(** *** [compute_tax]

    The two [type_check] calls at the top hold by the types of the
    parameters. *)
Definition compute_tax (configuration : Configuration) (input_data : InputData)
  : Result (ComputedData BalanceSet) :=
  let taxable_event_set := _create_taxable_event_set configuration input_data in
  gain_loss_set <- _create_gain_and_loss_set configuration input_data taxable_event_set ;;
  balance_set <- BalanceSet_new configuration input_data ;;
  yearly_gain_loss_list <- _create_yearly_gain_loss_list input_data gain_loss_set ;;
  let crypto_in_running_sum :=
    running_sum crypto_in (in_transaction_set input_data) ZERO in
  let usd_in_with_fee_running_sum :=
    running_sum usd_in_with_fee (in_transaction_set input_data) ZERO in
  price_per_unit <- rp2_div usd_in_with_fee_running_sum crypto_in_running_sum ;;
  Ok {| cd_asset := input_asset input_data;
        cd_taxable_event_set := taxable_event_set;
        cd_gain_loss_set := gain_loss_set;
        cd_balance_set := balance_set;
        cd_yearly_gain_loss_list := yearly_gain_loss_list;
        cd_price_per_unit := price_per_unit;
        cd_input_data := input_data |}.

End Engine.

(** ** Scenarios

    Transactions and inputs in the style of the design document's concrete
    scenarios, used to run the definitions. *)
Definition ex_day (d : Z) : datetime := {| instant := d; year := 2021 |}.

Definition ex_transaction (ty : TransactionType) (d : Z) (taxable : bool)
  (amount usd : RP2Decimal) : AbstractTransaction :=
  {| timestamp := ex_day d; asset := "BTC"; transaction_type := ty;
     is_taxable := taxable; crypto_taxable_amount := amount;
     usd_taxable_amount := usd |}.

Definition ex_buy (d : Z) (quantity usd : RP2Decimal) : InTransaction :=
  {| in_base := ex_transaction BUY d false 0 0;
     crypto_in := quantity; usd_in_with_fee := usd |}.

Definition ex_earn (d : Z) (quantity usd : RP2Decimal) : InTransaction :=
  {| in_base := ex_transaction EARN d true quantity usd;
     crypto_in := quantity; usd_in_with_fee := usd |}.

Definition ex_sell (d : Z) (quantity usd : RP2Decimal) : AbstractTransaction :=
  ex_transaction SELL d true quantity usd.

Definition ex_configuration : Configuration :=
  {| configuration_path := "config.json"; accounting_method := FIFO;
     up_to_year := None; assets := ["BTC"%string]; exchanges := []; holders := [] |}.

Definition ex_input (lots : list InTransaction) (disposals : TransactionSet) : InputData :=
  {| input_asset := "BTC"; in_transaction_set := lots;
     out_transaction_set := disposals; intra_transaction_set := [] |}.

(** A holding period rule: long-term from 365 days on, instants in days. *)
Definition ex_long_term (acquired disposed : datetime) : bool :=
  (365 <=? instant disposed - instant acquired)%Z.

Definition ex_file_system : FileSystem :=
  {| path_exists := fun _ => true;
     load_and_validate := fun _ =>
       Ok {| json_assets := ["BTC"%string]; json_exchanges := []; json_holders := [] |} |}.

(** Two lots of 6 units, at 60 and 90 USD, and a disposal of 8 units worth
    100 USD. *)
Definition ex_two_lots : InputData :=
  ex_input [ex_buy 1 6 60; ex_buy 2 6 90] [ex_sell 3 8 100].

Definition ex_two_lots_gain_loss_set : GainLossSet :=
  [ {| crypto_amount := 6; taxable_event := ex_sell 3 8 100;
       from_lot := Some (ex_buy 1 6 60) |};
    {| crypto_amount := 2; taxable_event := ex_sell 3 8 100;
       from_lot := Some (ex_buy 2 6 90) |} ].

(** A lot of 10 units, 3 units earned, and a disposal of 4 units. *)
Definition ex_earned : InputData :=
  ex_input [ex_buy 1 10 100; ex_earn 2 3 30] [ex_sell 3 4 60].

Definition ex_earned_gain_loss_set : GainLossSet :=
  [ {| crypto_amount := 3; taxable_event := ex_earn 2 3 30; from_lot := None |};
    {| crypto_amount := 4; taxable_event := ex_sell 3 4 60;
       from_lot := Some (ex_buy 1 10 100) |} ].

(** Acquisitions of 5 units against disposals of 7. *)
Definition ex_short_of_lots : InputData :=
  ex_input [ex_buy 1 5 50] [ex_sell 2 7 70].

(** Disposals and no acquisition at all. *)
Definition ex_no_lots : InputData := ex_input [] [ex_sell 2 7 70].

(** A lot of 10 units, 3 units earned, a disposal of 4 units in the same
    year and one of 5 units in the year after, held long-term: records of
    three kinds. *)
Definition ex_sell_next_year (d : Z) (quantity usd : RP2Decimal) : AbstractTransaction :=
  {| timestamp := {| instant := d; year := 2022 |}; asset := "BTC";
     transaction_type := SELL; is_taxable := true;
     crypto_taxable_amount := quantity; usd_taxable_amount := usd |}.

Definition ex_three_kinds : InputData :=
  ex_input [ex_buy 1 10 100; ex_earn 2 3 30]
    [ex_sell 3 4 60; ex_sell_next_year 400 5 100].

Definition ex_three_kinds_gain_loss_set : GainLossSet :=
  [ {| crypto_amount := 3; taxable_event := ex_earn 2 3 30; from_lot := None |};
    {| crypto_amount := 4; taxable_event := ex_sell 3 4 60;
       from_lot := Some (ex_buy 1 10 100) |};
    {| crypto_amount := 5; taxable_event := ex_sell_next_year 400 5 100;
       from_lot := Some (ex_buy 1 10 100) |} ].

(** An earned amount as the current event, a bought lot as the current lot. *)
Definition ex_earn_state : LoopState :=
  initial_state (ex_earn 2 3 30) [ex_sell 3 4 60] (ex_buy 1 10 100) [ex_earn 2 3 30].

Definition ex_sell_state : LoopState :=
  initial_state (ex_sell 3 8 100) [] (ex_buy 1 6 60) [ex_buy 2 6 90].

(** * Properties *)

(** ** Sums over selected entries *)
Definition total_where {A} (p : A -> bool) (w : A -> Q) (l : list A) : Q :=
  Qsum (map w (filter p l)).

Lemma total_where_nil {A} (p : A -> bool) w : total_where p w [] = 0.
Proof. reflexivity. Qed.

Lemma total_where_cons {A} (p : A -> bool) w x l :
  total_where p w (x :: l) == (if p x then w x else 0) + total_where p w l.
Proof.
  unfold total_where. cbn [filter].
  destruct (p x); cbn [map]; rewrite ?Qsum_cons; lra.
Qed.

Lemma total_where_app {A} (p : A -> bool) w l1 l2 :
  total_where p w (l1 ++ l2) == total_where p w l1 + total_where p w l2.
Proof.
  unfold total_where. rewrite filter_app, map_app. apply Qsum_app.
Qed.

Lemma total_where_snoc {A} (p : A -> bool) w l x :
  total_where p w (l ++ [x]) == total_where p w l + (if p x then w x else 0).
Proof.
  rewrite total_where_app, total_where_cons, total_where_nil. lra.
Qed.

Lemma total_where_nonneg {A} (p : A -> bool) w l :
  Forall (fun x => 0 <= w x) l -> 0 <= total_where p w l.
Proof.
  induction 1 as [|x l Hx _ IH].
  - rewrite total_where_nil. lra.
  - rewrite total_where_cons. destruct (p x); lra.
Qed.

Lemma total_where_none {A} (p : A -> bool) w l :
  (forall x, In x l -> p x = false) -> total_where p w l == 0.
Proof.
  induction l as [|x l IH]; intro H.
  - rewrite total_where_nil. lra.
  - rewrite total_where_cons, (H x (or_introl eq_refl)), IH.
    + lra.
    + intros y Hy. apply H. now right.
Qed.

(** Selecting an entry by identity. *)
Definition same_event (e x : AbstractTransaction) : bool :=
  if AbstractTransaction_eq_dec x e then true else false.

Definition same_lot (l x : InTransaction) : bool :=
  if InTransaction_eq_dec x l then true else false.

Lemma same_event_true e x : same_event e x = true <-> x = e.
Proof. unfold same_event. destruct (AbstractTransaction_eq_dec x e); split; congruence. Qed.

Lemma same_lot_true l x : same_lot l x = true <-> x = l.
Proof. unfold same_lot. destruct (InTransaction_eq_dec x l); split; congruence. Qed.

Lemma total_where_unique {A} (same : A -> A -> bool) (w : A -> Q) (l : list A) (a : A) :
  (forall x, same a x = true <-> x = a) ->
  NoDup l -> In a l -> total_where (same a) w l == w a.
Proof.
  intros Hsame Hnd. induction Hnd as [|x l Hx Hnd IH]; intro Hin.
  - contradiction.
  - rewrite total_where_cons. destruct Hin as [->|Hin].
    + rewrite (proj2 (Hsame a) eq_refl), total_where_none; [lra|].
      intros y Hy. destruct (same a y) eqn:E; [|reflexivity].
      apply Hsame in E. subst y. contradiction.
    + destruct (same a x) eqn:E.
      * apply Hsame in E. subst x. contradiction.
      * rewrite IH by assumption. lra.
Qed.

(** ** Fragments per taxable event and per lot *)

(** Records that reference taxable event [e]; records drawn from lot [l]. *)
Definition refers_to (e : AbstractTransaction) (g : GainLoss) : bool :=
  same_event e (taxable_event g).

Definition drawn_from (l : InTransaction) (g : GainLoss) : bool :=
  match from_lot g with
  | Some l' => same_lot l l'
  | None => false
  end.

(** Sum of the fragment amounts allocated to [e], or drawn from [l]. *)
Definition allocated (e : AbstractTransaction) (gls : GainLossSet) : Q :=
  total_where (refers_to e) crypto_amount gls.

Definition drawn (l : InTransaction) (gls : GainLossSet) : Q :=
  total_where (drawn_from l) crypto_amount gls.

(** Taxable amount of the occurrences of [e] in a sequence of events, and
    quantity of the occurrences of [l] in a sequence of lots. *)
Definition due (e : AbstractTransaction) (events : list AbstractTransaction) : Q :=
  total_where (same_event e) crypto_taxable_amount events.

Definition acquired (l : InTransaction) (lots : list InTransaction) : Q :=
  total_where (same_lot l) crypto_in lots.

Lemma _create_gain_and_loss_set_cons configuration input_data e events l lots :
  in_transaction_set input_data = l :: lots ->
  _create_gain_and_loss_set configuration input_data (e :: events) =
  let r := while_true configuration (initial_state e events l lots) in
  if IteratorId_eqb (fst r) from_lot_iterator_id then Raise RP2ValueError
  else Ok (snd r).
Proof.
  intro H. unfold _create_gain_and_loss_set. rewrite H. cbn [next].
  destruct (while_true configuration (initial_state e events l lots)); reflexivity.
Qed.

(** The matcher either returns a set or raises [RP2ValueError]: the loop
    always ends, and the handler knows two outcomes. *)
Lemma _create_gain_and_loss_set_outcome configuration input_data events :
  _create_gain_and_loss_set configuration input_data events = Raise RP2ValueError
  \/ exists gls, _create_gain_and_loss_set configuration input_data events = Ok gls.
Proof.
  destruct events as [|e events].
  - right. eexists. reflexivity.
  - destruct (in_transaction_set input_data) as [|l lots] eqn:Hl.
    + left. unfold _create_gain_and_loss_set. rewrite Hl. reflexivity.
    + rewrite (_create_gain_and_loss_set_cons _ _ _ _ _ _ Hl). cbn zeta.
      destruct (IteratorId_eqb _ _); [left|right; eexists]; reflexivity.
Qed.

Lemma Qle_neq_lt (a b : Q) : b <= a -> ~ a == b -> b < a.
Proof.
  intros Hle Hne. apply Qle_lteq in Hle. destruct Hle as [Hlt|He]; [assumption|].
  exfalso. apply Hne. symmetry. assumption.
Qed.

(** Case analysis on one pass of the loop body, given its outcome [H]. *)
Ltac loop_body_cases st H :=
  let gls := fresh "gls" in
  let te := fresh "te" in
  let ta := fresh "ta" in
  let tes := fresh "tes" in
  let lot := fresh "lot" in
  let la := fresh "la" in
  let lots := fresh "lots" in
  let Hearn := fresh "Hearn" in
  let Heq := fresh "Heq" in
  let Hlt := fresh "Hlt" in
  destruct st as [gls te ta tes lot la lots];
  unfold loop_body in H;
  cbn [cur_taxable_event cur_from_lot taxable_event_iterator from_lot_iterator
       gain_loss_set taxable_event_amount from_lot_amount] in H;
  destruct (is_EARN (transaction_type te)) eqn:Hearn;
  [ destruct tes; cbn [next] in H; inversion H; subst; clear H
  | destruct (Qeq_bool ta la) eqn:Heq;
    [ apply Qeq_bool_iff in Heq;
      destruct tes; cbn [next] in H;
      [ inversion H; subst; clear H
      | destruct lots; cbn [next] in H; inversion H; subst; clear H ]
    | apply Qeq_bool_false in Heq;
      destruct (Qltb ta la) eqn:Hlt;
      [ apply Qltb_true in Hlt;
        destruct tes; cbn [next] in H; inversion H; subst; clear H
      | apply Qltb_false in Hlt;
        pose proof (Qle_neq_lt _ _ Hlt Heq);
        destruct lots; cbn [next] in H; inversion H; subst; clear H ] ] ];
  cbn [cur_taxable_event cur_from_lot taxable_event_iterator from_lot_iterator
       gain_loss_set taxable_event_amount from_lot_amount] in *.

Section MatcherInvariant.
Variable configuration : Configuration.
Variable all_events : list AbstractTransaction.
Variable all_lots : list InTransaction.

(** What has been allocated, what the current event and lot still hold and
    what the iterators have still to yield add up to the inputs. *)
Record allocation_inv (st : LoopState) : Prop := {
  inv_events : forall e,
    allocated e (gain_loss_set st)
    + (if same_event e (cur_taxable_event st) then taxable_event_amount st else 0)
    + due e (taxable_event_iterator st) == due e all_events;
  inv_lots : forall l,
    drawn l (gain_loss_set st)
    + (if same_lot l (cur_from_lot st) then from_lot_amount st else 0)
    + acquired l (from_lot_iterator st) == acquired l all_lots;
  inv_lot_amount : 0 <= from_lot_amount st;
  inv_lots_rest : Forall (fun l : InTransaction => 0 <= crypto_in l) (from_lot_iterator st)
}.

Lemma allocated_snoc e gls g :
  allocated e (gls ++ [g]) ==
  allocated e gls + (if same_event e (taxable_event g) then crypto_amount g else 0).
Proof. unfold allocated. rewrite total_where_snoc. reflexivity. Qed.

Lemma drawn_snoc_lot l gls a e lot :
  drawn l (gls ++ [GainLoss_new configuration a e (Some lot)]) ==
  drawn l gls + (if same_lot l lot then a else 0).
Proof. unfold drawn. rewrite total_where_snoc. reflexivity. Qed.

Lemma drawn_snoc_none l gls a e :
  drawn l (gls ++ [GainLoss_new configuration a e None]) == drawn l gls.
Proof. unfold drawn. rewrite total_where_snoc. cbn. lra. Qed.

Lemma due_cons e x events :
  due e (x :: events) ==
  (if same_event e x then crypto_taxable_amount x else 0) + due e events.
Proof. apply total_where_cons. Qed.

Lemma acquired_cons l x lots :
  acquired l (x :: lots) == (if same_lot l x then crypto_in x else 0) + acquired l lots.
Proof. apply total_where_cons. Qed.

Lemma allocation_inv_step st st' :
  allocation_inv st -> loop_body configuration st = Continue st' -> allocation_inv st'.
Proof.
  intros [He Hl Hla Hrest] H.
  loop_body_cases st H; unfold gain_loss_set_add_entry;
    (split; cbn [cur_taxable_event cur_from_lot taxable_event_iterator
                 from_lot_iterator gain_loss_set taxable_event_amount from_lot_amount];
     [ intro e; specialize (He e); rewrite allocated_snoc;
       cbn [GainLoss_new taxable_event crypto_amount];
       rewrite ?due_cons in He; rewrite ?due_cons;
       repeat match goal with
              | |- context [same_event ?a ?b] => destruct (same_event a b)
              | _ : context [same_event ?a ?b] |- _ => destruct (same_event a b)
              end; lra
     | intro l; specialize (Hl l);
       rewrite ?drawn_snoc_lot, ?drawn_snoc_none;
       rewrite ?acquired_cons in Hl; rewrite ?acquired_cons;
       repeat match goal with
              | |- context [same_lot ?a ?b] => destruct (same_lot a b)
              | _ : context [same_lot ?a ?b] |- _ => destruct (same_lot a b)
              end; lra
     | try (inversion Hrest; subst; assumption); lra
     | try (inversion Hrest; subst; assumption) ]).
Qed.

Lemma allocation_inv_stop st gls :
  allocation_inv st ->
  loop_body configuration st = StopIteration taxable_event_iterator_id gls ->
  (forall e, allocated e gls == due e all_events)
  /\ (forall l, drawn l gls <= acquired l all_lots).
Proof.
  intros [He Hl Hla Hrest] H.
  loop_body_cases st H; unfold gain_loss_set_add_entry;
    (split;
     [ intro e; specialize (He e); rewrite allocated_snoc;
       cbn [GainLoss_new taxable_event crypto_amount];
       unfold due in He at 1; rewrite total_where_nil in He;
       destruct (same_event e te); lra
     | intro l; specialize (Hl l);
       rewrite ?drawn_snoc_lot, ?drawn_snoc_none;
       pose proof (total_where_nonneg (same_lot l) crypto_in _ Hrest) as Hnn;
       fold (acquired l lots) in Hnn;
       destruct (same_lot l lot); lra ]).
Qed.
End MatcherInvariant.

(** ** Running out of lots *)

Definition lotless (e : AbstractTransaction) : bool := is_EARN (transaction_type e).

(** Taxable amount the lots have to cover, and quantity the lots hold. *)
Definition taxable_from_lots (events : list AbstractTransaction) : Q :=
  total_where (fun e => negb (lotless e)) crypto_taxable_amount events.

Definition lots_quantity (lots : list InTransaction) : Q := Qsum (map crypto_in lots).

Section MatcherBalance.
Variable configuration : Configuration.
Variable all_events : list AbstractTransaction.
Variable all_lots : list InTransaction.

(** Each fragment taken from a lot lowers what is still to cover and what
    the lots still hold by the same amount. *)
Record balance_inv (st : LoopState) : Prop := {
  bal_difference :
    (if lotless (cur_taxable_event st) then 0 else taxable_event_amount st)
    + taxable_from_lots (taxable_event_iterator st)
    - (from_lot_amount st + lots_quantity (from_lot_iterator st))
    == taxable_from_lots all_events - lots_quantity all_lots;
  bal_lot_amount : 0 <= from_lot_amount st;
  bal_lots_rest : Forall (fun l : InTransaction => 0 <= crypto_in l) (from_lot_iterator st)
}.

Lemma taxable_from_lots_cons e events :
  taxable_from_lots (e :: events) ==
  (if lotless e then 0 else crypto_taxable_amount e) + taxable_from_lots events.
Proof.
  unfold taxable_from_lots. rewrite total_where_cons.
  destruct (lotless e); cbn [negb]; lra.
Qed.

Lemma lots_quantity_cons l lots :
  lots_quantity (l :: lots) == crypto_in l + lots_quantity lots.
Proof. unfold lots_quantity. cbn [map]. rewrite Qsum_cons. lra. Qed.

Lemma lots_quantity_nonneg lots :
  Forall (fun l : InTransaction => 0 <= crypto_in l) lots -> 0 <= lots_quantity lots.
Proof.
  induction 1 as [|l lots Hl _ IH].
  - unfold lots_quantity. cbn. lra.
  - rewrite lots_quantity_cons. lra.
Qed.

Lemma balance_inv_step st st' :
  balance_inv st -> loop_body configuration st = Continue st' -> balance_inv st'.
Proof.
  intros [Hd Hla Hrest] H.
  loop_body_cases st H;
    (split; cbn [cur_taxable_event cur_from_lot taxable_event_iterator
                 from_lot_iterator gain_loss_set taxable_event_amount from_lot_amount];
     [ rewrite ?taxable_from_lots_cons, ?lots_quantity_cons in Hd;
       unfold lotless in *;
       match goal with
       | Hk : is_EARN (transaction_type _) = _ |- _ => rewrite Hk in Hd; try rewrite Hk
       end;
       try match goal with
           | |- context [is_EARN (transaction_type ?a)] =>
               destruct (is_EARN (transaction_type a))
           end; lra
     | try (inversion Hrest; subst; assumption); lra
     | try (inversion Hrest; subst; assumption) ]).
Qed.

Lemma balance_inv_stop st gls :
  balance_inv st ->
  loop_body configuration st = StopIteration taxable_event_iterator_id gls ->
  taxable_from_lots all_events <= lots_quantity all_lots.
Proof.
  intros [Hd Hla Hrest] H.
  pose proof (lots_quantity_nonneg _ Hrest) as Hnn.
  loop_body_cases st H; unfold lotless in *;
    match goal with
    | Hk : is_EARN (transaction_type _) = _ |- _ => rewrite Hk in Hd
    end;
    unfold taxable_from_lots in Hd at 1; rewrite total_where_nil in Hd; lra.
Qed.
End MatcherBalance.

(** Loop states the run passes through. *)
Inductive reaches (configuration : Configuration) : LoopState -> LoopState -> Prop :=
| reaches_here st : reaches configuration st st
| reaches_next st st' st'' :
    loop_body configuration st = Continue st' ->
    reaches configuration st' st'' ->
    reaches configuration st st''.

Lemma reaches_while_true configuration st st' :
  reaches configuration st st' ->
  while_true configuration st = while_true configuration st'.
Proof.
  induction 1 as [|st st' st'' Hbody _ IH]; [reflexivity|].
  rewrite while_true_step, Hbody. exact IH.
Qed.

(** The current event needs a lot and has more left than the last lot holds,
    or uses the last lot up while further events wait. *)
Definition lots_exhausted_with_pending (st : LoopState) : Prop :=
  lotless (cur_taxable_event st) = false
  /\ from_lot_iterator st = []
  /\ (from_lot_amount st < taxable_event_amount st
      \/ (taxable_event_amount st == from_lot_amount st /\ taxable_event_iterator st <> [])).

Definition insufficient_lots (configuration : Configuration) (input_data : InputData)
  (events : list AbstractTransaction) : Prop :=
  (events <> [] /\ in_transaction_set input_data = [])
  \/ (exists e events' l lots st,
        events = e :: events'
        /\ in_transaction_set input_data = l :: lots
        /\ reaches configuration (initial_state e events' l lots) st
        /\ lots_exhausted_with_pending st)
  \/ (Forall (fun l : InTransaction => 0 <= crypto_in l) (in_transaction_set input_data)
      /\ lots_quantity (in_transaction_set input_data) < taxable_from_lots events).

Lemma lots_exhausted_stop configuration st :
  lots_exhausted_with_pending st ->
  exists gls, loop_body configuration st = StopIteration from_lot_iterator_id gls.
Proof.
  destruct st as [gls te ta tes lot la lots].
  unfold lots_exhausted_with_pending, lotless, loop_body. cbn.
  intros (Hearn & -> & Hcase). rewrite Hearn.
  destruct Hcase as [Hlt | [Heq Hne]].
  - destruct (Qeq_bool ta la) eqn:E.
    { apply Qeq_bool_iff in E. lra. }
    destruct (Qltb ta la) eqn:E'.
    { apply Qltb_true in E'. lra. }
    eexists. reflexivity.
  - apply Qeq_bool_iff in Heq. rewrite Heq.
    destruct tes; [congruence|]. eexists. reflexivity.
Qed.

Lemma initial_state_allocation_inv e events l lots :
  Forall (fun l : InTransaction => 0 <= crypto_in l) (l :: lots) ->
  allocation_inv (e :: events) (l :: lots) (initial_state e events l lots).
Proof.
  intro Hnn. inversion Hnn; subst.
  split; cbn [initial_state cur_taxable_event cur_from_lot taxable_event_iterator
              from_lot_iterator gain_loss_set taxable_event_amount from_lot_amount];
    try assumption.
  - intro x. unfold allocated. rewrite total_where_nil, due_cons. lra.
  - intro x. unfold drawn. rewrite total_where_nil, acquired_cons. lra.
Qed.

Lemma initial_state_balance_inv e events l lots :
  Forall (fun l : InTransaction => 0 <= crypto_in l) (l :: lots) ->
  balance_inv (e :: events) (l :: lots) (initial_state e events l lots).
Proof.
  intro Hnn. inversion Hnn; subst.
  split; cbn [initial_state cur_taxable_event cur_from_lot taxable_event_iterator
              from_lot_iterator gain_loss_set taxable_event_amount from_lot_amount];
    try assumption.
  rewrite taxable_from_lots_cons, lots_quantity_cons. lra.
Qed.

(** When the matcher returns, the lots held at least what they had to cover. *)
Lemma _create_gain_and_loss_set_covered configuration input_data events gls :
  Forall (fun l : InTransaction => 0 <= crypto_in l) (in_transaction_set input_data) ->
  _create_gain_and_loss_set configuration input_data events = Ok gls ->
  taxable_from_lots events <= lots_quantity (in_transaction_set input_data).
Proof.
  intros Hnn Hok.
  destruct events as [|e events].
  { unfold taxable_from_lots. rewrite total_where_nil.
    apply lots_quantity_nonneg. assumption. }
  destruct (in_transaction_set input_data) as [|l lots] eqn:Hl.
  { unfold _create_gain_and_loss_set in Hok. rewrite Hl in Hok. discriminate. }
  rewrite (_create_gain_and_loss_set_cons _ _ _ _ _ _ Hl) in Hok. cbn zeta in Hok.
  pose proof (while_true_invariant configuration
                (balance_inv (e :: events) (l :: lots))
                (fun value _ =>
                   value = taxable_event_iterator_id ->
                   taxable_from_lots (e :: events) <= lots_quantity (l :: lots))) as Hrule.
  cbv beta in Hrule.
  specialize (Hrule (balance_inv_step configuration _ _)).
  assert (Hstop : forall st value gls0,
             balance_inv (e :: events) (l :: lots) st ->
             loop_body configuration st = StopIteration value gls0 ->
             value = taxable_event_iterator_id ->
             taxable_from_lots (e :: events) <= lots_quantity (l :: lots)).
  { intros st value gls0 Hinv Hbody ->. eapply balance_inv_stop; eassumption. }
  specialize (Hrule Hstop _ (initial_state_balance_inv e events l lots Hnn)).
  destruct (fst (while_true configuration (initial_state e events l lots)));
    [apply Hrule; reflexivity | discriminate].
Qed.

(** C1. When the lots run out while a taxable event that needs a lot still
    has taxable amount to allocate, [_create_gain_and_loss_set] raises
    [RP2ValueError] and returns no gain/loss set.  Running out is any of:
    there are events and no lot at all; the run reaches a pass whose event
    needs a lot, with no lot left after the current one, and either the event
    has more left than the current lot holds or it uses the lot up while
    further events wait; the lots together hold less than the events that
    need lots have to allocate. *)
Theorem insufficient_lots_raise_RP2ValueError configuration input_data events :
  insufficient_lots configuration input_data events ->
  _create_gain_and_loss_set configuration input_data events = Raise RP2ValueError.
Proof.
  intros [[Hne Hnil] | [(e & events' & l & lots & st & -> & Hl & Hreach & Hpend) | [Hnn Hlt]]].
  - destruct events as [|e events]; [congruence|].
    unfold _create_gain_and_loss_set. rewrite Hnil. reflexivity.
  - rewrite (_create_gain_and_loss_set_cons _ _ _ _ _ _ Hl). cbn zeta.
    rewrite (reaches_while_true _ _ _ Hreach), while_true_step.
    destruct (lots_exhausted_stop configuration st Hpend) as [gls ->].
    reflexivity.
  - destruct (_create_gain_and_loss_set_outcome configuration input_data events)
      as [Hraise | [gls Hok]]; [assumption|].
    pose proof (_create_gain_and_loss_set_covered _ _ _ _ Hnn Hok). lra.
Qed.

(** C2. When [_create_gain_and_loss_set] returns a gain/loss set, the
    fragment amounts of the records that reference a taxable event add up to
    that event's taxable crypto amount, and the fragment amounts of the
    records drawn from a lot add up to at most that lot's [crypto_in]; the
    only other outcome is the [RP2ValueError] of a failed matching.  The
    events are pairwise distinct, and so are the lots, whose quantities are
    not negative. *)
Theorem gain_loss_set_allocation configuration input_data events :
  NoDup events ->
  NoDup (in_transaction_set input_data) ->
  Forall (fun l : InTransaction => 0 <= crypto_in l) (in_transaction_set input_data) ->
  _create_gain_and_loss_set configuration input_data events = Raise RP2ValueError
  \/ exists gls,
      _create_gain_and_loss_set configuration input_data events = Ok gls
      /\ (forall e, In e events -> allocated e gls == crypto_taxable_amount e)
      /\ (forall l, In l (in_transaction_set input_data) -> drawn l gls <= crypto_in l).
Proof.
  intros Hnde Hndl Hnn.
  destruct events as [|e events].
  { right. exists []. split; [reflexivity|]. split.
    - intros x [].
    - intros l Hin. unfold drawn. rewrite total_where_nil.
      rewrite Forall_forall in Hnn. apply (Hnn l Hin). }
  destruct (in_transaction_set input_data) as [|l lots] eqn:Hl.
  { left. unfold _create_gain_and_loss_set. rewrite Hl. reflexivity. }
  rewrite (_create_gain_and_loss_set_cons _ _ _ _ _ _ Hl). cbn zeta.
  pose proof (while_true_invariant configuration
                (allocation_inv (e :: events) (l :: lots))
                (fun value gls =>
                   value = taxable_event_iterator_id ->
                   (forall x, allocated x gls == due x (e :: events))
                   /\ (forall x, drawn x gls <= acquired x (l :: lots)))) as Hrule.
  cbv beta in Hrule.
  specialize (Hrule (allocation_inv_step configuration _ _)).
  assert (Hstop : forall st value gls0,
             allocation_inv (e :: events) (l :: lots) st ->
             loop_body configuration st = StopIteration value gls0 ->
             value = taxable_event_iterator_id ->
             (forall x, allocated x gls0 == due x (e :: events))
             /\ (forall x, drawn x gls0 <= acquired x (l :: lots))).
  { intros st value gls0 Hinv Hbody ->. eapply allocation_inv_stop; eassumption. }
  specialize (Hrule Hstop _ (initial_state_allocation_inv e events l lots Hnn)).
  destruct (while_true configuration (initial_state e events l lots)) as [value gls].
  cbn [fst snd] in *.
  destruct value; cbn [IteratorId_eqb]; [right | left; reflexivity].
  exists gls. split; [reflexivity|].
  destruct (Hrule eq_refl) as [Hev Hlots]. split.
  - intros x Hin. rewrite Hev.
    apply (total_where_unique same_event); [apply same_event_true | assumption | assumption].
  - intros x Hin. apply (Qle_trans _ _ _ (Hlots x)).
    apply Qle_lteq. right.
    apply (total_where_unique same_lot); [apply same_lot_true | assumption | assumption].
Qed.

(** ** One pass of the matching loop *)

Definition step_gain_loss_set (s : LoopStep) : GainLossSet :=
  match s with
  | Continue st => gain_loss_set st
  | StopIteration _ gls => gls
  end.

(** The pass adds exactly the record [g] to the set. *)
Definition emits_one (st : LoopState) (s : LoopStep) (g : GainLoss) : Prop :=
  step_gain_loss_set s = gain_loss_set st ++ [g].

(** A pointer advances: the next entry of the iterator becomes current,
    with its whole amount.  A pointer stays: same entry, same iterator. *)
Definition taxable_pointer_advanced (st st' : LoopState) : Prop :=
  taxable_event_iterator st = cur_taxable_event st' :: taxable_event_iterator st'
  /\ taxable_event_amount st' = crypto_taxable_amount (cur_taxable_event st').

Definition taxable_pointer_kept (st st' : LoopState) : Prop :=
  cur_taxable_event st' = cur_taxable_event st
  /\ taxable_event_iterator st' = taxable_event_iterator st.

Definition lot_pointer_advanced (st st' : LoopState) : Prop :=
  from_lot_iterator st = cur_from_lot st' :: from_lot_iterator st'
  /\ from_lot_amount st' = crypto_in (cur_from_lot st').

Definition lot_pointer_kept (st st' : LoopState) : Prop :=
  cur_from_lot st' = cur_from_lot st
  /\ from_lot_iterator st' = from_lot_iterator st.

(** The three branches for an event that needs a lot.  Each emits one
    record against the current lot and says which pointers move when the
    loop continues, and which exhausted iterator stops it otherwise. *)
Inductive matched_step (st : LoopState) (s : LoopStep) : Prop :=
| step_equal :
    taxable_event_amount st == from_lot_amount st ->
    emits_one st s {| crypto_amount := taxable_event_amount st;
                      taxable_event := cur_taxable_event st;
                      from_lot := Some (cur_from_lot st) |} ->
    (forall st', s = Continue st' ->
       taxable_pointer_advanced st st' /\ lot_pointer_advanced st st') ->
    (forall value gls, s = StopIteration value gls ->
       (value = taxable_event_iterator_id /\ taxable_event_iterator st = [])
       \/ (value = from_lot_iterator_id
           /\ taxable_event_iterator st <> [] /\ from_lot_iterator st = [])) ->
    matched_step st s
| step_taxable_smaller :
    taxable_event_amount st < from_lot_amount st ->
    emits_one st s {| crypto_amount := taxable_event_amount st;
                      taxable_event := cur_taxable_event st;
                      from_lot := Some (cur_from_lot st) |} ->
    (forall st', s = Continue st' ->
       taxable_pointer_advanced st st' /\ lot_pointer_kept st st'
       /\ from_lot_amount st' = from_lot_amount st - taxable_event_amount st) ->
    (forall value gls, s = StopIteration value gls ->
       value = taxable_event_iterator_id /\ taxable_event_iterator st = []) ->
    matched_step st s
| step_lot_smaller :
    from_lot_amount st < taxable_event_amount st ->
    emits_one st s {| crypto_amount := from_lot_amount st;
                      taxable_event := cur_taxable_event st;
                      from_lot := Some (cur_from_lot st) |} ->
    (forall st', s = Continue st' ->
       lot_pointer_advanced st st' /\ taxable_pointer_kept st st'
       /\ taxable_event_amount st' = taxable_event_amount st - from_lot_amount st) ->
    (forall value gls, s = StopIteration value gls ->
       value = from_lot_iterator_id /\ from_lot_iterator st = []) ->
    matched_step st s.

(** Amounts of validated input: every taxable event has a positive taxable
    amount and every lot a positive quantity; in a loop state, so have the
    current remainders and the entries still to come. *)
Definition positive_state (st : LoopState) : Prop :=
  0 < taxable_event_amount st
  /\ 0 < from_lot_amount st
  /\ Forall (fun e => 0 < crypto_taxable_amount e) (taxable_event_iterator st)
  /\ Forall (fun l : InTransaction => 0 < crypto_in l) (from_lot_iterator st).

Lemma loop_body_shape configuration st :
  exists g, emits_one st (loop_body configuration st) g.
Proof.
  destruct (loop_body configuration st) as [st'|value gls] eqn:H;
    loop_body_cases st H; eexists; reflexivity.
Qed.

Lemma matched_step_loop_body configuration st :
  lotless (cur_taxable_event st) = false ->
  matched_step st (loop_body configuration st).
Proof.
  intro Hk. unfold lotless in Hk.
  destruct (loop_body configuration st) as [st'|value gls] eqn:H;
    loop_body_cases st H; try congruence.
  - apply step_equal; cbn; try assumption; try reflexivity.
    + intros st' E. inversion E; subst. repeat split.
    + discriminate.
  - apply step_taxable_smaller; cbn; try assumption; try reflexivity.
    + intros st' E. inversion E; subst. repeat split.
    + discriminate.
  - apply step_lot_smaller; cbn; try assumption; try reflexivity.
    + intros st' E. inversion E; subst. repeat split.
    + discriminate.
  - apply step_equal; cbn; try assumption; try reflexivity.
    + discriminate.
    + intros value gls' E. inversion E; subst. left. split; reflexivity.
  - apply step_equal; cbn; try assumption; try reflexivity.
    + discriminate.
    + intros value gls' E. inversion E; subst. right.
      repeat split; congruence.
  - apply step_taxable_smaller; cbn; try assumption; try reflexivity.
    + discriminate.
    + intros value gls' E. inversion E; subst. split; reflexivity.
  - apply step_lot_smaller; cbn; try assumption; try reflexivity.
    + discriminate.
    + intros value gls' E. inversion E; subst. split; reflexivity.
Qed.

Lemma positive_state_step configuration st st' :
  positive_state st -> loop_body configuration st = Continue st' -> positive_state st'.
Proof.
  intros (Hta & Hla & Hes & Hls) H.
  loop_body_cases st H; unfold positive_state;
    cbn [cur_taxable_event cur_from_lot taxable_event_iterator from_lot_iterator
         gain_loss_set taxable_event_amount from_lot_amount];
    try (inversion Hes; subst); try (inversion Hls; subst);
    repeat split; try assumption; try lra.
Qed.

Lemma positive_state_emits configuration st g :
  positive_state st -> emits_one st (loop_body configuration st) g ->
  0 < crypto_amount g.
Proof.
  intros (Hta & Hla & _ & _) Hg. unfold emits_one in Hg.
  destruct (loop_body configuration st) as [st'|value gls] eqn:H;
    loop_body_cases st H; cbn in Hg; unfold gain_loss_set_add_entry in Hg;
    apply app_inv_head in Hg; inversion Hg; subst; cbn; assumption.
Qed.

Lemma positive_state_reaches configuration st st' :
  reaches configuration st st' -> positive_state st -> positive_state st'.
Proof.
  induction 1 as [|st st1 st2 Hbody _ IH]; [trivial|].
  intro Hp. apply IH. eapply positive_state_step; eassumption.
Qed.

Lemma initial_state_positive e events l lots :
  Forall (fun e => 0 < crypto_taxable_amount e) (e :: events) ->
  Forall (fun l : InTransaction => 0 < crypto_in l) (l :: lots) ->
  positive_state (initial_state e events l lots).
Proof.
  intros He Hl. inversion He; subst. inversion Hl; subst.
  repeat split; assumption.
Qed.

(** On validated input no record of a returned set has a zero amount. *)
Lemma gain_loss_set_positive configuration input_data events gls :
  Forall (fun e => 0 < crypto_taxable_amount e) events ->
  Forall (fun l : InTransaction => 0 < crypto_in l) (in_transaction_set input_data) ->
  _create_gain_and_loss_set configuration input_data events = Ok gls ->
  Forall (fun g => 0 < crypto_amount g) gls.
Proof.
  intros He Hl Hok.
  destruct events as [|e events].
  { inversion Hok. constructor. }
  destruct (in_transaction_set input_data) as [|l lots] eqn:Hlots.
  { unfold _create_gain_and_loss_set in Hok. rewrite Hlots in Hok. discriminate. }
  rewrite (_create_gain_and_loss_set_cons _ _ _ _ _ _ Hlots) in Hok. cbn zeta in Hok.
  pose proof (while_true_invariant configuration
                (fun st => positive_state st
                           /\ Forall (fun g => 0 < crypto_amount g) (gain_loss_set st))
                (fun _ gls => Forall (fun g => 0 < crypto_amount g) gls)) as Hrule.
  cbv beta in Hrule.
  assert (Hemit : forall st, positive_state st ->
            Forall (fun g => 0 < crypto_amount g) (gain_loss_set st) ->
            Forall (fun g => 0 < crypto_amount g)
              (step_gain_loss_set (loop_body configuration st))).
  { intros st Hp Hall.
    destruct (loop_body_shape configuration st) as [g Hg].
    rewrite Hg. apply Forall_app. split; [assumption|].
    constructor; [|constructor].
    eapply positive_state_emits; eassumption. }
  specialize (Hrule
    (fun st st' Hinv Hbody =>
       conj (positive_state_step configuration st st' (proj1 Hinv) Hbody)
            (eq_ind _ (fun s => Forall _ (step_gain_loss_set s))
               (Hemit st (proj1 Hinv) (proj2 Hinv)) _ Hbody))
    (fun st value gls0 Hinv Hbody =>
       eq_ind _ (fun s => Forall _ (step_gain_loss_set s))
         (Hemit st (proj1 Hinv) (proj2 Hinv)) _ Hbody)
    (initial_state e events l lots)
    (conj (initial_state_positive e events l lots He Hl) (Forall_nil _))).
  destruct (IteratorId_eqb _ _); [discriminate|].
  inversion Hok; subst. exact Hrule.
Qed.

(** C3. In a pass of the matching loop whose taxable event needs a lot,
    exactly one of three branches runs, chosen by comparing the event's
    remaining amount with the lot's remaining quantity.  Equal: one record
    for the common amount, both pointers advance.  Event smaller: one record
    for the event's remainder against the current lot, the lot's remainder
    goes down by it, only the event pointer advances.  Lot smaller: one
    record for the lot's whole remainder, the event's remainder goes down by
    it, only the lot pointer advances.  With the positive amounts of
    validated input the record is never of zero amount, and the state the
    loop continues in has positive remainders again: no lot stays current
    with nothing left. *)
Theorem lot_matching_step configuration st :
  lotless (cur_taxable_event st) = false ->
  matched_step st (loop_body configuration st)
  /\ (~ (taxable_event_amount st == from_lot_amount st
         /\ taxable_event_amount st < from_lot_amount st)
      /\ ~ (taxable_event_amount st == from_lot_amount st
            /\ from_lot_amount st < taxable_event_amount st)
      /\ ~ (taxable_event_amount st < from_lot_amount st
            /\ from_lot_amount st < taxable_event_amount st))
  /\ (positive_state st ->
      (forall g, emits_one st (loop_body configuration st) g -> 0 < crypto_amount g)
      /\ (forall st', loop_body configuration st = Continue st' -> positive_state st')).
Proof.
  intro Hk. split; [|split].
  - apply matched_step_loop_body. assumption.
  - repeat split; intros [H1 H2]; lra.
  - intro Hp. split.
    + intros g Hg. eapply positive_state_emits; eassumption.
    + intros st' Hbody. eapply positive_state_step; eassumption.
Qed.

(** ** Events without a lot *)

Definition lotless_record (amount : RP2Decimal) (e : AbstractTransaction) : GainLoss :=
  {| crypto_amount := amount; taxable_event := e; from_lot := None |}.

Lemma lotless_step configuration st :
  lotless (cur_taxable_event st) = true ->
  emits_one st (loop_body configuration st)
    (lotless_record (taxable_event_amount st) (cur_taxable_event st))
  /\ (forall st', loop_body configuration st = Continue st' ->
        taxable_pointer_advanced st st' /\ lot_pointer_kept st st'
        /\ from_lot_amount st' = from_lot_amount st)
  /\ (forall value gls, loop_body configuration st = StopIteration value gls ->
        value = taxable_event_iterator_id /\ taxable_event_iterator st = []).
Proof.
  intro Hk. unfold lotless in Hk.
  destruct (loop_body configuration st) as [st'|value gls] eqn:H;
    loop_body_cases st H; try congruence.
  - split; [reflexivity|]. split; [|discriminate].
    intros s1 E. inversion E; subst. repeat split.
  - split; [reflexivity|]. split; [discriminate|].
    intros v1 g1 E. inversion E; subst. split; reflexivity.
Qed.

Section LotlessRecords.
Variable configuration : Configuration.
Variable all_events : list AbstractTransaction.
Hypothesis all_events_distinct : NoDup all_events.

(** The records of [gls] that reference a lotless event: one, for the
    event's whole amount and without a lot, once the event is among those
    [done], and none before. *)
Definition lotless_records (done : list AbstractTransaction) (gls : GainLossSet) : Prop :=
  forall e, lotless e = true ->
    filter (refers_to e) gls =
    if in_dec AbstractTransaction_eq_dec e done
    then [lotless_record (crypto_taxable_amount e) e]
    else [].

Definition lotless_inv (st : LoopState) : Prop :=
  exists done,
    all_events = done ++ cur_taxable_event st :: taxable_event_iterator st
    /\ (lotless (cur_taxable_event st) = true ->
        taxable_event_amount st = crypto_taxable_amount (cur_taxable_event st))
    /\ lotless_records done (gain_loss_set st).

Lemma filter_refers_snoc e gls g :
  filter (refers_to e) (gls ++ [g]) =
  filter (refers_to e) gls ++ (if same_event e (taxable_event g) then [g] else []).
Proof.
  rewrite filter_app. cbn [filter]. unfold refers_to.
  destruct (same_event e (taxable_event g)); reflexivity.
Qed.

Lemma lotless_records_done done gls g :
  lotless_records done gls ->
  ~ In (taxable_event g) done ->
  (lotless (taxable_event g) = true ->
   g = lotless_record (crypto_taxable_amount (taxable_event g)) (taxable_event g)) ->
  lotless_records (done ++ [taxable_event g]) (gls ++ [g]).
Proof.
  intros Hrec Hnot Hg e He. rewrite filter_refers_snoc, (Hrec e He).
  destruct (same_event e (taxable_event g)) eqn:Hs.
  - apply same_event_true in Hs. symmetry in Hs. subst e.
    destruct (in_dec AbstractTransaction_eq_dec (taxable_event g) done) as [Hin|_];
      [contradiction|].
    destruct (in_dec AbstractTransaction_eq_dec (taxable_event g)
                (done ++ [taxable_event g])) as [_|Hout].
    + cbn [app]. f_equal. apply Hg. assumption.
    + exfalso. apply Hout. apply in_or_app. right. now left.
  - assert (Hne : taxable_event g <> e).
    { intro E. apply (proj2 (same_event_true e (taxable_event g))) in E. congruence. }
    rewrite app_nil_r.
    destruct (in_dec AbstractTransaction_eq_dec e done) as [Hin|Hnin];
      destruct (in_dec AbstractTransaction_eq_dec e (done ++ [taxable_event g]))
        as [Hin'|Hnin']; try reflexivity.
    + exfalso. apply Hnin'. apply in_or_app. now left.
    + exfalso. apply in_app_or in Hin'. destruct Hin' as [Hin'|[Hin'|[]]];
        [contradiction | congruence].
Qed.

Lemma lotless_records_other done gls g :
  lotless_records done gls ->
  lotless (taxable_event g) = false ->
  lotless_records done (gls ++ [g]).
Proof.
  intros Hrec Hg e He. rewrite filter_refers_snoc, (Hrec e He).
  destruct (same_event e (taxable_event g)) eqn:Hs.
  - apply same_event_true in Hs. congruence.
  - apply app_nil_r.
Qed.

Ltac apply_records_done :=
  match goal with
  | |- lotless_records (?d ++ _) (?l ++ [?g]) =>
      apply (lotless_records_done d l g); [assumption | assumption |]
  end.

Lemma current_not_done done e rest :
  all_events = done ++ e :: rest -> ~ In e done.
Proof.
  intros Hall Hin. pose proof all_events_distinct as Hnd. rewrite Hall in Hnd.
  apply NoDup_remove_2 in Hnd. apply Hnd. apply in_or_app. now left.
Qed.

Lemma lotless_inv_step st st' :
  lotless_inv st -> loop_body configuration st = Continue st' -> lotless_inv st'.
Proof.
  intros (done & Hall & Hamount & Hrec) H.
  pose proof (current_not_done _ _ _ Hall) as Hnot.
  loop_body_cases st H; unfold lotless_inv, lotless in *;
    cbn [cur_taxable_event cur_from_lot taxable_event_iterator from_lot_iterator
         gain_loss_set taxable_event_amount from_lot_amount] in *;
    unfold gain_loss_set_add_entry.
  - exists (done ++ [te]). split; [rewrite <- app_assoc; exact Hall|].
    split; [reflexivity|].
    apply_records_done.
    intros _. cbn. rewrite (Hamount Hearn). reflexivity.
  - exists (done ++ [te]). split; [rewrite <- app_assoc; exact Hall|].
    split; [reflexivity|].
    apply_records_done.
    cbn. unfold lotless. congruence.
  - exists (done ++ [te]). split; [rewrite <- app_assoc; exact Hall|].
    split; [reflexivity|].
    apply_records_done.
    cbn. unfold lotless. congruence.
  - exists done. split; [exact Hall|]. split; [congruence|].
    apply lotless_records_other; [assumption|]. exact Hearn.
Qed.

Lemma lotless_inv_stop st gls :
  lotless_inv st ->
  loop_body configuration st = StopIteration taxable_event_iterator_id gls ->
  forall e, In e all_events -> lotless e = true ->
    filter (refers_to e) gls = [lotless_record (crypto_taxable_amount e) e].
Proof.
  intros (done & Hall & Hamount & Hrec) H.
  pose proof (current_not_done _ _ _ Hall) as Hnot.
  assert (Hfinal : forall te g gls0,
             all_events = done ++ [te] ->
             lotless_records (done ++ [te]) (gls0 ++ [g]) ->
             forall e, In e all_events -> lotless e = true ->
               filter (refers_to e) (gls0 ++ [g]) =
               [lotless_record (crypto_taxable_amount e) e]).
  { intros te g gls0 Hall' Hrec' e Hin He. rewrite (Hrec' e He).
    rewrite Hall' in Hin.
    destruct (in_dec AbstractTransaction_eq_dec e (done ++ [te])); [reflexivity|contradiction]. }
  loop_body_cases st H; unfold lotless in *;
    cbn [cur_taxable_event cur_from_lot taxable_event_iterator from_lot_iterator
         gain_loss_set taxable_event_amount from_lot_amount] in *;
    unfold gain_loss_set_add_entry;
    apply (Hfinal te); try reflexivity; try exact Hall.
  - apply_records_done.
    intros _. cbn. rewrite (Hamount Hearn). reflexivity.
  - apply_records_done.
    cbn. unfold lotless. congruence.
  - apply_records_done.
    cbn. unfold lotless. congruence.
Qed.
End LotlessRecords.

Lemma initial_state_lotless_inv e events l lots :
  lotless_inv (e :: events) (initial_state e events l lots).
Proof.
  exists []. split; [reflexivity|]. split; [reflexivity|].
  intros x Hx. reflexivity.
Qed.

(** In a returned set, a lotless event is referenced by exactly one record:
    its whole taxable amount, no lot. *)
Lemma lotless_event_one_record configuration input_data events gls e :
  NoDup events ->
  _create_gain_and_loss_set configuration input_data events = Ok gls ->
  In e events -> lotless e = true ->
  filter (refers_to e) gls = [lotless_record (crypto_taxable_amount e) e].
Proof.
  intros Hnd Hok Hin He.
  destruct events as [|e0 events]; [contradiction|].
  destruct (in_transaction_set input_data) as [|l lots] eqn:Hlots.
  { unfold _create_gain_and_loss_set in Hok. rewrite Hlots in Hok. discriminate. }
  rewrite (_create_gain_and_loss_set_cons _ _ _ _ _ _ Hlots) in Hok. cbn zeta in Hok.
  pose proof (while_true_invariant configuration
                (lotless_inv (e0 :: events))
                (fun value gls =>
                   value = taxable_event_iterator_id ->
                   forall x, In x (e0 :: events) -> lotless x = true ->
                     filter (refers_to x) gls =
                     [lotless_record (crypto_taxable_amount x) x])) as Hrule.
  cbv beta in Hrule.
  specialize (Hrule (lotless_inv_step configuration _ Hnd)).
  assert (Hstop : forall st value gls0,
             lotless_inv (e0 :: events) st ->
             loop_body configuration st = StopIteration value gls0 ->
             value = taxable_event_iterator_id ->
             forall x, In x (e0 :: events) -> lotless x = true ->
               filter (refers_to x) gls0 =
               [lotless_record (crypto_taxable_amount x) x]).
  { intros st value gls0 Hinv Hbody ->. eapply lotless_inv_stop; eassumption. }
  specialize (Hrule Hstop _ (initial_state_lotless_inv e0 events l lots)).
  destruct (while_true configuration (initial_state e0 events l lots)) as [value gls1].
  cbn [fst snd] in *.
  destruct value; cbn [IteratorId_eqb] in Hok; [|discriminate].
  inversion Hok; subst. apply Hrule; [reflexivity | assumption | assumption].
Qed.

(** C4. A pass of the matching loop whose taxable event is of the lotless
    kind (EARN) emits exactly one record, for the event's whole remaining
    amount and with no lot; the record has zero cost basis and is not
    long-term whatever the holding period rule; the test comes before any
    comparison with the lot, so the current lot, its remaining quantity and
    the lot iterator are the same afterwards, and only the event pointer
    advances.  In a returned set each lotless event is referenced by exactly
    one record, of the event's whole taxable amount. *)
Theorem lotless_event_record configuration :
  (forall st,
      lotless (cur_taxable_event st) = true ->
      let g := lotless_record (taxable_event_amount st) (cur_taxable_event st) in
      emits_one st (loop_body configuration st) g
      /\ from_lot g = None
      /\ usd_cost_basis g = ZERO
      /\ (forall long_term_holding_period,
             is_long_term_capital_gains long_term_holding_period g = false)
      /\ (forall st', loop_body configuration st = Continue st' ->
            taxable_pointer_advanced st st' /\ lot_pointer_kept st st'
            /\ from_lot_amount st' = from_lot_amount st)
      /\ (forall value gls, loop_body configuration st = StopIteration value gls ->
            value = taxable_event_iterator_id /\ taxable_event_iterator st = []))
  /\ (forall input_data events gls e,
         NoDup events ->
         _create_gain_and_loss_set configuration input_data events = Ok gls ->
         In e events -> lotless e = true ->
         filter (refers_to e) gls = [lotless_record (crypto_taxable_amount e) e]).
Proof.
  split.
  - intros st Hk g.
    destruct (lotless_step configuration st Hk) as (Hemit & Hcont & Hstop).
    repeat (split; [first [exact Hemit | reflexivity | intro; reflexivity]|]).
    split; assumption.
  - intros input_data events gls e. apply lotless_event_one_record.
Qed.

(** ** The taxable event extractor *)

Definition chronological (a b : AbstractTransaction) : Prop :=
  (instant (timestamp a) <= instant (timestamp b))%Z.

Lemma add_entry_permutation t s : Permutation (add_entry t s) (t :: s).
Proof.
  induction s as [|x s IH]; cbn [add_entry].
  - apply Permutation_refl.
  - destruct (instant (timestamp t) <? instant (timestamp x))%Z.
    + apply Permutation_refl.
    + apply perm_trans with (x :: t :: s).
      * apply perm_skip. exact IH.
      * apply perm_swap.
Qed.

Lemma add_entry_HdRel x t s :
  chronological x t -> HdRel chronological x s -> HdRel chronological x (add_entry t s).
Proof.
  intros Hxt Hhd. destruct s as [|y s]; cbn [add_entry].
  - constructor. exact Hxt.
  - destruct (instant (timestamp t) <? instant (timestamp y))%Z.
    + constructor. exact Hxt.
    + constructor. inversion Hhd; subst. assumption.
Qed.

Lemma add_entry_sorted t s :
  Sorted chronological s -> Sorted chronological (add_entry t s).
Proof.
  induction 1 as [|x s Hs IH Hhd]; cbn [add_entry].
  - repeat constructor.
  - destruct (instant (timestamp t) <? instant (timestamp x))%Z eqn:E.
    + constructor; [constructor; assumption|].
      constructor. unfold chronological. apply Z.ltb_lt in E. lia.
    + constructor; [exact IH|].
      apply add_entry_HdRel; [|exact Hhd].
      unfold chronological. apply Z.ltb_ge in E. exact E.
Qed.

Lemma extractor_visit_all entries st :
  let st' := fold_left extractor_visit entries st in
  es_input_data st' = es_input_data st
  /\ Permutation (es_taxable_event_set st')
       (filter is_taxable entries ++ es_taxable_event_set st)
  /\ (Sorted chronological (es_taxable_event_set st) ->
      Sorted chronological (es_taxable_event_set st')).
Proof.
  revert st. induction entries as [|t entries IH]; intro st; cbn [fold_left filter].
  - repeat split; [apply Permutation_refl | trivial].
  - destruct (IH (extractor_visit st t)) as (Hin & Hperm & Hsort).
    unfold extractor_visit in *.
    destruct (is_taxable t); cbn [es_input_data es_taxable_event_set] in *.
    + repeat split.
      * exact Hin.
      * eapply perm_trans; [exact Hperm|].
        eapply perm_trans;
          [apply Permutation_app_head; apply add_entry_permutation|].
        apply Permutation_sym. rewrite <- app_comm_cons.
        apply Permutation_middle.
      * intro Hs. apply Hsort. apply add_entry_sorted. exact Hs.
    + repeat split; assumption.
Qed.

(** C5. [_create_taxable_event_set] returns exactly the transactions of the
    three input collections whose [is_taxable] holds, each as often as it
    occurs there, as one sequence in chronological order, and the loops leave
    the input data as they found it. *)
Theorem taxable_event_set_filter_merge configuration input_data :
  let entries := in_entries input_data ++ out_transaction_set input_data
                 ++ intra_transaction_set input_data in
  let taxable_event_set := _create_taxable_event_set configuration input_data in
  Permutation taxable_event_set (filter is_taxable entries)
  /\ (forall t, In t taxable_event_set <-> In t entries /\ is_taxable t = true)
  /\ Sorted chronological taxable_event_set
  /\ es_input_data (extractor_run configuration input_data) = input_data.
Proof.
  intros entries taxable_event_set.
  subst entries taxable_event_set. unfold _create_taxable_event_set, extractor_run.
  cbn [fold_left].
  set (st0 := {| es_input_data := input_data; es_taxable_event_set := [] |}).
  destruct (extractor_visit_all (in_entries (es_input_data st0)) st0)
    as (Hi1 & Hp1 & Hs1).
  set (st1 := fold_left extractor_visit (in_entries (es_input_data st0)) st0) in *.
  destruct (extractor_visit_all (out_transaction_set (es_input_data st1)) st1)
    as (Hi2 & Hp2 & Hs2).
  set (st2 := fold_left extractor_visit (out_transaction_set (es_input_data st1)) st1) in *.
  destruct (extractor_visit_all (intra_transaction_set (es_input_data st2)) st2)
    as (Hi3 & Hp3 & Hs3).
  set (st3 := fold_left extractor_visit (intra_transaction_set (es_input_data st2)) st2) in *.
  assert (E2 : es_input_data st2 = input_data) by (rewrite Hi2, Hi1; reflexivity).
  assert (E1 : es_input_data st1 = input_data) by (rewrite Hi1; reflexivity).
  rewrite E2 in Hp3. rewrite E1 in Hp2. cbn [st0 es_input_data es_taxable_event_set] in Hp1.
  assert (Hperm : Permutation (es_taxable_event_set st3)
            (filter is_taxable
               (in_entries input_data ++ out_transaction_set input_data
                ++ intra_transaction_set input_data))).
  { rewrite !filter_app.
    eapply perm_trans; [exact Hp3|].
    eapply perm_trans; [apply Permutation_app_head; exact Hp2|].
    eapply perm_trans;
      [apply Permutation_app_head; apply Permutation_app_head; exact Hp1|].
    rewrite app_nil_r.
    eapply perm_trans; [apply Permutation_app_comm|].
    rewrite <- app_assoc. apply Permutation_app_swap_app. }
  split; [exact Hperm|]. split; [|split].
  - intro t. rewrite <- filter_In. split; apply Permutation_in;
      [exact Hperm | apply Permutation_sym; exact Hperm].
  - apply Hs3, Hs2, Hs1. constructor.
  - rewrite Hi3. exact E2.
Qed.

(** ** The dictionary of summaries *)

Lemma dict_get_set d k v k' :
  dict_get (dict_set d k v) k' =
  if _YearlyGainLossId_eq_dec k' k then Some v else dict_get d k'.
Proof.
  induction d as [|[k0 v0] d IH]; cbn [dict_set dict_get].
  - destruct (_YearlyGainLossId_eq_dec k' k); reflexivity.
  - destruct (_YearlyGainLossId_eq_dec k k0) as [->|Hne]; cbn [dict_get].
    + destruct (_YearlyGainLossId_eq_dec k' k0); reflexivity.
    + destruct (_YearlyGainLossId_eq_dec k' k0) as [->|Hne'].
      * destruct (_YearlyGainLossId_eq_dec k0 k); [congruence | reflexivity].
      * exact IH.
Qed.

Lemma dict_set_keys d k v :
  map fst (dict_set d k v) =
  match dict_get d k with
  | Some _ => map fst d
  | None => map fst d ++ [k]
  end.
Proof.
  induction d as [|[k0 v0] d IH]; cbn [dict_set dict_get map fst app].
  - reflexivity.
  - destruct (_YearlyGainLossId_eq_dec k k0) as [->|Hne]; cbn [map fst].
    + reflexivity.
    + rewrite IH. destruct (dict_get d k); reflexivity.
Qed.

Lemma dict_set_set d k a b : dict_set (dict_set d k a) k b = dict_set d k b.
Proof.
  induction d as [|[k0 v0] d IH]; cbn [dict_set].
  - destruct (_YearlyGainLossId_eq_dec k k); [reflexivity | congruence].
  - destruct (_YearlyGainLossId_eq_dec k k0) as [->|Hne]; cbn [dict_set].
    + destruct (_YearlyGainLossId_eq_dec k0 k0); [reflexivity | congruence].
    + destruct (_YearlyGainLossId_eq_dec k k0); [congruence|]. rewrite IH. reflexivity.
Qed.

Lemma dict_get_None d k : dict_get d k = None <-> ~ In k (map fst d).
Proof.
  induction d as [|[k0 v0] d IH]; cbn [dict_get map fst In].
  - split; [intros _ [] | reflexivity].
  - destruct (_YearlyGainLossId_eq_dec k k0) as [->|Hne].
    + split; [discriminate | intro H; exfalso; apply H; now left].
    + rewrite IH. split.
      * intros H [E|Hin]; [congruence | contradiction].
      * intros H Hin. apply H. now right.
Qed.

Lemma dict_get_In d k v : NoDup (map fst d) -> In (k, v) d -> dict_get d k = Some v.
Proof.
  induction d as [|[k0 v0] d IH]; cbn [dict_get map fst In]; intros Hnd Hin.
  - contradiction.
  - inversion Hnd as [|? ? Hnot Hnd']; subst.
    destruct Hin as [E|Hin].
    + inversion E; subst.
      destruct (_YearlyGainLossId_eq_dec k k); [reflexivity | congruence].
    + destruct (_YearlyGainLossId_eq_dec k k0) as [->|Hne].
      * exfalso. apply Hnot. change k0 with (fst (k0, v)). apply in_map. exact Hin.
      * apply IH; assumption.
Qed.

Section Aggregator.
Variable long_term_holding_period : datetime -> datetime -> bool.

Local Abbreviation key_of := (gain_loss_key long_term_holding_period).

(** Records whose key is [k]. *)
Definition has_key (k : _YearlyGainLossId) (g : GainLoss) : bool :=
  if _YearlyGainLossId_eq_dec (key_of g) k then true else false.

(** The amounts [v] are the sums, over the records of key [k], of the four
    quantities a record contributes. *)
Definition sums_of_key (k : _YearlyGainLossId) (gls : GainLossSet)
  (v : _YearlyGainLossAmounts) : Prop :=
  sum_crypto_amount v == total_where (has_key k) crypto_amount gls
  /\ sum_usd_amount v
     == total_where (has_key k) taxable_event_usd_amount_with_fee_fraction gls
  /\ sum_usd_cost_basis v == total_where (has_key k) usd_cost_basis gls
  /\ sum_usd_gain_loss v == total_where (has_key k) usd_gain gls.

Record summaries_inv (d : SummaryDict) (gls : GainLossSet) : Prop := {
  sum_keys_distinct : NoDup (map fst d);
  sum_keys : forall k, In k (map fst d) <-> In k (map key_of gls);
  sum_values : forall k v, dict_get d k = Some v -> sums_of_key k gls v
}.

Lemma accumulate_eq d g :
  accumulate long_term_holding_period d g =
  let value := match dict_get d (key_of g) with
               | Some v => v
               | None => {| sum_crypto_amount := ZERO; sum_usd_amount := ZERO;
                            sum_usd_cost_basis := ZERO; sum_usd_gain_loss := ZERO |}
               end in
  dict_set d (key_of g)
    {| sum_crypto_amount := sum_crypto_amount value + crypto_amount g;
       sum_usd_amount :=
         sum_usd_amount value + taxable_event_usd_amount_with_fee_fraction g;
       sum_usd_cost_basis := sum_usd_cost_basis value + usd_cost_basis g;
       sum_usd_gain_loss := sum_usd_gain_loss value + usd_gain g |}.
Proof.
  unfold accumulate, dict_setdefault.
  destruct (dict_get d (key_of g)); cbn zeta; [reflexivity|].
  apply dict_set_set.
Qed.

Lemma summaries_inv_step d gls g :
  summaries_inv d gls ->
  summaries_inv (accumulate long_term_holding_period d g) (gls ++ [g]).
Proof.
  intros [Hnd Hkeys Hvals]. rewrite accumulate_eq. cbn zeta. split.
  - rewrite dict_set_keys.
    destruct (dict_get d (key_of g)) eqn:E; [assumption|].
    apply dict_get_None in E.
    apply NoDup_app; [assumption | repeat constructor; intros [] |].
    intros k Hin [<-|[]]. contradiction.
  - intro k. rewrite dict_set_keys, map_app, in_app_iff. cbn [map In].
    destruct (dict_get d (key_of g)) eqn:E.
    + rewrite Hkeys. split; [tauto|].
      intros [H|[<-|[]]]; [assumption|].
      apply Hkeys. destruct (in_dec _YearlyGainLossId_eq_dec (key_of g) (map fst d))
        as [Hin|Hnin]; [assumption|].
      apply dict_get_None in Hnin. congruence.
    + rewrite in_app_iff, Hkeys. cbn [In]. tauto.
  - intros k v. rewrite dict_get_set.
    unfold sums_of_key. rewrite !total_where_snoc. unfold has_key at 2 4 6 8.
    destruct (_YearlyGainLossId_eq_dec k (key_of g)) as [->|Hne].
    + intro E. inversion E; subst v; clear E.
      cbn [sum_crypto_amount sum_usd_amount sum_usd_cost_basis sum_usd_gain_loss].
      destruct (_YearlyGainLossId_eq_dec (key_of g) (key_of g)); [|congruence].
      destruct (dict_get d (key_of g)) as [v0|] eqn:E0.
      * destruct (Hvals _ _ E0) as (H1 & H2 & H3 & H4).
        rewrite H1, H2, H3, H4. repeat split; reflexivity.
      * assert (Hnone : forall w, total_where (has_key (key_of g)) w gls == 0).
        { intro w. apply total_where_none. intros x Hx. unfold has_key.
          destruct (_YearlyGainLossId_eq_dec (key_of x) (key_of g)) as [Ex|]; [|reflexivity].
          exfalso. apply dict_get_None in E0. apply E0, Hkeys.
          rewrite <- Ex. apply in_map. exact Hx. }
        rewrite !Hnone. cbn. repeat split; reflexivity.
    + intro E. destruct (Hvals _ _ E) as (H1 & H2 & H3 & H4).
      destruct (_YearlyGainLossId_eq_dec (key_of g) k); [congruence|].
      rewrite H1, H2, H3, H4. repeat split; lra.
Qed.

Lemma summaries_inv_fold gls d done :
  summaries_inv d done ->
  summaries_inv (fold_left (accumulate long_term_holding_period) gls d) (done ++ gls).
Proof.
  revert d done. induction gls as [|g gls IH]; intros d done Hinv; cbn [fold_left].
  - rewrite app_nil_r. exact Hinv.
  - replace (done ++ g :: gls) with ((done ++ [g]) ++ gls)
      by (rewrite <- app_assoc; reflexivity).
    apply IH. apply summaries_inv_step. exact Hinv.
Qed.

Lemma summaries_of_inv gls :
  summaries_inv (summaries_of long_term_holding_period gls) gls.
Proof.
  unfold summaries_of. apply (summaries_inv_fold gls [] []).
  split.
  - constructor.
  - intro k. reflexivity.
  - intros k v. discriminate.
Qed.
End Aggregator.

(** ** From the dictionary to the sorted list *)

Lemma ygl_id_yearly_gain_loss_of k v : ygl_id (yearly_gain_loss_of (k, v)) = k.
Proof. destruct k. reflexivity. Qed.

Lemma YearlyGainLoss_eqb_id a b : YearlyGainLoss_eqb a b = true -> ygl_id a = ygl_id b.
Proof.
  unfold YearlyGainLoss_eqb.
  destruct (_YearlyGainLossId_eq_dec (ygl_id a) (ygl_id b)); [trivial|].
  cbn. discriminate.
Qed.

Lemma set_add_fresh s x :
  ~ In (ygl_id x) (map ygl_id s) -> set_add s x = s ++ [x].
Proof.
  intro Hnot. unfold set_add.
  destruct (existsb (YearlyGainLoss_eqb x) s) eqn:E; [|reflexivity].
  apply existsb_exists in E. destruct E as (y & Hy & Heq).
  exfalso. apply Hnot. rewrite (YearlyGainLoss_eqb_id _ _ Heq).
  apply in_map. exact Hy.
Qed.

Lemma collect_set d st :
  NoDup (map ygl_id (yearly_gain_loss_set st) ++ map fst d) ->
  yearly_gain_loss_set (fold_left collect d st) =
  yearly_gain_loss_set st ++ map yearly_gain_loss_of d.
Proof.
  revert st. induction d as [|[k v] d IH]; intros st Hnd; cbn [fold_left map].
  - rewrite app_nil_r. reflexivity.
  - cbn [map fst] in Hnd.
    assert (Hfresh : ~ In (ygl_id (yearly_gain_loss_of (k, v)))
                       (map ygl_id (yearly_gain_loss_set st))).
    { rewrite ygl_id_yearly_gain_loss_of. apply NoDup_remove_2 in Hnd.
      intro Hin. apply Hnd. apply in_or_app. now left. }
    assert (Hset : yearly_gain_loss_set (collect st (k, v)) =
                   yearly_gain_loss_set st ++ [yearly_gain_loss_of (k, v)]).
    { unfold collect. cbn [yearly_gain_loss_set]. apply set_add_fresh. exact Hfresh. }
    rewrite IH; rewrite Hset.
    + rewrite <- app_assoc. reflexivity.
    + rewrite map_app. cbn [map]. rewrite ygl_id_yearly_gain_loss_of.
      rewrite <- app_assoc. exact Hnd.
Qed.

Lemma collect_all_set d :
  NoDup (map fst d) ->
  yearly_gain_loss_set (collect_all d) = map yearly_gain_loss_of d.
Proof.
  intro Hnd. unfold collect_all. rewrite collect_set; [reflexivity|exact Hnd].
Qed.

(** Largest key first. *)
Definition descending {A} (key : A -> string) (a b : A) : Prop :=
  String.leb (key b) (key a) = true.

Lemma insert_reverse_permutation {A} (key : A -> string) x l :
  Permutation (insert_reverse key x l) (x :: l).
Proof.
  induction l as [|y l IH]; cbn [insert_reverse].
  - apply Permutation_refl.
  - destruct (String.leb (key y) (key x)).
    + apply Permutation_refl.
    + apply perm_trans with (y :: x :: l); [apply perm_skip; exact IH | apply perm_swap].
Qed.

Lemma sorted_reverse_permutation {A} (key : A -> string) l :
  Permutation (sorted_reverse key l) l.
Proof.
  induction l as [|x l IH]; cbn [sorted_reverse fold_right].
  - apply Permutation_refl.
  - eapply perm_trans; [apply insert_reverse_permutation|].
    apply perm_skip. exact IH.
Qed.

Lemma insert_reverse_HdRel {A} (key : A -> string) y x l :
  descending key y x -> HdRel (descending key) y l ->
  HdRel (descending key) y (insert_reverse key x l).
Proof.
  intros Hyx Hhd. destruct l as [|z l]; cbn [insert_reverse].
  - constructor. exact Hyx.
  - destruct (String.leb (key z) (key x)).
    + constructor. exact Hyx.
    + constructor. inversion Hhd; subst. assumption.
Qed.

Lemma insert_reverse_sorted {A} (key : A -> string) x l :
  Sorted (descending key) l -> Sorted (descending key) (insert_reverse key x l).
Proof.
  induction 1 as [|y l Hs IH Hhd]; cbn [insert_reverse].
  - repeat constructor.
  - destruct (String.leb (key y) (key x)) eqn:E.
    + constructor; [constructor; assumption|]. constructor. exact E.
    + constructor; [exact IH|].
      apply insert_reverse_HdRel; [|exact Hhd].
      unfold descending. destruct (String.leb_total (key x) (key y)); congruence.
Qed.

Lemma sorted_reverse_sorted {A} (key : A -> string) l :
  Sorted (descending key) (sorted_reverse key l).
Proof.
  induction l as [|x l IH]; cbn [sorted_reverse fold_right].
  - constructor.
  - apply insert_reverse_sorted. exact IH.
Qed.

Lemma _create_yearly_gain_loss_list_Ok long_term_holding_period input_data gls ys :
  _create_yearly_gain_loss_list long_term_holding_period input_data gls = Ok ys ->
  ys = sorted_reverse _yearly_gain_loss_sort_criteria
         (map yearly_gain_loss_of (summaries_of long_term_holding_period gls)).
Proof.
  unfold _create_yearly_gain_loss_list. cbn zeta.
  destruct (_verify_computation _ _ _ _ _); cbn [bind]; [|discriminate].
  intro E. inversion E; subst.
  rewrite collect_all_set; [reflexivity|].
  apply (sum_keys_distinct _ _ _ (summaries_of_inv long_term_holding_period gls)).
Qed.

(** C6. The aggregation holds one summary per distinct key (year, asset,
    transaction type, long-term flag) of the records, and the four amounts of
    the summary of a key are the sums, from zero, of the crypto amount, USD
    proceeds, USD cost basis and USD gain of the records with that key, each
    record counted once and under its own key only.  The list the function
    returns holds these summaries, each once. *)
Theorem yearly_summaries_per_key long_term_holding_period gls :
  let summaries := summaries_of long_term_holding_period gls in
  NoDup (map fst summaries)
  /\ (forall k, In k (map fst summaries)
                <-> In k (map (gain_loss_key long_term_holding_period) gls))
  /\ (forall k v, In (k, v) summaries ->
        sums_of_key long_term_holding_period k gls v)
  /\ (forall input_data ys,
        _create_yearly_gain_loss_list long_term_holding_period input_data gls = Ok ys ->
        Permutation ys (map yearly_gain_loss_of summaries)
        /\ NoDup (map ygl_id ys)).
Proof.
  intro summaries.
  destruct (summaries_of_inv long_term_holding_period gls) as [Hnd Hkeys Hvals].
  fold summaries in Hnd, Hkeys, Hvals.
  split; [exact Hnd|]. split; [exact Hkeys|]. split.
  - intros k v Hin. apply Hvals. apply dict_get_In; assumption.
  - intros input_data ys Hok.
    apply _create_yearly_gain_loss_list_Ok in Hok. fold summaries in Hok.
    assert (Hperm : Permutation ys (map yearly_gain_loss_of summaries)).
    { rewrite Hok. apply sorted_reverse_permutation. }
    split; [exact Hperm|].
    apply (Permutation_NoDup (l := map ygl_id (map yearly_gain_loss_of summaries))).
    + apply Permutation_sym. apply Permutation_map. exact Hperm.
    + rewrite map_map.
      replace (map (fun x => ygl_id (yearly_gain_loss_of x)) summaries)
        with (map fst summaries); [exact Hnd|].
      apply map_ext. intros [k v]. symmetry. apply ygl_id_yearly_gain_loss_of.
Qed.

(** The order of strings is transitive. *)
Lemma string_leb_trans (a b c : string) :
  String.leb a b = true -> String.leb b c = true -> String.leb a c = true.
Proof.
  unfold String.leb.
  revert b c. induction a as [|x a IH]; intros [|y b] [|z c]; cbn [String.compare];
    try reflexivity; try discriminate.
  unfold Ascii.compare.
  destruct (N.compare_spec (N_of_ascii x) (N_of_ascii y)) as [Exy|Hxy|Hxy];
    destruct (N.compare_spec (N_of_ascii y) (N_of_ascii z)) as [Eyz|Hyz|Hyz];
    try discriminate; intros Hab Hbc.
  - rewrite Exy, Eyz, N.compare_refl. exact (IH b c Hab Hbc).
  - rewrite Exy. apply N.compare_lt_iff in Hyz. rewrite Hyz. reflexivity.
  - rewrite <- Eyz. apply N.compare_lt_iff in Hxy. rewrite Hxy. reflexivity.
  - assert (H : (N_of_ascii x < N_of_ascii z)%N) by lia.
    apply N.compare_lt_iff in H. rewrite H. reflexivity.
Qed.

Lemma descending_transitive {A} (key : A -> string) a b c :
  descending key a b -> descending key b c -> descending key a c.
Proof. unfold descending. intros Hab Hbc. eapply string_leb_trans; eassumption. Qed.

(** In a list sorted with largest key first, the entry at an earlier
    position has a key no smaller than the entry at a later one. *)
Lemma sorted_descending_positions {A} (key : A -> string) (l : list A) :
  Sorted (descending key) l ->
  forall i j earlier later,
    (i < j)%nat ->
    nth_error l i = Some earlier -> nth_error l j = Some later ->
    String.leb (key later) (key earlier) = true.
Proof.
  intro Hs.
  apply Sorted_StronglySorted in Hs;
    [|intros a b c; apply descending_transitive].
  induction Hs as [|x l _ IH Hall]; intros i j earlier later Hij Hi Hj.
  - destruct i; discriminate.
  - destruct j as [|j]; [lia|]. cbn [nth_error] in Hj.
    destruct i as [|i]; cbn [nth_error] in Hi.
    + inversion Hi; subst. rewrite Forall_forall in Hall.
      apply Hall. eapply nth_error_In. exact Hj.
    + apply (IH i j); [lia | assumption | assumption].
Qed.

(** C7. The list [_create_yearly_gain_loss_list] returns holds the summaries
    of the aggregation, each once, in descending order of the sort key, the
    text made of asset, year, LONG or SHORT and the transaction type's value
    in this order: of two adjacent summaries the earlier has a key greater
    than or equal to the later one's, and so has the earlier of any two
    summaries of the list. *)
Theorem yearly_gain_loss_list_sorted long_term_holding_period input_data gls ys :
  _create_yearly_gain_loss_list long_term_holding_period input_data gls = Ok ys ->
  Permutation ys (map yearly_gain_loss_of (summaries_of long_term_holding_period gls))
  /\ Sorted (descending _yearly_gain_loss_sort_criteria) ys
  /\ (forall i earlier later,
        nth_error ys i = Some earlier -> nth_error ys (S i) = Some later ->
        String.leb (_yearly_gain_loss_sort_criteria later)
          (_yearly_gain_loss_sort_criteria earlier) = true)
  /\ (forall i j earlier later,
        (i < j)%nat ->
        nth_error ys i = Some earlier -> nth_error ys j = Some later ->
        String.leb (_yearly_gain_loss_sort_criteria later)
          (_yearly_gain_loss_sort_criteria earlier) = true).
Proof.
  intro Hok. apply _create_yearly_gain_loss_list_Ok in Hok.
  assert (Hsorted : Sorted (descending _yearly_gain_loss_sort_criteria) ys)
    by (rewrite Hok; apply sorted_reverse_sorted).
  split; [rewrite Hok; apply sorted_reverse_permutation|].
  split; [exact Hsorted|]. split.
  - intros i earlier later Hi Hj.
    apply (sorted_descending_positions _ ys Hsorted i (S i)); [lia | assumption | assumption].
  - apply sorted_descending_positions. exact Hsorted.
Qed.

(** ** The consistency verifier *)

Lemma running_sum_Qsum {A} (f : A -> RP2Decimal) l init :
  running_sum f l init == init + Qsum (map f l).
Proof.
  unfold running_sum. revert init.
  induction l as [|x l IH]; intro init.
  - change (init == init + 0). lra.
  - change (fold_left (fun acc y => acc + f y) l (init + f x)
            == init + (f x + Qsum (map f l))).
    rewrite IH. lra.
Qed.

Lemma cost_basis_by_walk_proper lots a b :
  a == b -> cost_basis_by_walk lots a == cost_basis_by_walk lots b.
Proof.
  revert a b. induction lots as [|l lots IH]; intros a b Hab; cbn [cost_basis_by_walk].
  - reflexivity.
  - rewrite <- Hab at 1.
    destruct (Qle_bool (crypto_in l) a).
    + rewrite (IH (a - crypto_in l) (b - crypto_in l)); [reflexivity|].
      rewrite Hab. reflexivity.
    + rewrite Hab. reflexivity.
Qed.

(** The loop of the source computes the walk of the design document. *)
Lemma cost_basis_loop_walk sold lots total cost :
  Forall (fun l : InTransaction => ~ crypto_in l == 0) lots ->
  exists total' cost',
    cost_basis_loop sold lots total cost = Ok (total', cost')
    /\ cost' == cost + cost_basis_by_walk lots (sold - total).
Proof.
  intro Hnz. revert total cost.
  induction Hnz as [|l lots Hl _ IH]; intros total cost;
    cbn [cost_basis_loop cost_basis_by_walk].
  - do 2 eexists. split; [reflexivity|]. lra.
  - destruct (Qltb sold (total + crypto_in l)) eqn:E.
    + apply Qltb_true in E.
      destruct (Qle_bool (crypto_in l) (sold - total)) eqn:E'.
      { apply Qle_bool_iff in E'. lra. }
      unfold rp2_div. apply Qeq_bool_false in Hl. rewrite Hl. cbn [bind].
      do 2 eexists. split; [reflexivity|]. reflexivity.
    + apply Qltb_false in E.
      destruct (Qle_bool (crypto_in l) (sold - total)) eqn:E'.
      2:{ assert (Hle : crypto_in l <= sold - total) by lra.
          apply Qle_bool_iff in Hle. congruence. }
      destruct (IH (total + crypto_in l) (cost + usd_in_with_fee l))
        as (total' & cost' & Hrun & Hcost).
      exists total', cost'. split; [exact Hrun|].
      rewrite Hcost.
      rewrite (cost_basis_by_walk_proper lots (sold - (total + crypto_in l))
                 (sold - total - crypto_in l)) by lra.
      lra.
Qed.

(** When every lot has a quantity other than zero the verifier derives its
    four totals without raising. *)
Lemma verify_totals_Ok input_data :
  Forall (fun l : InTransaction => ~ crypto_in l == 0) (in_transaction_set input_data) ->
  exists v,
    verify_totals input_data = Ok v
    /\ crypto_taxable_amount_total_verify v
       == Qsum (map crypto_taxable_amount (in_entries input_data))
          + Qsum (map crypto_taxable_amount (out_transaction_set input_data))
          + Qsum (map crypto_taxable_amount (intra_transaction_set input_data))
    /\ usd_taxable_amount_total_verify v
       == Qsum (map usd_taxable_amount (in_entries input_data))
          + Qsum (map usd_taxable_amount (out_transaction_set input_data))
          + Qsum (map usd_taxable_amount (intra_transaction_set input_data))
    /\ cost_basis_total_verify v
       == cost_basis_by_walk (in_transaction_set input_data)
            (Qsum (map crypto_taxable_amount (out_transaction_set input_data))
             + Qsum (map crypto_taxable_amount (intra_transaction_set input_data)))
    /\ gain_loss_total_verify v
       == usd_taxable_amount_total_verify v - cost_basis_total_verify v.
Proof.
  intro Hnz. unfold verify_totals.
  destruct (cost_basis_loop_walk (crypto_sold_amount_total input_data)
              (in_transaction_set input_data) ZERO ZERO Hnz)
    as (total' & cost' & Hrun & Hcost).
  rewrite Hrun. cbn [bind]. eexists. split; [reflexivity|].
  cbn [crypto_taxable_amount_total_verify usd_taxable_amount_total_verify
       cost_basis_total_verify gain_loss_total_verify].
  assert (Hsold : crypto_sold_amount_total input_data
                  == Qsum (map crypto_taxable_amount (out_transaction_set input_data))
                     + Qsum (map crypto_taxable_amount (intra_transaction_set input_data))).
  { unfold crypto_sold_amount_total, ZERO. rewrite !running_sum_Qsum. lra. }
  repeat split.
  - rewrite Hsold. unfold ZERO. rewrite !running_sum_Qsum. lra.
  - unfold ZERO. rewrite !running_sum_Qsum. lra.
  - rewrite Hcost. unfold ZERO.
    rewrite (cost_basis_by_walk_proper _ (crypto_sold_amount_total input_data - 0)
               (Qsum (map crypto_taxable_amount (out_transaction_set input_data))
                + Qsum (map crypto_taxable_amount (intra_transaction_set input_data))))
      by (rewrite Hsold; lra).
    lra.
Qed.

(** C8. With lots of non-zero quantity (so that the verifier's own division
    is defined), [_verify_computation] raises exactly when one of the four
    totals it is given differs from the total it derives from the raw
    collections: crypto and USD taxable amounts summed over the three
    collections, the cost basis of walking the lots in order up to the
    disposed crypto amount with a proportional fraction of the last lot, and
    the gain as USD amount minus cost basis.  What it raises is Python's
    plain [Exception], not one of the RP2 error types. *)
Theorem verify_computation_raises_iff_mismatch input_data
  (crypto_taxable_amount_total usd_taxable_amount_total
   cost_basis_total gain_loss_total : RP2Decimal) :
  Forall (fun l : InTransaction => ~ crypto_in l == 0) (in_transaction_set input_data) ->
  exists v,
    verify_totals input_data = Ok v
    /\ cost_basis_total_verify v
       == cost_basis_by_walk (in_transaction_set input_data)
            (Qsum (map crypto_taxable_amount (out_transaction_set input_data))
             + Qsum (map crypto_taxable_amount (intra_transaction_set input_data)))
    /\ crypto_taxable_amount_total_verify v
       == Qsum (map crypto_taxable_amount (in_entries input_data))
          + Qsum (map crypto_taxable_amount (out_transaction_set input_data))
          + Qsum (map crypto_taxable_amount (intra_transaction_set input_data))
    /\ usd_taxable_amount_total_verify v
       == Qsum (map usd_taxable_amount (in_entries input_data))
          + Qsum (map usd_taxable_amount (out_transaction_set input_data))
          + Qsum (map usd_taxable_amount (intra_transaction_set input_data))
    /\ gain_loss_total_verify v
       == usd_taxable_amount_total_verify v - cost_basis_total_verify v
    /\ ((exists e,
           _verify_computation input_data crypto_taxable_amount_total
             usd_taxable_amount_total cost_basis_total gain_loss_total = Raise e)
        <-> ~ (crypto_taxable_amount_total == crypto_taxable_amount_total_verify v
               /\ usd_taxable_amount_total == usd_taxable_amount_total_verify v
               /\ cost_basis_total == cost_basis_total_verify v
               /\ gain_loss_total == gain_loss_total_verify v))
    /\ (forall e,
          _verify_computation input_data crypto_taxable_amount_total
            usd_taxable_amount_total cost_basis_total gain_loss_total = Raise e ->
          e = PlainException /\ is_rp2_error e = false).
Proof.
  intro Hnz.
  destruct (verify_totals_Ok input_data Hnz) as (v & Hv & Hc & Hu & Hb & Hg).
  exists v. repeat (split; [assumption|]).
  unfold _verify_computation. rewrite Hv. cbn [bind].
  destruct (Qeq_bool crypto_taxable_amount_total (crypto_taxable_amount_total_verify v)) eqn:E1;
    cbn [negb].
  2:{ apply Qeq_bool_false in E1. split.
      - split; [intros _ [H _]; contradiction | intros _; eexists; reflexivity].
      - intros e E. inversion E; subst. split; reflexivity. }
  destruct (Qeq_bool usd_taxable_amount_total (usd_taxable_amount_total_verify v)) eqn:E2;
    cbn [negb].
  2:{ apply Qeq_bool_false in E2. split.
      - split; [intros _ (_ & H & _); contradiction | intros _; eexists; reflexivity].
      - intros e E. inversion E; subst. split; reflexivity. }
  destruct (Qeq_bool cost_basis_total (cost_basis_total_verify v)) eqn:E3; cbn [negb].
  2:{ apply Qeq_bool_false in E3. split.
      - split; [intros _ (_ & _ & H & _); contradiction | intros _; eexists; reflexivity].
      - intros e E. inversion E; subst. split; reflexivity. }
  destruct (Qeq_bool gain_loss_total (gain_loss_total_verify v)) eqn:E4; cbn [negb].
  2:{ apply Qeq_bool_false in E4. split.
      - split; [intros _ (_ & _ & _ & H); contradiction | intros _; eexists; reflexivity].
      - intros e E. inversion E; subst. split; reflexivity. }
  apply Qeq_bool_iff in E1, E2, E3, E4. split.
  - split; [intros [e E]; discriminate | intro H; exfalso; apply H; auto].
  - intros e E. discriminate.
Qed.

(** ** The accounting method check *)

(** C9. [Configuration.__init__] given an accounting method other than FIFO
    raises [NotImplementedError], whatever the other arguments and the file
    system hold: the check comes before the file is looked at.  Given FIFO
    the check returns the method, and a configuration that was constructed
    has FIFO as its method, so no matching runs with another one. *)
Theorem non_fifo_not_implemented fs configuration_path method up_to_year :
  (method <> FIFO ->
   Configuration_init fs configuration_path method up_to_year = Raise NotImplementedError)
  /\ (method = FIFO ->
      AccountingMethod_type_check (PyStr "accounting_method") (PyAccountingMethod method)
      = Ok FIFO)
  /\ (forall c, Configuration_init fs configuration_path method up_to_year = Ok c ->
                accounting_method c = FIFO).
Proof.
  split; [|split].
  - intro Hne. destruct method; [congruence|]. reflexivity.
  - intros ->. reflexivity.
  - intros c. destruct method; [|discriminate].
    unfold Configuration_init.
    change (type_check_string (PyStr "configuration_path") (PyStr configuration_path))
      with (Ok (PyStr configuration_path)).
    change (AccountingMethod_type_check (PyStr "accounting_method")
              (PyAccountingMethod FIFO)) with (Ok FIFO).
    cbn [bind].
    destruct (if truthy_up_to_year up_to_year then _ else _) as [y|e];
      cbn [bind]; [|discriminate].
    destruct (negb (path_exists fs configuration_path)); [discriminate|].
    destruct (load_and_validate fs configuration_path); cbn [bind]; [|discriminate].
    intro E. inversion E. reflexivity.
Qed.

(** ** The price per unit of [compute_tax] *)

Section PricePerUnit.
Variable long_term_holding_period : datetime -> datetime -> bool.
Variable BalanceSet : Type.
Variable BalanceSet_new : Configuration -> InputData -> Result BalanceSet.
Variable configuration : Configuration.
Variable input_data : InputData.

Local Abbreviation run_compute_tax :=
  (compute_tax long_term_holding_period BalanceSet BalanceSet_new configuration input_data).

(** Matcher, balance set and yearly aggregation all return. *)
Definition earlier_stages_return : Prop :=
  exists gls balance_set ys,
    _create_gain_and_loss_set configuration input_data
      (_create_taxable_event_set configuration input_data) = Ok gls
    /\ BalanceSet_new configuration input_data = Ok balance_set
    /\ _create_yearly_gain_loss_list long_term_holding_period input_data gls = Ok ys.

Lemma crypto_in_running_sum_quantity :
  running_sum crypto_in (in_transaction_set input_data) ZERO
  == lots_quantity (in_transaction_set input_data).
Proof. rewrite running_sum_Qsum. unfold ZERO, lots_quantity. lra. Qed.

Lemma compute_tax_zero_quantity :
  lots_quantity (in_transaction_set input_data) == 0 ->
  (exists e, run_compute_tax = Raise e)
  /\ (earlier_stages_return -> run_compute_tax = Raise DecimalDivisionError).
Proof.
  intro Hz.
  assert (Hdiv : forall a, rp2_div a (running_sum crypto_in (in_transaction_set input_data) ZERO)
                           = Raise DecimalDivisionError).
  { intro a. unfold rp2_div.
    rewrite crypto_in_running_sum_quantity, Hz. reflexivity. }
  unfold compute_tax. cbn zeta. split.
  - destruct (_create_gain_and_loss_set _ _ _) as [gls|e]; cbn [bind];
      [|eexists; reflexivity].
    destruct (BalanceSet_new _ _) as [bs|e]; cbn [bind]; [|eexists; reflexivity].
    destruct (_create_yearly_gain_loss_list _ _ _) as [ys|e]; cbn [bind];
      [|eexists; reflexivity].
    rewrite Hdiv. cbn [bind]. eexists; reflexivity.
  - intros (gls & bs & ys & H1 & H2 & H3).
    rewrite H1. cbn [bind]. rewrite H2. cbn [bind]. rewrite H3. cbn [bind].
    rewrite Hdiv. reflexivity.
Qed.

Lemma compute_tax_nonzero_quantity :
  ~ lots_quantity (in_transaction_set input_data) == 0 ->
  earlier_stages_return ->
  exists cd,
    run_compute_tax = Ok cd
    /\ cd_price_per_unit cd
       == Qsum (map usd_in_with_fee (in_transaction_set input_data))
          / lots_quantity (in_transaction_set input_data).
Proof.
  intros Hnz (gls & bs & ys & H1 & H2 & H3).
  unfold compute_tax. cbn zeta.
  rewrite H1. cbn [bind]. rewrite H2. cbn [bind]. rewrite H3. cbn [bind].
  unfold rp2_div.
  destruct (Qeq_bool (running_sum crypto_in (in_transaction_set input_data) ZERO) 0) eqn:E.
  { apply Qeq_bool_iff in E. rewrite crypto_in_running_sum_quantity in E. contradiction. }
  cbn [bind]. eexists. split; [reflexivity|].
  cbn [cd_price_per_unit].
  rewrite crypto_in_running_sum_quantity, running_sum_Qsum. unfold ZERO.
  apply Qeq_bool_false in E.
  setoid_replace (0 + Qsum (map usd_in_with_fee (in_transaction_set input_data)))
    with (Qsum (map usd_in_with_fee (in_transaction_set input_data))) by lra.
  reflexivity.
Qed.

Lemma compute_tax_no_transactions balance_set :
  in_transaction_set input_data = [] ->
  out_transaction_set input_data = [] ->
  intra_transaction_set input_data = [] ->
  BalanceSet_new configuration input_data = Ok balance_set ->
  run_compute_tax = Raise DecimalDivisionError.
Proof.
  intros Hin Hout Hintra Hbs.
  apply compute_tax_zero_quantity.
  - rewrite Hin. reflexivity.
  - assert (Hset : _create_taxable_event_set configuration input_data = []).
    { unfold _create_taxable_event_set, extractor_run, in_entries.
      cbn [fold_left es_input_data]. rewrite Hin. cbn [map fold_left es_input_data].
      rewrite Hout. cbn [fold_left es_input_data]. rewrite Hintra. reflexivity. }
    exists [], balance_set, []. rewrite Hset. split; [reflexivity|]. split; [exact Hbs|].
    unfold _create_yearly_gain_loss_list, _verify_computation, verify_totals,
      crypto_sold_amount_total, in_entries.
    rewrite Hin, Hout, Hintra. reflexivity.
Qed.

End PricePerUnit.

(** C10 (as amended). On input whose in-transaction set is empty, or whose
    summed [crypto_in] is zero, [compute_tax] returns nothing: it raises.
    When the matcher, the balance set and the yearly aggregation have all
    returned, what it raises is the division error of the price per unit;
    that is so in particular on input without any transaction.  When the
    summed [crypto_in] is not zero and the earlier stages return, the
    division goes through and the price per unit is the summed USD cost over
    the summed quantity. *)
Theorem compute_tax_price_per_unit long_term_holding_period
  (BalanceSet : Type) (BalanceSet_new : Configuration -> InputData -> Result BalanceSet)
  configuration input_data :
  (in_transaction_set input_data = []
   \/ lots_quantity (in_transaction_set input_data) == 0 ->
   (exists e, compute_tax long_term_holding_period BalanceSet BalanceSet_new
                configuration input_data = Raise e)
   /\ (earlier_stages_return long_term_holding_period BalanceSet BalanceSet_new
         configuration input_data ->
       compute_tax long_term_holding_period BalanceSet BalanceSet_new
         configuration input_data = Raise DecimalDivisionError))
  /\ (~ lots_quantity (in_transaction_set input_data) == 0 ->
      earlier_stages_return long_term_holding_period BalanceSet BalanceSet_new
        configuration input_data ->
      exists cd,
        compute_tax long_term_holding_period BalanceSet BalanceSet_new
          configuration input_data = Ok cd
        /\ cd_price_per_unit cd
           == Qsum (map usd_in_with_fee (in_transaction_set input_data))
              / lots_quantity (in_transaction_set input_data))
  /\ (forall balance_set,
        in_transaction_set input_data = [] ->
        out_transaction_set input_data = [] ->
        intra_transaction_set input_data = [] ->
        BalanceSet_new configuration input_data = Ok balance_set ->
        compute_tax long_term_holding_period BalanceSet BalanceSet_new
          configuration input_data = Raise DecimalDivisionError).
Proof.
  split; [|split].
  - intro H. apply compute_tax_zero_quantity.
    destruct H as [-> | H]; [reflexivity | exact H].
  - apply compute_tax_nonzero_quantity.
  - intro balance_set. apply compute_tax_no_transactions.
Qed.

(** * The theorems on the scenarios *)

Lemma ex_short_of_lots_insufficient :
  insufficient_lots ex_configuration ex_short_of_lots [ex_sell 2 7 70].
Proof.
  right. right. split.
  - repeat constructor. discriminate.
  - reflexivity.
Defined.

Lemma insufficient_lots_raise_RP2ValueError_witness :
  insufficient_lots ex_configuration ex_short_of_lots [ex_sell 2 7 70]
  /\ _create_gain_and_loss_set ex_configuration ex_short_of_lots [ex_sell 2 7 70]
     = Raise RP2ValueError.
Proof.
  split.
  - exact ex_short_of_lots_insufficient.
  - apply insufficient_lots_raise_RP2ValueError. exact ex_short_of_lots_insufficient.
Defined.

Lemma gain_loss_set_allocation_witness :
  NoDup [ex_sell 3 8 100]
  /\ NoDup (in_transaction_set ex_two_lots)
  /\ Forall (fun l : InTransaction => 0 <= crypto_in l) (in_transaction_set ex_two_lots)
  /\ (_create_gain_and_loss_set ex_configuration ex_two_lots [ex_sell 3 8 100]
      = Raise RP2ValueError
      \/ exists gls,
          _create_gain_and_loss_set ex_configuration ex_two_lots [ex_sell 3 8 100] = Ok gls
          /\ (forall e, In e [ex_sell 3 8 100] ->
                allocated e gls == crypto_taxable_amount e)
          /\ (forall l, In l (in_transaction_set ex_two_lots) ->
                drawn l gls <= crypto_in l)).
Proof.
  assert (H1 : NoDup [ex_sell 3 8 100]).
  { repeat constructor. intros []. }
  assert (H2 : NoDup (in_transaction_set ex_two_lots)).
  { repeat constructor; cbn; intuition discriminate. }
  assert (H3 : Forall (fun l : InTransaction => 0 <= crypto_in l)
                 (in_transaction_set ex_two_lots)).
  { repeat constructor; discriminate. }
  repeat (split; [assumption|]).
  apply gain_loss_set_allocation; assumption.
Defined.

Lemma ex_sell_state_positive : positive_state ex_sell_state.
Proof. repeat split; repeat constructor. Defined.

Lemma lot_matching_step_witness :
  lotless (cur_taxable_event ex_sell_state) = false
  /\ positive_state ex_sell_state
  /\ matched_step ex_sell_state (loop_body ex_configuration ex_sell_state)
  /\ (forall g, emits_one ex_sell_state (loop_body ex_configuration ex_sell_state) g ->
                0 < crypto_amount g)
  /\ (forall st', loop_body ex_configuration ex_sell_state = Continue st' ->
                  positive_state st').
Proof.
  split; [reflexivity|]. split; [exact ex_sell_state_positive|].
  destruct (lot_matching_step ex_configuration ex_sell_state eq_refl)
    as (Hstep & _ & Hpos).
  split; [exact Hstep|]. exact (Hpos ex_sell_state_positive).
Defined.

Lemma ex_earned_matched :
  _create_gain_and_loss_set ex_configuration ex_earned
    (_create_taxable_event_set ex_configuration ex_earned)
  = Ok ex_earned_gain_loss_set.
Proof. vm_compute. reflexivity. Defined.

Lemma lotless_event_record_witness :
  lotless (cur_taxable_event ex_earn_state) = true
  /\ emits_one ex_earn_state (loop_body ex_configuration ex_earn_state)
       (lotless_record 3 (ex_earn 2 3 30))
  /\ usd_cost_basis (lotless_record 3 (ex_earn 2 3 30)) = ZERO
  /\ filter (refers_to (ex_earn 2 3 30)) ex_earned_gain_loss_set
     = [lotless_record 3 (ex_earn 2 3 30)].
Proof.
  split; [reflexivity|].
  destruct (lotless_event_record ex_configuration) as [Hstep Hset].
  destruct (Hstep ex_earn_state eq_refl) as (Hemit & _ & Hcost & _).
  split; [exact Hemit|]. split; [exact Hcost|].
  apply (Hset ex_earned (_create_taxable_event_set ex_configuration ex_earned)).
  - repeat constructor; cbn; intuition discriminate.
  - exact ex_earned_matched.
  - left. reflexivity.
  - reflexivity.
Defined.

Lemma ex_two_lots_matched :
  _create_gain_and_loss_set ex_configuration ex_two_lots
    (_create_taxable_event_set ex_configuration ex_two_lots)
  = Ok ex_two_lots_gain_loss_set.
Proof. vm_compute. reflexivity. Defined.

Definition ex_two_lots_yearly : list YearlyGainLoss :=
  Eval vm_compute in
    match _create_yearly_gain_loss_list ex_long_term ex_two_lots ex_two_lots_gain_loss_set with
    | Ok ys => ys
    | Raise _ => []
    end.

Lemma ex_two_lots_aggregated :
  _create_yearly_gain_loss_list ex_long_term ex_two_lots ex_two_lots_gain_loss_set
  = Ok ex_two_lots_yearly.
Proof. vm_compute. reflexivity. Defined.

Lemma yearly_summaries_per_key_witness :
  _create_yearly_gain_loss_list ex_long_term ex_two_lots ex_two_lots_gain_loss_set
  = Ok ex_two_lots_yearly
  /\ Permutation ex_two_lots_yearly
       (map yearly_gain_loss_of (summaries_of ex_long_term ex_two_lots_gain_loss_set))
  /\ NoDup (map ygl_id ex_two_lots_yearly).
Proof.
  split; [exact ex_two_lots_aggregated|].
  apply (proj2 (proj2 (proj2
           (yearly_summaries_per_key ex_long_term ex_two_lots_gain_loss_set)))
           ex_two_lots).
  exact ex_two_lots_aggregated.
Defined.

(** The scenario of three kinds of records: the matcher's set, and the
    list of its three summaries, which the sort has to reorder. *)
Lemma ex_three_kinds_matched :
  _create_gain_and_loss_set ex_configuration ex_three_kinds
    (_create_taxable_event_set ex_configuration ex_three_kinds)
  = Ok ex_three_kinds_gain_loss_set.
Proof. vm_compute. reflexivity. Defined.

Definition ex_three_kinds_yearly : list YearlyGainLoss :=
  Eval vm_compute in
    match _create_yearly_gain_loss_list ex_long_term ex_three_kinds
            ex_three_kinds_gain_loss_set with
    | Ok ys => ys
    | Raise _ => []
    end.

Lemma ex_three_kinds_aggregated :
  _create_yearly_gain_loss_list ex_long_term ex_three_kinds ex_three_kinds_gain_loss_set
  = Ok ex_three_kinds_yearly.
Proof. vm_compute. reflexivity. Defined.

Lemma ex_three_kinds_keys :
  map _yearly_gain_loss_sort_criteria
    (map yearly_gain_loss_of (summaries_of ex_long_term ex_three_kinds_gain_loss_set))
  = ["BTC 2021 SHORT earn"; "BTC 2021 SHORT sell"; "BTC 2022 LONG sell"]%string
  /\ map _yearly_gain_loss_sort_criteria ex_three_kinds_yearly
     = ["BTC 2022 LONG sell"; "BTC 2021 SHORT sell"; "BTC 2021 SHORT earn"]%string.
Proof. split; reflexivity. Defined.

Lemma yearly_gain_loss_list_sorted_witness :
  _create_yearly_gain_loss_list ex_long_term ex_three_kinds ex_three_kinds_gain_loss_set
  = Ok ex_three_kinds_yearly
  /\ map _yearly_gain_loss_sort_criteria ex_three_kinds_yearly
     = ["BTC 2022 LONG sell"; "BTC 2021 SHORT sell"; "BTC 2021 SHORT earn"]%string
  /\ Permutation ex_three_kinds_yearly
       (map yearly_gain_loss_of
          (summaries_of ex_long_term ex_three_kinds_gain_loss_set))
  /\ Sorted (descending _yearly_gain_loss_sort_criteria) ex_three_kinds_yearly
  /\ (forall i earlier later,
        nth_error ex_three_kinds_yearly i = Some earlier ->
        nth_error ex_three_kinds_yearly (S i) = Some later ->
        String.leb (_yearly_gain_loss_sort_criteria later)
          (_yearly_gain_loss_sort_criteria earlier) = true).
Proof.
  split; [exact ex_three_kinds_aggregated|].
  split; [exact (proj2 ex_three_kinds_keys)|].
  destruct (yearly_gain_loss_list_sorted ex_long_term ex_three_kinds
              ex_three_kinds_gain_loss_set ex_three_kinds_yearly
              ex_three_kinds_aggregated) as (Hperm & Hsorted & Hadjacent & _).
  split; [exact Hperm|]. split; [exact Hsorted | exact Hadjacent].
Defined.

Lemma ex_two_lots_nonzero :
  Forall (fun l : InTransaction => ~ crypto_in l == 0) (in_transaction_set ex_two_lots).
Proof. repeat constructor; discriminate. Defined.

Lemma verify_computation_raises_iff_mismatch_witness :
  Forall (fun l : InTransaction => ~ crypto_in l == 0) (in_transaction_set ex_two_lots)
  /\ exists v,
      verify_totals ex_two_lots = Ok v
      /\ cost_basis_total_verify v == 90
      /\ ((exists e, _verify_computation ex_two_lots 8 100 91 9 = Raise e)
          <-> ~ (8 == crypto_taxable_amount_total_verify v
                 /\ 100 == usd_taxable_amount_total_verify v
                 /\ 91 == cost_basis_total_verify v
                 /\ 9 == gain_loss_total_verify v)).
Proof.
  split; [exact ex_two_lots_nonzero|].
  destruct (verify_computation_raises_iff_mismatch ex_two_lots 8 100 91 9
              ex_two_lots_nonzero) as (v & Hv & Hcost & _ & _ & _ & Hiff & _).
  exists v. split; [exact Hv|]. split; [|exact Hiff].
  rewrite Hcost. reflexivity.
Defined.

Lemma non_fifo_not_implemented_witness :
  LIFO <> FIFO
  /\ Configuration_init ex_file_system "config.json" LIFO None = Raise NotImplementedError.
Proof.
  assert (H : LIFO <> FIFO) by discriminate.
  split; [exact H|].
  apply (proj1 (non_fifo_not_implemented ex_file_system "config.json" LIFO None)).
  exact H.
Defined.

(** The claim that every input without acquisitions fails at the price per
    unit does not hold: with a disposal and no lot, the matcher raises
    [RP2ValueError] first. *)
Lemma compute_tax_no_lots_raises_in_matcher :
  in_transaction_set ex_no_lots = []
  /\ compute_tax ex_long_term unit (fun _ _ => Ok tt) ex_configuration ex_no_lots
     = Raise RP2ValueError
  /\ compute_tax ex_long_term unit (fun _ _ => Ok tt) ex_configuration ex_no_lots
     <> Raise DecimalDivisionError.
Proof.
  split; [reflexivity|]. split; [reflexivity | discriminate].
Qed.

Lemma compute_tax_price_per_unit_witness :
  (in_transaction_set (ex_input [] []) = []
   \/ lots_quantity (in_transaction_set (ex_input [] [])) == 0)
  /\ earlier_stages_return ex_long_term unit (fun _ _ => Ok tt) ex_configuration
       (ex_input [] [])
  /\ compute_tax ex_long_term unit (fun _ _ => Ok tt) ex_configuration (ex_input [] [])
     = Raise DecimalDivisionError.
Proof.
  assert (H : in_transaction_set (ex_input [] []) = []
              \/ lots_quantity (in_transaction_set (ex_input [] [])) == 0)
    by (left; reflexivity).
  assert (Hs : earlier_stages_return ex_long_term unit (fun _ _ => Ok tt)
                 ex_configuration (ex_input [] [])).
  { exists [], tt, []. repeat split. }
  split; [exact H|]. split; [exact Hs|].
  apply (proj1 (compute_tax_price_per_unit ex_long_term unit (fun _ _ => Ok tt)
                  ex_configuration (ex_input [] [])) H).
  exact Hs.
Defined.

(** The design document's scenario of two lots and one disposal: cost bases
    60 and 30, proceeds 75 and 25, and the key of the one yearly summary. *)
Example ex_two_lots_amounts :
  Forall2 Qeq (map usd_cost_basis ex_two_lots_gain_loss_set) [60; 30]
  /\ Forall2 Qeq (map taxable_event_usd_amount_with_fee_fraction
                    ex_two_lots_gain_loss_set) [75; 25]
  /\ map _yearly_gain_loss_sort_criteria ex_two_lots_yearly
     = ["BTC 2021 SHORT sell"%string].
Proof.
  split; [repeat constructor|]. split; [repeat constructor | reflexivity].
Qed.

(** * Further properties of the lot matcher *)

(** What a pass adds to the set: a record for the current event, without a
    lot when the event is lotless and against the current lot otherwise. *)
Lemma loop_body_emitted configuration st :
  exists a,
    emits_one st (loop_body configuration st)
      {| crypto_amount := a;
         taxable_event := cur_taxable_event st;
         from_lot := if lotless (cur_taxable_event st) then None
                     else Some (cur_from_lot st) |}.
Proof.
  unfold emits_one, lotless.
  destruct (loop_body configuration st) as [st'|value gls] eqn:H;
    loop_body_cases st H;
    match goal with
    | Hk : is_EARN (transaction_type _) = _ |- _ => rewrite Hk
    end; eexists; reflexivity.
Qed.

(** How the two pointers stand after a pass that continues. *)
Lemma loop_body_pointers configuration st st' :
  loop_body configuration st = Continue st' ->
  (taxable_pointer_kept st st' \/ taxable_pointer_advanced st st')
  /\ (lot_pointer_kept st st' \/ lot_pointer_advanced st st').
Proof.
  intro H.
  loop_body_cases st H;
    unfold taxable_pointer_kept, taxable_pointer_advanced,
      lot_pointer_kept, lot_pointer_advanced; cbn; auto.
Qed.

(** A record built from the given events and lots: its event is one of the
    events; it has no lot exactly when its event is lotless, and its lot is
    one of the lots otherwise. *)
Definition record_from (events : list AbstractTransaction) (lots : list InTransaction)
  (g : GainLoss) : Prop :=
  In (taxable_event g) events
  /\ match from_lot g with
     | None => lotless (taxable_event g) = true
     | Some l => lotless (taxable_event g) = false /\ In l lots
     end.

Lemma record_from_incl events lots events' lots' g :
  incl events events' -> incl lots lots' ->
  record_from events lots g -> record_from events' lots' g.
Proof.
  intros He Hl [Hin Hlot]. split; [apply He; exact Hin|].
  destruct (from_lot g); [|exact Hlot].
  destruct Hlot as [Hk Hin']. split; [exact Hk | apply Hl; exact Hin'].
Qed.

Section MatcherTrace.
Variable configuration : Configuration.
Variable all_events : list AbstractTransaction.
Variable all_lots : list InTransaction.

(** The entries up to the current ones, the current ones included, and the
    iterators make up the inputs; the records come from the entries seen. *)
Definition trace_inv (st : LoopState) : Prop :=
  exists done_events done_lots,
    all_events = (done_events ++ [cur_taxable_event st]) ++ taxable_event_iterator st
    /\ all_lots = (done_lots ++ [cur_from_lot st]) ++ from_lot_iterator st
    /\ Forall (record_from (done_events ++ [cur_taxable_event st])
                 (done_lots ++ [cur_from_lot st])) (gain_loss_set st).

Lemma trace_inv_emitted st :
  trace_inv st ->
  exists done_events done_lots,
    all_events = (done_events ++ [cur_taxable_event st]) ++ taxable_event_iterator st
    /\ all_lots = (done_lots ++ [cur_from_lot st]) ++ from_lot_iterator st
    /\ Forall (record_from (done_events ++ [cur_taxable_event st])
                 (done_lots ++ [cur_from_lot st]))
         (step_gain_loss_set (loop_body configuration st)).
Proof.
  intros (de & dl & He & Hl & Hrec).
  exists de, dl. split; [exact He|]. split; [exact Hl|].
  destruct (loop_body_emitted configuration st) as [a Ha]. rewrite Ha.
  apply Forall_app. split; [exact Hrec|].
  constructor; [|constructor]. split; cbn.
  - apply in_or_app. right. now left.
  - destruct (lotless (cur_taxable_event st)) eqn:Hk; [reflexivity|].
    split; [reflexivity|]. apply in_or_app. right. now left.
Qed.

Lemma trace_inv_step st st' :
  trace_inv st -> loop_body configuration st = Continue st' -> trace_inv st'.
Proof.
  intros Hinv Hbody.
  destruct (trace_inv_emitted st Hinv) as (de & dl & He & Hl & Hrec).
  rewrite Hbody in Hrec. cbn [step_gain_loss_set] in Hrec.
  destruct (loop_body_pointers _ _ _ Hbody) as [Hte Hlot].
  assert (Hevents : exists de',
             all_events = (de' ++ [cur_taxable_event st']) ++ taxable_event_iterator st'
             /\ incl (de ++ [cur_taxable_event st]) (de' ++ [cur_taxable_event st'])).
  { destruct Hte as [[E1 E2] | [E1 _]].
    - exists de. rewrite E1, E2. split; [exact He | apply incl_refl].
    - exists (de ++ [cur_taxable_event st]). split.
      + rewrite He, E1, <- (app_assoc _ [cur_taxable_event st']). reflexivity.
      + apply incl_appl, incl_refl. }
  assert (Hlots : exists dl',
             all_lots = (dl' ++ [cur_from_lot st']) ++ from_lot_iterator st'
             /\ incl (dl ++ [cur_from_lot st]) (dl' ++ [cur_from_lot st'])).
  { destruct Hlot as [[E1 E2] | [E1 _]].
    - exists dl. rewrite E1, E2. split; [exact Hl | apply incl_refl].
    - exists (dl ++ [cur_from_lot st]). split.
      + rewrite Hl, E1, <- (app_assoc _ [cur_from_lot st']). reflexivity.
      + apply incl_appl, incl_refl. }
  destruct Hevents as (de' & He' & Hie). destruct Hlots as (dl' & Hl' & Hil).
  exists de', dl'. split; [exact He'|]. split; [exact Hl'|].
  eapply Forall_impl; [|exact Hrec].
  intros g. apply record_from_incl; assumption.
Qed.

Lemma initial_state_trace_inv e events l lots :
  all_events = e :: events -> all_lots = l :: lots ->
  trace_inv (initial_state e events l lots).
Proof.
  intros He Hl. exists [], []. cbn. repeat split; try assumption. constructor.
Qed.
End MatcherTrace.

(** The outcome of the matcher as the outcome of its loop. *)
Lemma _create_gain_and_loss_set_Ok configuration input_data events gls :
  _create_gain_and_loss_set configuration input_data events = Ok gls ->
  (events = [] /\ gls = [])
  \/ exists e events' l lots,
       events = e :: events'
       /\ in_transaction_set input_data = l :: lots
       /\ while_true configuration (initial_state e events' l lots)
          = (taxable_event_iterator_id, gls).
Proof.
  intro Hok. destruct events as [|e events].
  { left. inversion Hok. split; reflexivity. }
  right. destruct (in_transaction_set input_data) as [|l lots] eqn:Hl.
  { unfold _create_gain_and_loss_set in Hok. rewrite Hl in Hok. discriminate. }
  rewrite (_create_gain_and_loss_set_cons _ _ _ _ _ _ Hl) in Hok. cbn zeta in Hok.
  exists e, events, l, lots. repeat split.
  destruct (while_true configuration (initial_state e events l lots)) as [value g].
  cbn [fst snd] in Hok. destruct value; cbn in Hok; [|discriminate].
  inversion Hok. reflexivity.
Qed.

(** X1. Every record of a returned set references one of the taxable events;
    it has no lot exactly when that event is lotless, and otherwise its lot
    is one of the acquisition lots. *)
Theorem gain_loss_records_from_inputs configuration input_data events gls :
  _create_gain_and_loss_set configuration input_data events = Ok gls ->
  Forall (record_from events (in_transaction_set input_data)) gls.
Proof.
  intro Hok.
  destruct (_create_gain_and_loss_set_Ok _ _ _ _ Hok)
    as [[-> ->] | (e & events' & l & lots & -> & Hl & Hrun)]; [constructor|].
  rewrite Hl.
  pose proof (while_true_invariant configuration
                (trace_inv (e :: events') (l :: lots))
                (fun _ g => Forall (record_from (e :: events') (l :: lots)) g)) as Hrule.
  cbv beta in Hrule.
  specialize (Hrule (trace_inv_step configuration _ _)).
  assert (Hstop : forall st value g,
             trace_inv (e :: events') (l :: lots) st ->
             loop_body configuration st = StopIteration value g ->
             Forall (record_from (e :: events') (l :: lots)) g).
  { intros st value g Hinv Hbody.
    destruct (trace_inv_emitted configuration _ _ st Hinv) as (de & dl & He & Hlots & Hrec).
    rewrite Hbody in Hrec. cbn [step_gain_loss_set] in Hrec.
    eapply Forall_impl; [|exact Hrec].
    intro r. apply record_from_incl.
    - rewrite He. apply incl_appl, incl_refl.
    - rewrite Hlots. apply incl_appl, incl_refl. }
  specialize (Hrule Hstop _ (initial_state_trace_inv _ _ e events' l lots eq_refl eq_refl)).
  rewrite Hrun in Hrule. exact Hrule.
Qed.

Lemma NoDup_app_disjoint {A} (l l' : list A) x :
  NoDup (l ++ l') -> In x l -> ~ In x l'.
Proof.
  induction l as [|y l IH]; cbn; intros Hnd Hin Hin'; [contradiction|].
  inversion Hnd as [|? ? Hnot Hnd']; subst.
  destruct Hin as [->|Hin].
  - apply Hnot. apply in_or_app. now right.
  - exact (IH Hnd' Hin Hin').
Qed.

(** The lots of a returned set, first in first out: an initial run of the
    lots is consumed whole, the lots after at most one further lot are not
    drawn from at all. *)
Definition consumed_in_order (lots : list InTransaction) (gls : GainLossSet) : Prop :=
  exists consumed partial untouched,
    lots = consumed ++ partial ++ untouched
    /\ (List.length partial <= 1)%nat
    /\ (forall l, In l consumed -> drawn l gls == crypto_in l)
    /\ (forall l, In l untouched -> forall g, In g gls -> from_lot g <> Some l).

Lemma consumed_in_order_stop configuration all_events all_lots st value gls :
  NoDup all_lots ->
  trace_inv all_events all_lots st ->
  allocation_inv all_events all_lots st ->
  loop_body configuration st = StopIteration value gls ->
  consumed_in_order all_lots gls.
Proof.
  intros Hnd Htrace Halloc Hbody.
  destruct (trace_inv_emitted configuration _ _ st Htrace) as (de & dl & _ & Hl & Hrec).
  rewrite Hbody in Hrec. cbn [step_gain_loss_set] in Hrec.
  destruct (loop_body_emitted configuration st) as [a Ha].
  unfold emits_one in Ha. rewrite Hbody in Ha. cbn [step_gain_loss_set] in Ha.
  exists dl, [cur_from_lot st], (from_lot_iterator st).
  split; [rewrite Hl, <- app_assoc; reflexivity|].
  split; [cbn; lia|].
  rewrite Hl in Hnd. split.
  - intros l Hin.
    assert (Hne : same_lot l (cur_from_lot st) = false).
    { destruct (same_lot l (cur_from_lot st)) eqn:E; [|reflexivity].
      apply same_lot_true in E. exfalso.
      apply NoDup_app_remove_r in Hnd.
      apply (NoDup_app_disjoint _ _ l Hnd Hin). rewrite E. now left. }
    assert (Hrest : acquired l (from_lot_iterator st) == 0).
    { apply total_where_none. intros x Hx.
      destruct (same_lot l x) eqn:E; [|reflexivity].
      apply same_lot_true in E. subst x. exfalso.
      apply (NoDup_app_disjoint _ _ l Hnd); [apply in_or_app; now left | exact Hx]. }
    pose proof (inv_lots _ _ _ Halloc l) as Hsum.
    rewrite Hne, Hrest in Hsum.
    rewrite <- Hl in Hnd.
    rewrite (total_where_unique same_lot crypto_in all_lots l) in Hsum;
      [|apply same_lot_true | exact Hnd
       | rewrite Hl; apply in_or_app; left; apply in_or_app; now left].
    rewrite Ha. unfold drawn. rewrite total_where_snoc. fold (drawn l (gain_loss_set st)).
    assert (Hnot : drawn_from l
                     {| crypto_amount := a;
                        taxable_event := cur_taxable_event st;
                        from_lot := if lotless (cur_taxable_event st) then None
                                    else Some (cur_from_lot st) |} = false).
    { unfold drawn_from. cbn [from_lot].
      destruct (lotless (cur_taxable_event st)); [reflexivity|].
      rewrite <- Hne. unfold same_lot.
      destruct (InTransaction_eq_dec (cur_from_lot st) l) as [E|E];
        destruct (InTransaction_eq_dec l (cur_from_lot st)) as [E'|E'];
        congruence. }
    rewrite Hnot. lra.
  - intros l Hin g Hg Hfrom.
    rewrite Forall_forall in Hrec. destruct (Hrec g Hg) as [_ Hlot].
    rewrite Hfrom in Hlot. destruct Hlot as [_ Hseen].
    exact (NoDup_app_disjoint _ _ l Hnd Hseen Hin).
Qed.

(** X2. First in, first out.  In a returned set the lots split into an
    initial run that is consumed whole, at most one lot after it, and the
    remaining lots, from which no record draws: a lot is only drawn from when
    every lot before it is used up.  The lots are pairwise distinct and their
    quantities not negative. *)
Theorem lots_consumed_first_in_first_out configuration input_data events gls :
  NoDup (in_transaction_set input_data) ->
  Forall (fun l : InTransaction => 0 <= crypto_in l) (in_transaction_set input_data) ->
  _create_gain_and_loss_set configuration input_data events = Ok gls ->
  consumed_in_order (in_transaction_set input_data) gls.
Proof.
  intros Hnd Hnn Hok.
  destruct (_create_gain_and_loss_set_Ok _ _ _ _ Hok)
    as [[-> ->] | (e & events' & l & lots & -> & Hl & Hrun)].
  { exists [], [], (in_transaction_set input_data).
    split; [reflexivity|]. split; [cbn; lia|].
    split; [intros x [] | intros x _ g []]. }
  rewrite Hl in *.
  pose proof (while_true_invariant configuration
                (fun st => trace_inv (e :: events') (l :: lots) st
                           /\ allocation_inv (e :: events') (l :: lots) st)
                (fun _ g => consumed_in_order (l :: lots) g)) as Hrule.
  cbv beta in Hrule.
  assert (Hstep : forall st st',
             trace_inv (e :: events') (l :: lots) st
             /\ allocation_inv (e :: events') (l :: lots) st ->
             loop_body configuration st = Continue st' ->
             trace_inv (e :: events') (l :: lots) st'
             /\ allocation_inv (e :: events') (l :: lots) st').
  { intros st st' [H1 H2] Hbody. split.
    - eapply trace_inv_step; eassumption.
    - eapply allocation_inv_step; eassumption. }
  assert (Hstop : forall st value g,
             trace_inv (e :: events') (l :: lots) st
             /\ allocation_inv (e :: events') (l :: lots) st ->
             loop_body configuration st = StopIteration value g ->
             consumed_in_order (l :: lots) g).
  { intros st value g [H1 H2] Hbody.
    eapply consumed_in_order_stop; eassumption. }
  specialize (Hrule Hstep Hstop (initial_state e events' l lots)
                (conj (initial_state_trace_inv _ _ e events' l lots eq_refl eq_refl)
                      (initial_state_allocation_inv e events' l lots Hnn))).
  rewrite Hrun in Hrule. exact Hrule.
Qed.

Lemma loop_body_stop_taxable configuration st gls :
  loop_body configuration st = StopIteration taxable_event_iterator_id gls ->
  taxable_event_iterator st = [].
Proof.
  intro H. loop_body_cases st H; reflexivity.
Qed.

(** Each event as often as its count says, in the order of the events. *)
Definition repeated (events : list AbstractTransaction) (counts : list nat)
  : list AbstractTransaction :=
  flat_map (fun p => repeat (fst p) (snd p)) (combine events counts).

Lemma repeated_snoc events counts e n :
  List.length counts = List.length events ->
  repeated (events ++ [e]) (counts ++ [n]) = repeated events counts ++ repeat e n.
Proof.
  revert counts. induction events as [|x events IH]; intros [|c counts] Hlen;
    try discriminate.
  - cbn. apply app_nil_r.
  - cbn in Hlen. injection Hlen as Hlen.
    unfold repeated in *. cbn [app combine flat_map fst snd].
    rewrite (IH counts Hlen), app_assoc. reflexivity.
Qed.

Section MatcherOrder.
Variable configuration : Configuration.
Variable all_events : list AbstractTransaction.

(** The events of the records so far: the events done, each at least once,
    then the current event as often as it has been matched. *)
Definition order_inv (st : LoopState) : Prop :=
  exists done counts k,
    all_events = done ++ cur_taxable_event st :: taxable_event_iterator st
    /\ List.length counts = List.length done
    /\ Forall (fun n => 1 <= n)%nat counts
    /\ map taxable_event (gain_loss_set st)
       = repeated done counts ++ repeat (cur_taxable_event st) k.

Lemma order_inv_emitted st :
  order_inv st ->
  exists done counts k,
    all_events = done ++ cur_taxable_event st :: taxable_event_iterator st
    /\ List.length counts = List.length done
    /\ Forall (fun n => 1 <= n)%nat counts
    /\ map taxable_event (step_gain_loss_set (loop_body configuration st))
       = repeated done counts ++ repeat (cur_taxable_event st) (S k).
Proof.
  intros (done & counts & k & Hall & Hlen & Hpos & Hmap).
  exists done, counts, k. repeat (split; [assumption|]).
  destruct (loop_body_emitted configuration st) as [a Ha]. rewrite Ha.
  rewrite map_app, Hmap, <- app_assoc. cbn [map taxable_event].
  rewrite <- repeat_cons. reflexivity.
Qed.

Lemma order_inv_step st st' :
  order_inv st -> loop_body configuration st = Continue st' -> order_inv st'.
Proof.
  intros Hinv Hbody.
  destruct (order_inv_emitted st Hinv) as (done & counts & k & Hall & Hlen & Hpos & Hmap).
  rewrite Hbody in Hmap. cbn [step_gain_loss_set] in Hmap.
  destruct (proj1 (loop_body_pointers _ _ _ Hbody)) as [[E1 E2] | [E1 _]].
  - exists done, counts, (S k). rewrite E1, E2. repeat split; assumption.
  - exists (done ++ [cur_taxable_event st]), (counts ++ [S k]), 0%nat.
    split; [rewrite Hall, E1, <- app_assoc; reflexivity|].
    split; [rewrite !length_app, Hlen; reflexivity|].
    split; [apply Forall_app; split; [assumption | constructor; [lia | constructor]]|].
    rewrite Hmap, repeated_snoc by assumption. cbn [repeat]. rewrite app_nil_r.
    reflexivity.
Qed.

Lemma order_inv_stop st gls :
  order_inv st ->
  loop_body configuration st = StopIteration taxable_event_iterator_id gls ->
  exists counts,
    List.length counts = List.length all_events
    /\ Forall (fun n => 1 <= n)%nat counts
    /\ map taxable_event gls = repeated all_events counts.
Proof.
  intros Hinv Hbody.
  destruct (order_inv_emitted st Hinv) as (done & counts & k & Hall & Hlen & Hpos & Hmap).
  rewrite Hbody in Hmap. cbn [step_gain_loss_set] in Hmap.
  rewrite (loop_body_stop_taxable _ _ _ Hbody) in Hall.
  exists (counts ++ [S k]).
  split; [rewrite Hall, !length_app, Hlen; reflexivity|].
  split; [apply Forall_app; split; [assumption | constructor; [lia | constructor]]|].
  rewrite Hmap, Hall, repeated_snoc by assumption. reflexivity.
Qed.
End MatcherOrder.

(** X3. The records of a returned set follow the taxable events: read in
    order, their events are the first event one or more times, then the
    second one or more times, and so on to the last; no event is left out and
    the records of an event are next to each other. *)
Theorem gain_loss_records_follow_events configuration input_data events gls :
  _create_gain_and_loss_set configuration input_data events = Ok gls ->
  exists counts,
    List.length counts = List.length events
    /\ Forall (fun n => 1 <= n)%nat counts
    /\ map taxable_event gls = repeated events counts.
Proof.
  intro Hok.
  destruct (_create_gain_and_loss_set_Ok _ _ _ _ Hok)
    as [[-> ->] | (e & events' & l & lots & -> & Hl & Hrun)].
  { exists []. repeat split. constructor. }
  pose proof (while_true_invariant configuration
                (order_inv (e :: events'))
                (fun value g =>
                   value = taxable_event_iterator_id ->
                   exists counts,
                     List.length counts = List.length (e :: events')
                     /\ Forall (fun n => 1 <= n)%nat counts
                     /\ map taxable_event g = repeated (e :: events') counts)) as Hrule.
  cbv beta in Hrule.
  specialize (Hrule (order_inv_step configuration _)).
  assert (Hstop : forall st value g,
             order_inv (e :: events') st ->
             loop_body configuration st = StopIteration value g ->
             value = taxable_event_iterator_id ->
             exists counts,
               List.length counts = List.length (e :: events')
               /\ Forall (fun n => 1 <= n)%nat counts
               /\ map taxable_event g = repeated (e :: events') counts).
  { intros st value g Hinv Hbody ->. eapply order_inv_stop; eassumption. }
  assert (Hinit : order_inv (e :: events') (initial_state e events' l lots)).
  { exists [], [], 0%nat. repeat split. constructor. }
  specialize (Hrule Hstop _ Hinit).
  rewrite Hrun in Hrule. apply Hrule. reflexivity.
Qed.

(** X4. A returned set has at least one record for each taxable event.
    Without events it is empty, whatever the lots.  With an event there is a
    lot, and the records number fewer than the events and the lots
    together: every pass but the last uses up an event or a lot. *)
Theorem gain_loss_set_size configuration input_data events gls :
  _create_gain_and_loss_set configuration input_data events = Ok gls ->
  (List.length events <= List.length gls)%nat
  /\ (events = [] -> gls = [])
  /\ (events <> [] ->
      in_transaction_set input_data <> []
      /\ (List.length gls
          < List.length events + List.length (in_transaction_set input_data))%nat).
Proof.
  intro Hok.
  destruct (_create_gain_and_loss_set_Ok _ _ _ _ Hok)
    as [[-> ->] | (e & events' & l & lots & -> & Hl & Hrun)].
  { split; [cbn; lia|]. split; [reflexivity | congruence]. }
  rewrite Hl.
  enough (List.length (e :: events') <= List.length gls
          <= List.length (e :: events') + List.length (l :: lots) - 1)%nat as Hsize.
  { cbn [List.length] in Hsize.
    split; [cbn [List.length]; lia|]. split; [discriminate|].
    intros _. split; [discriminate | cbn [List.length]; lia]. }
  pose proof (while_true_invariant configuration
                (fun st =>
                   (List.length (e :: events')
                    <= List.length (gain_loss_set st)
                       + List.length (taxable_event_iterator st) + 1)%nat
                   /\ (List.length (gain_loss_set st) + remaining st + 2
                       <= List.length (e :: events') + List.length (l :: lots))%nat)
                (fun value g =>
                   value = taxable_event_iterator_id ->
                   (List.length (e :: events') <= List.length g
                    <= List.length (e :: events') + List.length (l :: lots) - 1)%nat))
    as Hrule.
  cbv beta in Hrule.
  assert (Hlen : forall st,
             List.length (step_gain_loss_set (loop_body configuration st))
             = S (List.length (gain_loss_set st))).
  { intro st. destruct (loop_body_emitted configuration st) as [a Ha].
    rewrite Ha, length_app. cbn. lia. }
  assert (Hstep : forall st st',
             (List.length (e :: events')
              <= List.length (gain_loss_set st)
                 + List.length (taxable_event_iterator st) + 1)%nat
             /\ (List.length (gain_loss_set st) + remaining st + 2
                 <= List.length (e :: events') + List.length (l :: lots))%nat ->
             loop_body configuration st = Continue st' ->
             (List.length (e :: events')
              <= List.length (gain_loss_set st')
                 + List.length (taxable_event_iterator st') + 1)%nat
             /\ (List.length (gain_loss_set st') + remaining st' + 2
                 <= List.length (e :: events') + List.length (l :: lots))%nat).
  { intros st st' [H1 H2] Hbody.
    pose proof (Hlen st) as Hl1. rewrite Hbody in Hl1. cbn [step_gain_loss_set] in Hl1.
    pose proof (loop_body_remaining _ _ _ Hbody) as Hrem.
    destruct (proj1 (loop_body_pointers _ _ _ Hbody)) as [[_ E] | [E _]].
    - rewrite E. lia.
    - rewrite E in H1. cbn [List.length] in *. lia. }
  assert (Hstop : forall st value g,
             (List.length (e :: events')
              <= List.length (gain_loss_set st)
                 + List.length (taxable_event_iterator st) + 1)%nat
             /\ (List.length (gain_loss_set st) + remaining st + 2
                 <= List.length (e :: events') + List.length (l :: lots))%nat ->
             loop_body configuration st = StopIteration value g ->
             value = taxable_event_iterator_id ->
             (List.length (e :: events') <= List.length g
              <= List.length (e :: events') + List.length (l :: lots) - 1)%nat).
  { intros st value g [H1 H2] Hbody ->.
    pose proof (Hlen st) as Hl1. rewrite Hbody in Hl1. cbn [step_gain_loss_set] in Hl1.
    rewrite (loop_body_stop_taxable _ _ _ Hbody) in H1. cbn [List.length] in *.
    lia. }
  assert (Hinit : (List.length (e :: events')
                   <= List.length (gain_loss_set (initial_state e events' l lots))
                      + List.length (taxable_event_iterator (initial_state e events' l lots))
                      + 1)%nat
                  /\ (List.length (gain_loss_set (initial_state e events' l lots))
                      + remaining (initial_state e events' l lots) + 2
                      <= List.length (e :: events') + List.length (l :: lots))%nat).
  { unfold remaining. cbn. lia. }
  specialize (Hrule Hstep Hstop _ Hinit).
  rewrite Hrun in Hrule. apply Hrule. reflexivity.
Qed.

(** A fragment within bounds: positive, no more than its event's taxable
    amount and no more than its lot's quantity. *)
Definition fragment_bounded (g : GainLoss) : Prop :=
  0 < crypto_amount g
  /\ crypto_amount g <= crypto_taxable_amount (taxable_event g)
  /\ match from_lot g with
     | Some l => crypto_amount g <= crypto_in l
     | None => True
     end.

Definition bounded_inv (st : LoopState) : Prop :=
  positive_state st
  /\ taxable_event_amount st <= crypto_taxable_amount (cur_taxable_event st)
  /\ from_lot_amount st <= crypto_in (cur_from_lot st)
  /\ Forall fragment_bounded (gain_loss_set st).

Lemma bounded_inv_body configuration st :
  bounded_inv st ->
  Forall fragment_bounded (step_gain_loss_set (loop_body configuration st))
  /\ (forall st', loop_body configuration st = Continue st' -> bounded_inv st').
Proof.
  intros ((Hta & Hla & Hes & Hls) & Hte & Hlot & Hrec).
  assert (Hnew : forall a e (l : option InTransaction),
             0 < a -> a <= crypto_taxable_amount e ->
             match l with Some x => a <= crypto_in x | None => True end ->
             Forall fragment_bounded
               (gain_loss_set st ++ [GainLoss_new configuration a e l])).
  { intros a e l H1 H2 H3. apply Forall_app. split; [exact Hrec|].
    constructor; [|constructor]. repeat split; assumption. }
  destruct (loop_body configuration st) as [st1|value gls1] eqn:H;
    loop_body_cases st H; unfold gain_loss_set_add_entry;
      cbn [step_gain_loss_set gain_loss_set] in *;
      (split;
       [ apply Hnew; cbn; trivial; lra
       | try discriminate;
         intros st2 E; inversion E; subst; clear E;
         unfold bounded_inv, positive_state;
         cbn [cur_taxable_event cur_from_lot taxable_event_iterator from_lot_iterator
              gain_loss_set taxable_event_amount from_lot_amount];
         try (inversion Hes; subst); try (inversion Hls; subst);
         repeat match goal with |- _ /\ _ => split end;
         try assumption; try lra;
         apply Hnew; cbn; trivial; lra ]).
Qed.

(** X5. On validated input (positive taxable amounts and lot quantities)
    every fragment of a returned set is positive and exceeds neither the
    taxable amount of its event nor the quantity of its lot. *)
Theorem gain_loss_fragments_bounded configuration input_data events gls :
  Forall (fun e => 0 < crypto_taxable_amount e) events ->
  Forall (fun l : InTransaction => 0 < crypto_in l) (in_transaction_set input_data) ->
  _create_gain_and_loss_set configuration input_data events = Ok gls ->
  Forall fragment_bounded gls.
Proof.
  intros He Hlots Hok.
  destruct (_create_gain_and_loss_set_Ok _ _ _ _ Hok)
    as [[-> ->] | (e & events' & l & lots & -> & Hl & Hrun)]; [constructor|].
  rewrite Hl in Hlots.
  pose proof (while_true_invariant configuration bounded_inv
                (fun _ g => Forall fragment_bounded g)) as Hrule.
  cbv beta in Hrule.
  specialize (Hrule
    (fun st st' Hinv Hbody => proj2 (bounded_inv_body configuration st Hinv) st' Hbody)
    (fun st value g Hinv Hbody =>
       eq_ind _ (fun s => Forall fragment_bounded (step_gain_loss_set s))
         (proj1 (bounded_inv_body configuration st Hinv)) _ Hbody)
    (initial_state e events' l lots)).
  assert (Hinit : bounded_inv (initial_state e events' l lots)).
  { split; [apply initial_state_positive; assumption|].
    cbn. repeat split; try lra. constructor. }
  specialize (Hrule Hinit). rewrite Hrun in Hrule. exact Hrule.
Qed.

(** ** Lots that suffice *)

Lemma taxable_from_lots_nonneg events :
  Forall (fun e => 0 <= crypto_taxable_amount e) events ->
  0 <= taxable_from_lots events.
Proof. apply total_where_nonneg. Qed.

Lemma balance_inv_stop_lots configuration all_events all_lots st gls :
  balance_inv all_events all_lots st ->
  Forall (fun e => 0 <= crypto_taxable_amount e) (taxable_event_iterator st) ->
  loop_body configuration st = StopIteration from_lot_iterator_id gls ->
  lots_quantity all_lots <= taxable_from_lots all_events.
Proof.
  intros [Hd Hla Hrest] Hnn H.
  pose proof (taxable_from_lots_nonneg _ Hnn) as Hpos.
  loop_body_cases st H; unfold lotless in *;
    match goal with
    | Hk : is_EARN (transaction_type _) = _ |- _ => rewrite Hk in Hd
    end;
    change (lots_quantity []) with 0 in Hd; lra.
Qed.

Lemma nonneg_rest_step configuration st st' :
  Forall (fun e => 0 <= crypto_taxable_amount e) (taxable_event_iterator st) ->
  loop_body configuration st = Continue st' ->
  Forall (fun e => 0 <= crypto_taxable_amount e) (taxable_event_iterator st').
Proof.
  intros Hnn Hbody.
  destruct (proj1 (loop_body_pointers _ _ _ Hbody)) as [[_ E] | [E _]].
  - rewrite E. exact Hnn.
  - rewrite E in Hnn. inversion Hnn; assumption.
Qed.

(** A strict surplus: the lots hold more than the events that need lots
    have to allocate. *)
Lemma surplus_lots_return configuration input_data events :
  Forall (fun l : InTransaction => 0 <= crypto_in l) (in_transaction_set input_data) ->
  Forall (fun e => 0 <= crypto_taxable_amount e) events ->
  taxable_from_lots events < lots_quantity (in_transaction_set input_data) ->
  exists gls, _create_gain_and_loss_set configuration input_data events = Ok gls.
Proof.
  intros Hlots Hev Hlt.
  destruct events as [|e events]; [eexists; reflexivity|].
  destruct (in_transaction_set input_data) as [|l lots] eqn:Hl.
  { pose proof (taxable_from_lots_nonneg _ Hev).
    change (lots_quantity []) with 0 in Hlt. lra. }
  rewrite (_create_gain_and_loss_set_cons _ _ _ _ _ _ Hl). cbn zeta.
  pose proof (while_true_invariant configuration
                (fun st => balance_inv (e :: events) (l :: lots) st
                           /\ Forall (fun x => 0 <= crypto_taxable_amount x)
                                (taxable_event_iterator st))
                (fun value _ =>
                   value = from_lot_iterator_id ->
                   lots_quantity (l :: lots) <= taxable_from_lots (e :: events)))
    as Hrule.
  cbv beta in Hrule.
  assert (Hstep : forall st st',
             balance_inv (e :: events) (l :: lots) st
             /\ Forall (fun x => 0 <= crypto_taxable_amount x) (taxable_event_iterator st) ->
             loop_body configuration st = Continue st' ->
             balance_inv (e :: events) (l :: lots) st'
             /\ Forall (fun x => 0 <= crypto_taxable_amount x) (taxable_event_iterator st')).
  { intros st st' [H1 H2] Hbody. split.
    - eapply balance_inv_step; eassumption.
    - eapply nonneg_rest_step; eassumption. }
  assert (Hstop : forall st value g,
             balance_inv (e :: events) (l :: lots) st
             /\ Forall (fun x => 0 <= crypto_taxable_amount x) (taxable_event_iterator st) ->
             loop_body configuration st = StopIteration value g ->
             value = from_lot_iterator_id ->
             lots_quantity (l :: lots) <= taxable_from_lots (e :: events)).
  { intros st value g [H1 H2] Hbody ->. eapply balance_inv_stop_lots; eassumption. }
  assert (Hinit : balance_inv (e :: events) (l :: lots) (initial_state e events l lots)
                  /\ Forall (fun x => 0 <= crypto_taxable_amount x)
                       (taxable_event_iterator (initial_state e events l lots))).
  { split; [apply initial_state_balance_inv; assumption|].
    cbn. inversion Hev; assumption. }
  specialize (Hrule Hstep Hstop _ Hinit).
  destruct (while_true configuration (initial_state e events l lots)) as [value g].
  cbn [fst snd] in *. destruct value; cbn [IteratorId_eqb].
  - eexists; reflexivity.
  - specialize (Hrule eq_refl). lra.
Qed.

(** The sequence of events ends with [e]. *)
Definition ends_with (e : AbstractTransaction) (events : list AbstractTransaction) : Prop :=
  exists before, events = before ++ [e].

Lemma ends_with_last e0 events : ends_with (last (e0 :: events) e0) (e0 :: events).
Proof.
  exists (removelast (e0 :: events)). apply app_removelast_last. discriminate.
Qed.

Lemma ends_with_one e x : ends_with e [x] -> x = e.
Proof.
  intros [[|y before] H]; cbn in H.
  - congruence.
  - destruct before; discriminate.
Qed.

Lemma ends_with_rest e x y events : ends_with e (x :: y :: events) -> ends_with e (y :: events).
Proof.
  intros [[|z before] H]; cbn in H; [discriminate|].
  exists before. congruence.
Qed.

Lemma ends_with_In e events : ends_with e events -> In e events.
Proof. intros [before ->]. apply in_or_app. right. now left. Qed.

(** Events that end with an event that needs a lot have at least its
    taxable amount to allocate. *)
Lemma taxable_from_lots_ends e events :
  Forall (fun x => 0 <= crypto_taxable_amount x) events ->
  ends_with e events -> lotless e = false ->
  crypto_taxable_amount e <= taxable_from_lots events.
Proof.
  intros Hnn [before ->] Hlot.
  apply Forall_app in Hnn. destruct Hnn as [Hb _].
  pose proof (taxable_from_lots_nonneg _ Hb) as Hpos.
  unfold taxable_from_lots in *.
  rewrite total_where_app, total_where_cons, total_where_nil, Hlot. cbn [negb]. lra.
Qed.

(** The last event is still the last of what the loop has to go through. *)
Definition last_event_inv (e : AbstractTransaction) (st : LoopState) : Prop :=
  ends_with e (cur_taxable_event st :: taxable_event_iterator st).

Lemma last_event_inv_step configuration e st st' :
  last_event_inv e st -> loop_body configuration st = Continue st' ->
  last_event_inv e st'.
Proof.
  unfold last_event_inv. intros H Hbody.
  destruct (proj1 (loop_body_pointers _ _ _ Hbody)) as [[E1 E2] | [E _]].
  - rewrite E1, E2. exact H.
  - rewrite E in H. eapply ends_with_rest. exact H.
Qed.

(** When the lots run out although the events end with one that needs a lot
    and has a positive amount, the lots held less than was to allocate. *)
Lemma balance_inv_stop_lots_short configuration all_events all_lots e st gls :
  balance_inv all_events all_lots st ->
  Forall (fun x => 0 <= crypto_taxable_amount x) (taxable_event_iterator st) ->
  last_event_inv e st -> lotless e = false -> 0 < crypto_taxable_amount e ->
  loop_body configuration st = StopIteration from_lot_iterator_id gls ->
  lots_quantity all_lots < taxable_from_lots all_events.
Proof.
  intros [Hd Hla Hrest] Hnn Hlast Hlot Hpos H.
  unfold last_event_inv in Hlast.
  pose proof (taxable_from_lots_nonneg _ Hnn) as Hge.
  loop_body_cases st H; unfold lotless in Hd;
    match goal with
    | Hk : is_EARN (transaction_type _) = _ |- _ => rewrite Hk in Hd
    end;
    change (lots_quantity []) with 0 in Hd.
  - apply ends_with_rest in Hlast.
    pose proof (taxable_from_lots_ends _ _ Hnn Hlast Hlot). lra.
  - lra.
Qed.

(** Lots that hold exactly what is to allocate are enough when the last
    event needs a lot: the loop stops at the events before it asks for
    another lot. *)
Lemma exact_lots_return configuration input_data events e :
  Forall (fun l : InTransaction => 0 <= crypto_in l) (in_transaction_set input_data) ->
  Forall (fun x => 0 <= crypto_taxable_amount x) events ->
  taxable_from_lots events <= lots_quantity (in_transaction_set input_data) ->
  ends_with e events -> lotless e = false -> 0 < crypto_taxable_amount e ->
  exists gls, _create_gain_and_loss_set configuration input_data events = Ok gls.
Proof.
  intros Hlots Hev Hle Hends Hlot Hpos.
  destruct events as [|e0 events]; [eexists; reflexivity|].
  destruct (in_transaction_set input_data) as [|l lots] eqn:Hl.
  { pose proof (taxable_from_lots_ends _ _ Hev Hends Hlot).
    change (lots_quantity []) with 0 in Hle. lra. }
  rewrite (_create_gain_and_loss_set_cons _ _ _ _ _ _ Hl). cbn zeta.
  pose proof (while_true_invariant configuration
                (fun st => balance_inv (e0 :: events) (l :: lots) st
                           /\ Forall (fun x => 0 <= crypto_taxable_amount x)
                                (taxable_event_iterator st)
                           /\ last_event_inv e st)
                (fun value _ =>
                   value = from_lot_iterator_id ->
                   lots_quantity (l :: lots) < taxable_from_lots (e0 :: events)))
    as Hrule.
  cbv beta in Hrule.
  assert (Hstep : forall st st',
             balance_inv (e0 :: events) (l :: lots) st
             /\ Forall (fun x => 0 <= crypto_taxable_amount x) (taxable_event_iterator st)
             /\ last_event_inv e st ->
             loop_body configuration st = Continue st' ->
             balance_inv (e0 :: events) (l :: lots) st'
             /\ Forall (fun x => 0 <= crypto_taxable_amount x) (taxable_event_iterator st')
             /\ last_event_inv e st').
  { intros st st' (H1 & H2 & H3) Hbody. split; [|split].
    - eapply balance_inv_step; eassumption.
    - eapply nonneg_rest_step; eassumption.
    - eapply last_event_inv_step; eassumption. }
  assert (Hstop : forall st value g,
             balance_inv (e0 :: events) (l :: lots) st
             /\ Forall (fun x => 0 <= crypto_taxable_amount x) (taxable_event_iterator st)
             /\ last_event_inv e st ->
             loop_body configuration st = StopIteration value g ->
             value = from_lot_iterator_id ->
             lots_quantity (l :: lots) < taxable_from_lots (e0 :: events)).
  { intros st value g (H1 & H2 & H3) Hbody ->.
    eapply balance_inv_stop_lots_short; eassumption. }
  assert (Hinit : balance_inv (e0 :: events) (l :: lots) (initial_state e0 events l lots)
                  /\ Forall (fun x => 0 <= crypto_taxable_amount x)
                       (taxable_event_iterator (initial_state e0 events l lots))
                  /\ last_event_inv e (initial_state e0 events l lots)).
  { split; [apply initial_state_balance_inv; assumption|]. split.
    - cbn. inversion Hev; assumption.
    - exact Hends. }
  specialize (Hrule Hstep Hstop _ Hinit).
  destruct (while_true configuration (initial_state e0 events l lots)) as [value g].
  cbn [fst snd] in *. destruct value; cbn [IteratorId_eqb].
  - eexists; reflexivity.
  - specialize (Hrule eq_refl). lra.
Qed.

(** On positive input, a loop that stops at the events with the lots used up
    exactly has stopped on an event that needs a lot: after an event without
    a lot the current lot would still hold something. *)
Lemma balance_inv_stop_taxable_exact configuration all_events all_lots e st gls :
  balance_inv all_events all_lots st ->
  positive_state st ->
  last_event_inv e st ->
  taxable_from_lots all_events == lots_quantity all_lots ->
  loop_body configuration st = StopIteration taxable_event_iterator_id gls ->
  lotless e = false.
Proof.
  intros [Hd Hla Hrest] (_ & Hlot & _ & _) Hlast Hexact H.
  unfold last_event_inv in Hlast.
  pose proof (lots_quantity_nonneg _ Hrest) as Hge.
  loop_body_cases st H; apply ends_with_one in Hlast; subst e; unfold lotless in *;
    try assumption.
  match goal with
  | Hk : is_EARN (transaction_type _) = _ |- _ => rewrite Hk in Hd
  end.
  change (taxable_from_lots []) with 0 in Hd. lra.
Qed.

Lemma returned_exact_ends_with_lot_event configuration input_data events gls :
  Forall (fun l : InTransaction => 0 < crypto_in l) (in_transaction_set input_data) ->
  Forall (fun e => 0 < crypto_taxable_amount e) events ->
  _create_gain_and_loss_set configuration input_data events = Ok gls ->
  events <> [] ->
  taxable_from_lots events == lots_quantity (in_transaction_set input_data) ->
  exists e, ends_with e events /\ lotless e = false.
Proof.
  intros Hlots Hev Hok Hne Hexact.
  destruct (_create_gain_and_loss_set_Ok _ _ _ _ Hok)
    as [[-> _] | (e0 & events' & l & lots & -> & Hl & Hrun)]; [congruence|].
  rewrite Hl in *.
  exists (last (e0 :: events') e0). split; [apply ends_with_last|].
  assert (Hnn : Forall (fun l : InTransaction => 0 <= crypto_in l) (l :: lots)).
  { eapply Forall_impl; [|exact Hlots]. cbv beta. intros x Hx. lra. }
  pose proof (while_true_invariant configuration
                (fun st => balance_inv (e0 :: events') (l :: lots) st
                           /\ positive_state st
                           /\ last_event_inv (last (e0 :: events') e0) st)
                (fun value _ =>
                   value = taxable_event_iterator_id ->
                   lotless (last (e0 :: events') e0) = false))
    as Hrule.
  cbv beta in Hrule.
  assert (Hstep : forall st st',
             balance_inv (e0 :: events') (l :: lots) st
             /\ positive_state st
             /\ last_event_inv (last (e0 :: events') e0) st ->
             loop_body configuration st = Continue st' ->
             balance_inv (e0 :: events') (l :: lots) st'
             /\ positive_state st'
             /\ last_event_inv (last (e0 :: events') e0) st').
  { intros st st' (H1 & H2 & H3) Hbody. split; [|split].
    - eapply balance_inv_step; eassumption.
    - eapply positive_state_step; eassumption.
    - eapply last_event_inv_step; eassumption. }
  assert (Hstop : forall st value g,
             balance_inv (e0 :: events') (l :: lots) st
             /\ positive_state st
             /\ last_event_inv (last (e0 :: events') e0) st ->
             loop_body configuration st = StopIteration value g ->
             value = taxable_event_iterator_id ->
             lotless (last (e0 :: events') e0) = false).
  { intros st value g (H1 & H2 & H3) Hbody ->.
    eapply balance_inv_stop_taxable_exact; eassumption. }
  assert (Hinit : balance_inv (e0 :: events') (l :: lots) (initial_state e0 events' l lots)
                  /\ positive_state (initial_state e0 events' l lots)
                  /\ last_event_inv (last (e0 :: events') e0)
                       (initial_state e0 events' l lots)).
  { split; [apply initial_state_balance_inv; assumption|]. split.
    - apply initial_state_positive; assumption.
    - apply ends_with_last. }
  specialize (Hrule Hstep Hstop _ Hinit).
  rewrite Hrun in Hrule. apply Hrule. reflexivity.
Qed.

(** X6. When the lots are enough.  With quantities and taxable amounts that
    are not negative the matcher returns a set if the lots hold more than
    the events that need lots have to allocate, and also if they hold
    exactly as much and the last event needs a lot and has a positive
    amount: the loop then stops at the events before it asks for another
    lot.  On positive input this is all: the matcher returns a set exactly
    when there is no event, or the lots hold more than is to allocate, or
    they hold exactly as much and the last event needs a lot. *)
Theorem sufficient_lots_return configuration input_data events :
  (Forall (fun l : InTransaction => 0 <= crypto_in l) (in_transaction_set input_data) ->
   Forall (fun e => 0 <= crypto_taxable_amount e) events ->
   taxable_from_lots events < lots_quantity (in_transaction_set input_data)
   \/ (taxable_from_lots events <= lots_quantity (in_transaction_set input_data)
       /\ exists e, ends_with e events /\ lotless e = false
                    /\ 0 < crypto_taxable_amount e) ->
   exists gls, _create_gain_and_loss_set configuration input_data events = Ok gls)
  /\ (Forall (fun l : InTransaction => 0 < crypto_in l) (in_transaction_set input_data) ->
      Forall (fun e => 0 < crypto_taxable_amount e) events ->
      ((exists gls, _create_gain_and_loss_set configuration input_data events = Ok gls)
       <-> events = []
           \/ taxable_from_lots events < lots_quantity (in_transaction_set input_data)
           \/ (taxable_from_lots events == lots_quantity (in_transaction_set input_data)
               /\ exists e, ends_with e events /\ lotless e = false))).
Proof.
  split.
  - intros Hlots Hev [Hlt | (Hle & e & Hends & Hlot & Hpos)].
    + apply surplus_lots_return; assumption.
    + eapply exact_lots_return; eassumption.
  - intros Hlots Hev.
    assert (Hlots0 : Forall (fun l : InTransaction => 0 <= crypto_in l)
                       (in_transaction_set input_data)).
    { eapply Forall_impl; [|exact Hlots]. cbv beta. intros x Hx. lra. }
    assert (Hev0 : Forall (fun e => 0 <= crypto_taxable_amount e) events).
    { eapply Forall_impl; [|exact Hev]. cbv beta. intros x Hx. lra. }
    split.
    + intros [gls Hok].
      destruct events as [|e0 events']; [now left | right].
      pose proof (_create_gain_and_loss_set_covered _ _ _ _ Hlots0 Hok) as Hle.
      apply Qle_lteq in Hle. destruct Hle as [Hlt | Heq]; [now left | right].
      split; [exact Heq|].
      eapply returned_exact_ends_with_lot_event; try eassumption. discriminate.
    + intros [-> | [Hlt | (Heq & e & Hends & Hlot)]].
      * eexists. reflexivity.
      * apply surplus_lots_return; assumption.
      * apply (exact_lots_return _ _ _ e); try assumption.
        -- rewrite Heq. apply Qle_refl.
        -- rewrite Forall_forall in Hev. apply Hev. apply ends_with_In. exact Hends.
Qed.

(** * Further properties of the yearly aggregator and the verifier *)

Lemma Qsum_permutation l l' : Permutation l l' -> Qsum l == Qsum l'.
Proof.
  induction 1 as [|x l l' _ IH|x y l|l l' l'' _ IH1 _ IH2].
  - reflexivity.
  - rewrite !Qsum_cons, IH. reflexivity.
  - rewrite !Qsum_cons. lra.
  - rewrite IH1. exact IH2.
Qed.

(** The four quantities a record contributes and a summary accumulates. *)
Inductive Quantity := CryptoAmount | UsdAmount | UsdCostBasis | UsdGainLoss.

Definition record_quantity (q : Quantity) (g : GainLoss) : RP2Decimal :=
  match q with
  | CryptoAmount => crypto_amount g
  | UsdAmount => taxable_event_usd_amount_with_fee_fraction g
  | UsdCostBasis => usd_cost_basis g
  | UsdGainLoss => usd_gain g
  end.

Definition amounts_quantity (q : Quantity) (v : _YearlyGainLossAmounts) : RP2Decimal :=
  match q with
  | CryptoAmount => sum_crypto_amount v
  | UsdAmount => sum_usd_amount v
  | UsdCostBasis => sum_usd_cost_basis v
  | UsdGainLoss => sum_usd_gain_loss v
  end.

Definition summary_quantity (q : Quantity) (y : YearlyGainLoss) : RP2Decimal :=
  match q with
  | CryptoAmount => ygl_crypto_amount y
  | UsdAmount => ygl_usd_amount y
  | UsdCostBasis => ygl_usd_cost_basis y
  | UsdGainLoss => ygl_usd_gain_loss y
  end.

Definition totals_quantity (q : Quantity) (st : TotalsState) : RP2Decimal :=
  match q with
  | CryptoAmount => crypto_taxable_amount_total st
  | UsdAmount => usd_taxable_amount_total st
  | UsdCostBasis => cost_basis_total st
  | UsdGainLoss => gain_loss_total st
  end.

(** Sum of one quantity over the values of the dictionary. *)
Definition dict_total (q : Quantity) (d : SummaryDict) : Q :=
  Qsum (map (fun item => amounts_quantity q (snd item)) d).

Lemma dict_set_total q d k v :
  dict_total q (dict_set d k v)
  == dict_total q d
     - match dict_get d k with Some v0 => amounts_quantity q v0 | None => 0 end
     + amounts_quantity q v.
Proof.
  unfold dict_total.
  induction d as [|[k0 v0] d IH]; cbn [dict_set dict_get map snd].
  - rewrite ?Qsum_cons; change (Qsum (@nil RP2Decimal)) with 0; lra.
  - destruct (_YearlyGainLossId_eq_dec k k0) as [->|Hne]; cbn [map snd].
    + rewrite !Qsum_cons. lra.
    + rewrite !Qsum_cons, IH. lra.
Qed.

Lemma accumulate_total long_term_holding_period q d g :
  dict_total q (accumulate long_term_holding_period d g)
  == dict_total q d + record_quantity q g.
Proof.
  rewrite accumulate_eq. cbn zeta. rewrite dict_set_total.
  destruct (dict_get d (gain_loss_key long_term_holding_period g)); destruct q;
    cbn [amounts_quantity record_quantity sum_crypto_amount sum_usd_amount
         sum_usd_cost_basis sum_usd_gain_loss];
    unfold ZERO; lra.
Qed.

Lemma summaries_of_total long_term_holding_period q gls :
  dict_total q (summaries_of long_term_holding_period gls)
  == Qsum (map (record_quantity q) gls).
Proof.
  unfold summaries_of.
  assert (H : forall d,
             dict_total q (fold_left (accumulate long_term_holding_period) gls d)
             == dict_total q d + Qsum (map (record_quantity q) gls)).
  { induction gls as [|g gls IH]; intro d; cbn [fold_left map].
    - change (Qsum (@nil RP2Decimal)) with 0; rewrite ?Qsum_nil; lra.
    - rewrite IH, accumulate_total, Qsum_cons. lra. }
  rewrite H. unfold dict_total. cbn [map]. change (Qsum (@nil RP2Decimal)) with 0; rewrite ?Qsum_nil; lra.
Qed.

Lemma summary_quantity_of q k v :
  summary_quantity q (yearly_gain_loss_of (k, v)) = amounts_quantity q v.
Proof. destruct q; reflexivity. Qed.

Lemma collect_all_total q d :
  totals_quantity q (collect_all d) == dict_total q d.
Proof.
  unfold collect_all.
  assert (H : forall st,
             totals_quantity q (fold_left collect d st)
             == totals_quantity q st + dict_total q d).
  { induction d as [|[k v] d IH]; intro st; cbn [fold_left].
    - unfold dict_total. cbn [map]. change (Qsum (@nil RP2Decimal)) with 0; rewrite ?Qsum_nil; lra.
    - rewrite IH. unfold dict_total. cbn [map snd]. rewrite Qsum_cons.
      destruct q;
        cbn [totals_quantity amounts_quantity collect yearly_gain_loss_of
             crypto_taxable_amount_total usd_taxable_amount_total cost_basis_total
             gain_loss_total ygl_crypto_amount ygl_usd_amount ygl_usd_cost_basis
             ygl_usd_gain_loss]; lra. }
  rewrite H.
  destruct q;
    cbn [totals_quantity crypto_taxable_amount_total usd_taxable_amount_total
         cost_basis_total gain_loss_total]; unfold ZERO; lra.
Qed.

Lemma summaries_list_total q (d : SummaryDict) :
  Qsum (map (summary_quantity q) (map yearly_gain_loss_of d)) == dict_total q d.
Proof.
  unfold dict_total. rewrite map_map.
  induction d as [|[k v] d IH]; cbn [map snd].
  - reflexivity.
  - rewrite !Qsum_cons, IH, summary_quantity_of. reflexivity.
Qed.

(** X7. Grouping loses nothing.  Each of the four totals the aggregator hands
    to the verifier is the sum of that quantity over all records, and so is
    the sum over the summaries of a returned list. *)
Theorem yearly_totals_are_record_totals long_term_holding_period gls q :
  totals_quantity q (collect_all (summaries_of long_term_holding_period gls))
  == Qsum (map (record_quantity q) gls)
  /\ (forall input_data ys,
        _create_yearly_gain_loss_list long_term_holding_period input_data gls = Ok ys ->
        Qsum (map (summary_quantity q) ys) == Qsum (map (record_quantity q) gls)).
Proof.
  split.
  - rewrite collect_all_total. apply summaries_of_total.
  - intros input_data ys Hok. apply _create_yearly_gain_loss_list_Ok in Hok.
    rewrite Hok.
    rewrite (Qsum_permutation _ _
               (Permutation_map (summary_quantity q)
                  (sorted_reverse_permutation _yearly_gain_loss_sort_criteria _))).
    rewrite summaries_list_total. apply summaries_of_total.
Qed.

Lemma _verify_computation_Ok input_data t1 t2 t3 t4 u :
  _verify_computation input_data t1 t2 t3 t4 = Ok u ->
  exists v,
    verify_totals input_data = Ok v
    /\ t1 == crypto_taxable_amount_total_verify v
    /\ t2 == usd_taxable_amount_total_verify v
    /\ t3 == cost_basis_total_verify v
    /\ t4 == gain_loss_total_verify v.
Proof.
  unfold _verify_computation.
  destruct (verify_totals input_data) as [v|e]; cbn [bind]; [|discriminate].
  destruct (Qeq_bool t1 _) eqn:E1; cbn [negb]; [|discriminate].
  destruct (Qeq_bool t2 _) eqn:E2; cbn [negb]; [|discriminate].
  destruct (Qeq_bool t3 _) eqn:E3; cbn [negb]; [|discriminate].
  destruct (Qeq_bool t4 _) eqn:E4; cbn [negb]; [|discriminate].
  intros _. exists v. apply Qeq_bool_iff in E1, E2, E3, E4. auto.
Qed.

Lemma verify_totals_sums input_data v :
  verify_totals input_data = Ok v ->
  crypto_taxable_amount_total_verify v
  == Qsum (map crypto_taxable_amount (in_entries input_data))
     + Qsum (map crypto_taxable_amount (out_transaction_set input_data))
     + Qsum (map crypto_taxable_amount (intra_transaction_set input_data))
  /\ usd_taxable_amount_total_verify v
     == Qsum (map usd_taxable_amount (in_entries input_data))
        + Qsum (map usd_taxable_amount (out_transaction_set input_data))
        + Qsum (map usd_taxable_amount (intra_transaction_set input_data))
  /\ gain_loss_total_verify v
     == usd_taxable_amount_total_verify v - cost_basis_total_verify v.
Proof.
  unfold verify_totals.
  destruct (cost_basis_loop _ _ _ _) as [[t c]|e]; cbn [bind]; [|discriminate].
  intro E. inversion E; subst; clear E.
  cbn [crypto_taxable_amount_total_verify usd_taxable_amount_total_verify
       cost_basis_total_verify gain_loss_total_verify].
  unfold crypto_sold_amount_total, ZERO. rewrite !running_sum_Qsum.
  split; [lra|]. split; [lra | reflexivity].
Qed.

Lemma _create_yearly_gain_loss_list_conserves long_term_holding_period input_data gls ys :
  _create_yearly_gain_loss_list long_term_holding_period input_data gls = Ok ys ->
  Qsum (map crypto_amount gls)
  == Qsum (map crypto_taxable_amount (in_entries input_data))
     + Qsum (map crypto_taxable_amount (out_transaction_set input_data))
     + Qsum (map crypto_taxable_amount (intra_transaction_set input_data))
  /\ Qsum (map taxable_event_usd_amount_with_fee_fraction gls)
     == Qsum (map usd_taxable_amount (in_entries input_data))
        + Qsum (map usd_taxable_amount (out_transaction_set input_data))
        + Qsum (map usd_taxable_amount (intra_transaction_set input_data))
  /\ Qsum (map usd_gain gls)
     == Qsum (map taxable_event_usd_amount_with_fee_fraction gls)
        - Qsum (map usd_cost_basis gls).
Proof.
  unfold _create_yearly_gain_loss_list. cbn zeta.
  destruct (_verify_computation _ _ _ _ _) as [u|e] eqn:Hv; cbn [bind]; [|discriminate].
  intros _.
  destruct (_verify_computation_Ok _ _ _ _ _ _ Hv) as (v & Hok & H1 & H2 & H3 & H4).
  destruct (verify_totals_sums _ _ Hok) as (Hc & Hu & Hg).
  pose proof (fun q => collect_all_total q (summaries_of long_term_holding_period gls)) as Ht.
  pose proof (fun q => summaries_of_total long_term_holding_period q gls) as Hs.
  pose proof (Ht CryptoAmount) as T1. pose proof (Hs CryptoAmount) as S1.
  pose proof (Ht UsdAmount) as T2. pose proof (Hs UsdAmount) as S2.
  pose proof (Ht UsdCostBasis) as T3. pose proof (Hs UsdCostBasis) as S3.
  pose proof (Ht UsdGainLoss) as T4. pose proof (Hs UsdGainLoss) as S4.
  cbn [totals_quantity] in *.
  change (record_quantity CryptoAmount) with crypto_amount in *.
  change (record_quantity UsdAmount) with taxable_event_usd_amount_with_fee_fraction in *.
  change (record_quantity UsdCostBasis) with usd_cost_basis in *.
  change (record_quantity UsdGainLoss) with usd_gain in *.
  repeat split; lra.
Qed.

(** X8. A returned list of yearly summaries certifies the conservation of
    the totals: the crypto amounts of the records add up to the taxable
    crypto amounts of all transactions of the three collections, the
    proceeds of the records to their USD taxable amounts, and the gains of
    the records to the proceeds less the cost bases. *)
Theorem returned_list_conserves_totals long_term_holding_period input_data gls ys :
  _create_yearly_gain_loss_list long_term_holding_period input_data gls = Ok ys ->
  Qsum (map crypto_amount gls)
  == Qsum (map crypto_taxable_amount (in_entries input_data))
     + Qsum (map crypto_taxable_amount (out_transaction_set input_data))
     + Qsum (map crypto_taxable_amount (intra_transaction_set input_data))
  /\ Qsum (map taxable_event_usd_amount_with_fee_fraction gls)
     == Qsum (map usd_taxable_amount (in_entries input_data))
        + Qsum (map usd_taxable_amount (out_transaction_set input_data))
        + Qsum (map usd_taxable_amount (intra_transaction_set input_data))
  /\ Qsum (map usd_gain gls)
     == Qsum (map taxable_event_usd_amount_with_fee_fraction gls)
        - Qsum (map usd_cost_basis gls).
Proof. apply _create_yearly_gain_loss_list_conserves. Qed.

(** ** The verifier's cost basis *)

Lemma cost_basis_loop_whole sold lots total cost :
  Forall (fun l : InTransaction => 0 <= crypto_in l) lots ->
  total + lots_quantity lots <= sold ->
  exists total' cost',
    cost_basis_loop sold lots total cost = Ok (total', cost')
    /\ total' == total + lots_quantity lots
    /\ cost' == cost + Qsum (map usd_in_with_fee lots).
Proof.
  intro Hnn. revert total cost.
  induction Hnn as [|l lots Hl Hrest IH]; intros total cost Hle;
    cbn [cost_basis_loop map].
  - do 2 eexists. split; [reflexivity|].
    change (lots_quantity []) with 0. change (Qsum (@nil RP2Decimal)) with 0.
    split; lra.
  - rewrite lots_quantity_cons in Hle.
    pose proof (lots_quantity_nonneg _ Hrest) as Hpos.
    destruct (Qltb sold (total + crypto_in l)) eqn:E.
    { apply Qltb_true in E. lra. }
    destruct (IH (total + crypto_in l) (cost + usd_in_with_fee l)) as (t & c & Hrun & Ht & Hc).
    { lra. }
    exists t, c. split; [exact Hrun|].
    rewrite lots_quantity_cons, Qsum_cons. split; lra.
Qed.

(** X9. When the disposed crypto amount covers all lots, the verifier takes
    every lot whole: its cost basis is the summed USD cost of the lots, and
    no division takes place.  Quantities are not negative. *)
Theorem verify_cost_basis_of_all_lots input_data :
  Forall (fun l : InTransaction => 0 <= crypto_in l) (in_transaction_set input_data) ->
  lots_quantity (in_transaction_set input_data) <= crypto_sold_amount_total input_data ->
  exists v,
    verify_totals input_data = Ok v
    /\ cost_basis_total_verify v
       == Qsum (map usd_in_with_fee (in_transaction_set input_data)).
Proof.
  intros Hnn Hle. unfold verify_totals.
  destruct (cost_basis_loop_whole (crypto_sold_amount_total input_data)
              (in_transaction_set input_data) ZERO ZERO Hnn)
    as (t & c & Hrun & _ & Hc).
  { unfold ZERO. lra. }
  rewrite Hrun. cbn [bind]. eexists. split; [reflexivity|].
  cbn [cost_basis_total_verify]. rewrite Hc. unfold ZERO. lra.
Qed.

Lemma cost_basis_by_walk_bounds lots left_to_cover :
  Forall (fun l : InTransaction => 0 < crypto_in l /\ 0 <= usd_in_with_fee l) lots ->
  0 <= left_to_cover ->
  0 <= cost_basis_by_walk lots left_to_cover
  /\ cost_basis_by_walk lots left_to_cover <= Qsum (map usd_in_with_fee lots).
Proof.
  intro Hlots. revert left_to_cover.
  induction Hlots as [|l lots [Hq Hu] Htail IH]; intros left_to_cover Hleft;
    cbn [cost_basis_by_walk map].
  - change (Qsum (@nil RP2Decimal)) with 0. split; lra.
  - rewrite Qsum_cons.
    destruct (Qle_bool (crypto_in l) left_to_cover) eqn:E.
    + apply Qle_bool_iff in E.
      destruct (IH (left_to_cover - crypto_in l)) as [H1 H2]; [lra|]. split; lra.
    + assert (Hlt : left_to_cover < crypto_in l).
      { destruct (Qlt_le_dec left_to_cover (crypto_in l)) as [H|H]; [exact H|].
        apply Qle_bool_iff in H. congruence. }
      assert (H0 : 0 <= left_to_cover / crypto_in l).
      { apply Qle_shift_div_l; [exact Hq | lra]. }
      assert (H1 : left_to_cover / crypto_in l <= 1).
      { apply Qle_shift_div_r; [exact Hq | lra]. }
      pose proof (Qmult_le_0_compat _ _ H0 Hu) as Hlow.
      pose proof (Qmult_le_compat_r _ _ _ H1 Hu) as Hup.
      assert (Hrest : 0 <= Qsum (map usd_in_with_fee lots)).
      { clear - Htail. induction Htail as [|x xs [_ Hx] _ IHx]; cbn [map].
        - change (Qsum (@nil RP2Decimal)) with 0. lra.
        - rewrite Qsum_cons. lra. }
      split; lra.
Qed.

(** X10. With lots of positive quantity and non-negative cost, and a disposed
    amount that is not negative, the verifier derives its totals without
    raising, and its cost basis lies between zero and the summed USD cost of
    the lots. *)
Theorem verify_cost_basis_bounds input_data :
  Forall (fun l : InTransaction => 0 < crypto_in l /\ 0 <= usd_in_with_fee l)
    (in_transaction_set input_data) ->
  0 <= crypto_sold_amount_total input_data ->
  exists v,
    verify_totals input_data = Ok v
    /\ 0 <= cost_basis_total_verify v
    /\ cost_basis_total_verify v
       <= Qsum (map usd_in_with_fee (in_transaction_set input_data)).
Proof.
  intros Hlots Hsold. unfold verify_totals.
  assert (Hnz : Forall (fun l : InTransaction => ~ crypto_in l == 0)
                  (in_transaction_set input_data)).
  { eapply Forall_impl; [|exact Hlots]. intros l [Hq _] E. lra. }
  destruct (cost_basis_loop_walk (crypto_sold_amount_total input_data)
              (in_transaction_set input_data) ZERO ZERO Hnz)
    as (t & c & Hrun & Hc).
  rewrite Hrun. cbn [bind]. eexists. split; [reflexivity|].
  cbn [cost_basis_total_verify].
  destruct (cost_basis_by_walk_bounds (in_transaction_set input_data)
              (crypto_sold_amount_total input_data - ZERO) Hlots) as [H1 H2].
  { unfold ZERO. lra. }
  rewrite Hc. unfold ZERO in *. split; lra.
Qed.

(** * The totals of the matcher and [compute_tax] *)

Definition has_lot (g : GainLoss) : bool :=
  match from_lot g with
  | Some _ => true
  | None => false
  end.

Section MatcherTotals.
Variable configuration : Configuration.
Variable all_events : list AbstractTransaction.

(** What is allocated, what the current event still holds and what is to
    come add up to the taxable amounts of all events; likewise for the part
    that is taken from lots. *)
Definition totals_inv (st : LoopState) : Prop :=
  Qsum (map crypto_amount (gain_loss_set st)) + taxable_event_amount st
  + Qsum (map crypto_taxable_amount (taxable_event_iterator st))
  == Qsum (map crypto_taxable_amount all_events)
  /\ total_where has_lot crypto_amount (gain_loss_set st)
     + (if lotless (cur_taxable_event st) then 0 else taxable_event_amount st)
     + taxable_from_lots (taxable_event_iterator st)
     == taxable_from_lots all_events.

Lemma totals_inv_step st st' :
  totals_inv st -> loop_body configuration st = Continue st' -> totals_inv st'.
Proof.
  intros [Ha Hb] H.
  loop_body_cases st H; unfold totals_inv, gain_loss_set_add_entry, lotless in *;
    cbn [cur_taxable_event cur_from_lot taxable_event_iterator from_lot_iterator
         gain_loss_set taxable_event_amount from_lot_amount] in *;
    rewrite map_app, Qsum_app, total_where_snoc;
    cbn [map GainLoss_new crypto_amount has_lot from_lot];
    rewrite ?taxable_from_lots_cons in Hb;
    cbn [map] in Ha; rewrite ?Qsum_cons in Ha;
    unfold lotless in *;
    match goal with
    | Hk : is_EARN (transaction_type _) = _ |- _ => rewrite Hk in Hb; try rewrite Hk
    end;
    try match goal with
        | |- context [is_EARN (transaction_type ?a)] =>
            destruct (is_EARN (transaction_type a))
        end;
    rewrite Qsum_cons; change (Qsum (@nil RP2Decimal)) with 0; split; lra.
Qed.

Lemma totals_inv_stop st gls :
  totals_inv st ->
  loop_body configuration st = StopIteration taxable_event_iterator_id gls ->
  Qsum (map crypto_amount gls) == Qsum (map crypto_taxable_amount all_events)
  /\ total_where has_lot crypto_amount gls == taxable_from_lots all_events.
Proof.
  intros [Ha Hb] H.
  loop_body_cases st H; unfold gain_loss_set_add_entry, lotless in *;
    rewrite map_app, Qsum_app, total_where_snoc;
    cbn [map GainLoss_new crypto_amount has_lot from_lot];
    match goal with
    | Hk : is_EARN (transaction_type _) = _ |- _ => rewrite Hk in Hb
    end;
    change (taxable_from_lots []) with 0 in Hb;
    change (Qsum (map crypto_taxable_amount [])) with 0 in Ha;
    rewrite Qsum_cons; change (Qsum (@nil RP2Decimal)) with 0; split; lra.
Qed.
End MatcherTotals.

Lemma _create_gain_and_loss_set_totals configuration input_data events gls :
  _create_gain_and_loss_set configuration input_data events = Ok gls ->
  Qsum (map crypto_amount gls) == Qsum (map crypto_taxable_amount events)
  /\ total_where has_lot crypto_amount gls == taxable_from_lots events.
Proof.
  intro Hok.
  destruct (_create_gain_and_loss_set_Ok _ _ _ _ Hok)
    as [[-> ->] | (e & events' & l & lots & -> & Hl & Hrun)].
  { split; reflexivity. }
  pose proof (while_true_invariant configuration
                (totals_inv (e :: events'))
                (fun value g =>
                   value = taxable_event_iterator_id ->
                   Qsum (map crypto_amount g)
                   == Qsum (map crypto_taxable_amount (e :: events'))
                   /\ total_where has_lot crypto_amount g
                      == taxable_from_lots (e :: events'))) as Hrule.
  cbv beta in Hrule.
  specialize (Hrule (totals_inv_step configuration _)).
  assert (Hstop : forall st value g,
             totals_inv (e :: events') st ->
             loop_body configuration st = StopIteration value g ->
             value = taxable_event_iterator_id ->
             Qsum (map crypto_amount g)
             == Qsum (map crypto_taxable_amount (e :: events'))
             /\ total_where has_lot crypto_amount g
                == taxable_from_lots (e :: events')).
  { intros st value g Hinv Hbody ->. eapply totals_inv_stop; eassumption. }
  assert (Hinit : totals_inv (e :: events') (initial_state e events' l lots)).
  { unfold totals_inv. cbn [initial_state gain_loss_set taxable_event_amount
      taxable_event_iterator cur_taxable_event map].
    rewrite taxable_from_lots_cons, Qsum_cons. rewrite total_where_nil.
    change (Qsum (@nil RP2Decimal)) with 0. split; lra. }
  specialize (Hrule Hstop _ Hinit). rewrite Hrun in Hrule. apply Hrule. reflexivity.
Qed.

(** X11. The matcher conserves the totals.  The fragments of a returned set
    add up to the taxable crypto amounts of the events, and the fragments
    taken from lots to the taxable amounts of the events that are not
    lotless. *)
Theorem gain_loss_set_conserves_taxable_amount configuration input_data events gls :
  _create_gain_and_loss_set configuration input_data events = Ok gls ->
  Qsum (map crypto_amount gls) == Qsum (map crypto_taxable_amount events)
  /\ total_where has_lot crypto_amount gls == taxable_from_lots events.
Proof. apply _create_gain_and_loss_set_totals. Qed.

(** X12. What a result of [compute_tax] implies.  The summed quantity of the
    lots is not zero and the price per unit times that quantity is the summed
    USD cost; the gain/loss set is what the matcher returns on the extracted
    taxable events; and the taxable crypto amounts of the extracted events
    add up to those of all transactions of the three collections, as the
    verifier has checked. *)
Theorem compute_tax_result long_term_holding_period
  (BalanceSet : Type) (BalanceSet_new : Configuration -> InputData -> Result BalanceSet)
  configuration input_data cd :
  compute_tax long_term_holding_period BalanceSet BalanceSet_new configuration input_data
  = Ok cd ->
  ~ lots_quantity (in_transaction_set input_data) == 0
  /\ cd_price_per_unit cd * lots_quantity (in_transaction_set input_data)
     == Qsum (map usd_in_with_fee (in_transaction_set input_data))
  /\ cd_taxable_event_set cd = _create_taxable_event_set configuration input_data
  /\ _create_gain_and_loss_set configuration input_data (cd_taxable_event_set cd)
     = Ok (cd_gain_loss_set cd)
  /\ Qsum (map crypto_taxable_amount (cd_taxable_event_set cd))
     == Qsum (map crypto_taxable_amount (in_entries input_data))
        + Qsum (map crypto_taxable_amount (out_transaction_set input_data))
        + Qsum (map crypto_taxable_amount (intra_transaction_set input_data)).
Proof.
  unfold compute_tax. cbn zeta.
  destruct (_create_gain_and_loss_set _ _ _) as [gls|e] eqn:Hm; cbn [bind]; [|discriminate].
  destruct (BalanceSet_new _ _) as [bs|e]; cbn [bind]; [|discriminate].
  destruct (_create_yearly_gain_loss_list _ _ _) as [ys|e] eqn:Hy; cbn [bind];
    [|discriminate].
  unfold rp2_div.
  destruct (Qeq_bool (running_sum crypto_in (in_transaction_set input_data) ZERO) 0) eqn:E;
    cbn [bind]; [discriminate|].
  intro H. inversion H; subst; clear H.
  cbn [cd_price_per_unit cd_taxable_event_set cd_gain_loss_set].
  apply Qeq_bool_false in E. rewrite crypto_in_running_sum_quantity in E.
  split; [exact E|]. split.
  - rewrite crypto_in_running_sum_quantity, running_sum_Qsum. unfold ZERO.
    field. exact E.
  - split; [reflexivity|]. split; [exact Hm|].
    destruct (_create_gain_and_loss_set_totals _ _ _ _ Hm) as [Ht _].
    destruct (_create_yearly_gain_loss_list_conserves _ _ _ _ Hy) as [Hc _].
    rewrite <- Ht. exact Hc.
Qed.

(** * Further functions of [configuration.py] *)

(** ** Type checks *)

(** [Configuration.type_check_unique_id]: [non_zero] is left at its default. *)
Definition type_check_unique_id (name value : PyValue) : Result Z :=
  type_check_positive_int name value false.

(** Values the remaining checks look at, next to those of [PyValue]: Python
    booleans and decimals. *)
Inductive PyObject :=
| PyBase (v : PyValue)
| PyBool (b : bool)
| PyDecimal (d : RP2Decimal).

(** [Configuration.type_check_bool] *)
Definition type_check_bool (name : PyValue) (value : PyObject) : Result bool :=
  _ <- type_check_parameter_name name ;;
  match value with
  | PyBool b => Ok b
  | _ => Raise RP2TypeError
  end.

(** [Configuration.type_check_decimal] *)
Definition type_check_decimal (name : PyValue) (value : PyObject) : Result RP2Decimal :=
  _ <- type_check_parameter_name name ;;
  match value with
  | PyDecimal d => Ok d
  | _ => Raise RP2TypeError
  end.

(** [Configuration.type_check_positive_decimal] *)
Definition type_check_positive_decimal (name : PyValue) (value : PyObject)
  (non_zero : bool) : Result RP2Decimal :=
  result <- type_check_decimal name value ;;
  if Qltb result ZERO then Raise RP2ValueError
  else if non_zero && Qeq_bool result ZERO then Raise RP2ValueError
  else Ok result.

(** Membership of a value in a set of strings: only a string can be in it. *)
Definition py_in_strings (value : PyValue) (strings : list string) : bool :=
  match value with
  | PyStr s => if in_dec string_dec s strings then true else false
  | _ => false
  end.

(** [Configuration.type_check_exchange], [type_check_holder] and
    [type_check_asset] *)
Definition type_check_exchange (self : Configuration) (name value : PyValue)
  : Result PyValue :=
  _ <- type_check_string name value ;;
  if negb (py_in_strings value (exchanges self)) then Raise RP2ValueError
  else Ok value.

Definition type_check_holder (self : Configuration) (name value : PyValue)
  : Result PyValue :=
  _ <- type_check_string name value ;;
  if negb (py_in_strings value (holders self)) then Raise RP2ValueError
  else Ok value.

Definition type_check_asset (self : Configuration) (name value : PyValue)
  : Result PyValue :=
  _ <- type_check_string name value ;;
  if negb (py_in_strings value (assets self)) then Raise RP2ValueError
  else Ok value.

Lemma type_check_positive_int_eq name value non_zero :
  type_check_positive_int name value non_zero =
  match name, value with
  | PyStr _, PyInt z =>
      if (z <? 0)%Z then Raise RP2ValueError
      else if non_zero && (z =? 0)%Z then Raise RP2ValueError
      else Ok z
  | _, _ => Raise RP2TypeError
  end.
Proof. destruct name, value; reflexivity. Qed.

(** Closes the cases of an outcome characterisation. *)
Ltac outcome_cases :=
  repeat match goal with
         | H : exists _, _ |- _ => destruct H
         | H : _ /\ _ |- _ => destruct H
         | H : _ \/ _ |- _ => destruct H
         | H : Ok _ = Ok _ |- _ => inversion H; clear H; subst
         | H : PyInt _ = PyInt _ |- _ => inversion H; clear H; subst
         | H : PyStr _ = PyStr _ |- _ => inversion H; clear H; subst
         | H : PyDecimal _ = PyDecimal _ |- _ => inversion H; clear H; subst
         end;
  try discriminate; try congruence; try lia; try reflexivity;
  try solve [ eexists; reflexivity ];
  try solve [ exfalso; match goal with H : ~ _ |- _ => apply H; eexists; reflexivity end ];
  try solve [ left; intros [? ?]; discriminate ];
  try solve [ right; intros [? ?]; discriminate ];
  try solve [ eexists; split; [reflexivity|]; first [ left; lia | right; split; [reflexivity | lia] ] ];
  try solve [ match goal with H : true = true -> _ |- _ => specialize (H eq_refl); lia end ].

(** X13. [type_check_positive_int] returns exactly the integers that are not
    negative, and not zero when [non_zero] is set; a name that is no string
    or a value that is no integer raises [RP2TypeError], every other
    rejected value [RP2ValueError].  Zero is therefore accepted unless
    [non_zero] is set, as in [type_check_unique_id]. *)
Theorem type_check_positive_int_outcome name value non_zero :
  (forall z, type_check_positive_int name value non_zero = Ok z
             <-> (exists s, name = PyStr s) /\ value = PyInt z
                 /\ (0 <= z)%Z /\ (non_zero = true -> z <> 0%Z))
  /\ (type_check_positive_int name value non_zero = Raise RP2TypeError
      <-> ~ (exists s, name = PyStr s) \/ ~ (exists z, value = PyInt z))
  /\ (type_check_positive_int name value non_zero = Raise RP2ValueError
      <-> (exists s, name = PyStr s)
          /\ exists z, value = PyInt z
                       /\ ((z < 0)%Z \/ (non_zero = true /\ z = 0%Z)))
  /\ (forall s, type_check_unique_id (PyStr s) (PyInt 0) = Ok 0%Z).
Proof.
  rewrite !type_check_positive_int_eq.
  destruct name as [| s | n | m]; destruct value as [| v | z | m'];
    try solve [ repeat split; intros; outcome_cases ].
  destruct (z <? 0)%Z eqn:Elt;
    [apply Z.ltb_lt in Elt | apply Z.ltb_ge in Elt];
    destruct non_zero; cbn [andb];
    try (destruct (z =? 0)%Z eqn:Ez;
         [apply Z.eqb_eq in Ez | apply Z.eqb_neq in Ez]);
    repeat split; intros; outcome_cases.
Qed.

Lemma type_check_positive_decimal_eq name value non_zero :
  type_check_positive_decimal name value non_zero =
  match name, value with
  | PyStr _, PyDecimal d =>
      if Qltb d ZERO then Raise RP2ValueError
      else if non_zero && Qeq_bool d ZERO then Raise RP2ValueError
      else Ok d
  | _, _ => Raise RP2TypeError
  end.
Proof. destruct name, value; reflexivity. Qed.

(** X14. [type_check_positive_decimal] returns the decimal it is given, and
    only when that is not negative, and not zero when [non_zero] is set; so
    a quantity checked with [non_zero] is positive.  A name that is no
    string or a value that is no decimal raises [RP2TypeError], a decimal
    that is rejected [RP2ValueError]. *)
Theorem type_check_positive_decimal_outcome name value non_zero :
  (forall d, type_check_positive_decimal name value non_zero = Ok d
             <-> (exists s, name = PyStr s) /\ value = PyDecimal d
                 /\ 0 <= d /\ (non_zero = true -> ~ d == 0))
  /\ (forall d, type_check_positive_decimal name value true = Ok d -> 0 < d)
  /\ (type_check_positive_decimal name value non_zero = Raise RP2TypeError
      <-> ~ (exists s, name = PyStr s) \/ ~ (exists d, value = PyDecimal d))
  /\ (type_check_positive_decimal name value non_zero = Raise RP2ValueError
      <-> (exists s, name = PyStr s)
          /\ exists d, value = PyDecimal d
                       /\ (d < 0 \/ (non_zero = true /\ d == 0))).
Proof.
  rewrite !type_check_positive_decimal_eq. unfold ZERO.
  destruct name as [| s | n | m]; destruct value as [v | b | d];
    try solve [ repeat split; intros; outcome_cases ].
  cbn [andb].
  destruct (Qltb d 0) eqn:Elt; [apply Qltb_true in Elt | apply Qltb_false in Elt];
    (destruct (Qeq_bool d 0) eqn:Ez;
     [apply Qeq_bool_iff in Ez | apply Qeq_bool_false in Ez]);
    destruct non_zero; cbn [andb];
    repeat match goal with |- _ /\ _ => split | |- _ <-> _ => split | |- forall _, _ => intro end;
    outcome_cases;
    try lra; try contradiction;
    try solve [ repeat split; try (eexists; reflexivity); try assumption; try discriminate; try lra ];
    try solve [ apply Qle_neq_lt; assumption ];
    try solve [ split; [eexists; reflexivity|]; eexists; split; [reflexivity|];
                first [ left; assumption | right; split; [reflexivity | assumption] ] ];
    try solve [ exfalso; match goal with H : true = true -> _ |- _ => apply (H eq_refl); assumption end ];
    try solve [ eexists; split; [reflexivity|];
                first [ left; assumption | right; split; [reflexivity | assumption] ] ].
Qed.

Lemma Configuration_init_FIFO fs configuration_path up_to_year :
  Configuration_init fs configuration_path FIFO up_to_year =
  match up_to_year with
  | Some z =>
      if (z <? 0)%Z then Raise RP2ValueError
      else if negb (path_exists fs configuration_path) then Raise RP2ValueError
      else
        json <- load_and_validate fs configuration_path ;;
        Ok {| configuration_path := configuration_path;
              accounting_method := FIFO;
              up_to_year := Some z;
              assets := json_assets json;
              exchanges := json_exchanges json;
              holders := json_holders json |}
  | None =>
      if negb (path_exists fs configuration_path) then Raise RP2ValueError
      else
        json <- load_and_validate fs configuration_path ;;
        Ok {| configuration_path := configuration_path;
              accounting_method := FIFO;
              up_to_year := None;
              assets := json_assets json;
              exchanges := json_exchanges json;
              holders := json_holders json |}
  end.
Proof.
  unfold Configuration_init.
  change (type_check_string (PyStr "configuration_path") (PyStr configuration_path))
    with (Ok (PyStr configuration_path)).
  change (AccountingMethod_type_check (PyStr "accounting_method")
            (PyAccountingMethod FIFO)) with (Ok FIFO).
  cbn [bind].
  destruct up_to_year as [z|]; cbn [truthy_up_to_year py_of_option_int]; [|reflexivity].
  destruct (z =? 0)%Z eqn:Ez; cbn [negb].
  - apply Z.eqb_eq in Ez. subst z. reflexivity.
  - rewrite type_check_positive_int_eq. cbn [andb]. rewrite Ez.
    destruct (z <? 0)%Z; reflexivity.
Qed.

(** X15. What [Configuration.__init__] does with FIFO.  A negative
    [up_to_year] raises [RP2ValueError] before the file is looked at, and so
    does a path that does not exist.  A configuration that is constructed
    holds the path and the [up_to_year] it was given, which is never
    negative, and the assets, exchanges and holders of the file; zero passes
    as [up_to_year], although the check it would get asks for non-zero. *)
Theorem Configuration_init_outcome fs path year :
  (forall z, year = Some z -> (z < 0)%Z ->
     Configuration_init fs path FIFO year = Raise RP2ValueError)
  /\ (path_exists fs path = false ->
      Configuration_init fs path FIFO year = Raise RP2ValueError)
  /\ (forall c,
        Configuration_init fs path FIFO year = Ok c ->
        configuration_path c = path
        /\ up_to_year c = year
        /\ (forall z, year = Some z -> (0 <= z)%Z)
        /\ path_exists fs path = true
        /\ exists json,
             load_and_validate fs path = Ok json
             /\ assets c = json_assets json
             /\ exchanges c = json_exchanges json
             /\ holders c = json_holders json)
  /\ (forall json,
        year = Some 0%Z ->
        path_exists fs path = true ->
        load_and_validate fs path = Ok json ->
        exists c, Configuration_init fs path FIFO year = Ok c
                  /\ up_to_year c = Some 0%Z).
Proof.
  rewrite !Configuration_init_FIFO.
  split; [|split; [|split]].
  - intros z -> Hz. apply Z.ltb_lt in Hz. rewrite Hz. reflexivity.
  - intro Hp. rewrite Hp. cbn [negb].
    destruct year as [z|]; [destruct (z <? 0)%Z|]; reflexivity.
  - intros c.
    destruct year as [z|].
    + destruct (z <? 0)%Z eqn:Ez; [discriminate|]. apply Z.ltb_ge in Ez.
      destruct (path_exists fs path); cbn [negb]; [|discriminate].
      destruct (load_and_validate fs path) as [json|e]; cbn [bind]; [|discriminate].
      intro E. inversion E; subst; clear E. cbn.
      repeat split.
      * intros z' Hz'. inversion Hz'; subst. exact Ez.
      * exists json. repeat split.
    + destruct (path_exists fs path); cbn [negb]; [|discriminate].
      destruct (load_and_validate fs path) as [json|e]; cbn [bind]; [|discriminate].
      intro E. inversion E; subst; clear E. cbn.
      repeat split.
      * intros z' Hz'. discriminate.
      * exists json. repeat split.
  - intros json -> Hp Hl. cbn. rewrite Hp, Hl. cbn. eexists. split; reflexivity.
Qed.

Lemma py_in_strings_true value strings :
  py_in_strings value strings = true <-> exists s, value = PyStr s /\ In s strings.
Proof.
  unfold py_in_strings. destruct value as [| s | z | m];
    try (split; [discriminate | intros (s & Hs & _); discriminate]).
  destruct (in_dec string_dec s strings) as [Hin|Hnin]; split; intro H.
  - exists s. split; [reflexivity | exact Hin].
  - reflexivity.
  - discriminate.
  - destruct H as (s' & Hs & Hin). inversion Hs; subst. contradiction.
Qed.

(** The outcome of a membership check against a set of strings. *)
Lemma member_check_outcome strings name value :
  let check :=
    _ <- type_check_string name value ;;
    if negb (py_in_strings value strings) then Raise RP2ValueError else Ok value in
  (forall v, check = Ok v
             <-> v = value /\ (exists s, name = PyStr s)
                 /\ exists a, value = PyStr a /\ In a strings)
  /\ (check = Raise RP2ValueError
      <-> (exists s, name = PyStr s)
          /\ exists a, value = PyStr a /\ ~ In a strings)
  /\ (check = Raise RP2TypeError
      <-> ~ (exists s, name = PyStr s) \/ ~ (exists a, value = PyStr a)).
Proof.
  cbn zeta. unfold type_check_string, type_check_parameter_name.
  destruct name as [| s | n | m]; cbn [bind];
    try solve [ repeat split; intros; outcome_cases ].
  destruct value as [| a | z | m]; cbn [bind];
    try solve [ repeat split; intros; outcome_cases ].
  unfold py_in_strings.
  destruct (in_dec string_dec a strings) as [Hin|Hnin]; cbn [negb];
    repeat split; intros; outcome_cases; try contradiction;
    try solve [ eexists; split; [reflexivity | assumption] ].
Qed.

(** X16. The assets, exchanges and holders a constructed configuration
    accepts are exactly those of its file.  After [Configuration.__init__]
    has returned, [type_check_asset] returns a value exactly when it is a
    string listed under the file's assets, raises [RP2ValueError] for any
    other string and [RP2TypeError] for what is no string; likewise
    [type_check_exchange] and [type_check_holder]. *)
Theorem constructed_configuration_accepts_listed fs path method year c :
  Configuration_init fs path method year = Ok c ->
  exists json,
    load_and_validate fs path = Ok json
    /\ (forall s a, type_check_asset c (PyStr s) (PyStr a) = Ok (PyStr a)
                    <-> In a (json_assets json))
    /\ (forall s a, type_check_exchange c (PyStr s) (PyStr a) = Ok (PyStr a)
                    <-> In a (json_exchanges json))
    /\ (forall s a, type_check_holder c (PyStr s) (PyStr a) = Ok (PyStr a)
                    <-> In a (json_holders json))
    /\ (forall s a, ~ In a (json_assets json) ->
                    type_check_asset c (PyStr s) (PyStr a) = Raise RP2ValueError)
    /\ (forall s z, type_check_asset c (PyStr s) (PyInt z) = Raise RP2TypeError).
Proof.
  intro Hok.
  assert (Hjson : exists json,
             load_and_validate fs path = Ok json
             /\ assets c = json_assets json
             /\ exchanges c = json_exchanges json
             /\ holders c = json_holders json).
  { destruct method; [|discriminate].
    rewrite Configuration_init_FIFO in Hok.
    destruct year as [z|];
      [destruct (z <? 0)%Z; [discriminate|]|];
      (destruct (negb (path_exists fs path)); [discriminate|];
       destruct (load_and_validate fs path) as [json|e]; cbn [bind] in Hok;
       [|discriminate];
       inversion Hok; subst; exists json; repeat split). }
  destruct Hjson as (json & Hload & Ha & He & Hh).
  exists json. split; [exact Hload|].
  unfold type_check_asset, type_check_exchange, type_check_holder.
  rewrite Ha, He, Hh.
  split; [|split; [|split; [|split]]].
  - intros s a.
    destruct (member_check_outcome (json_assets json) (PyStr s) (PyStr a)) as (H1 & _).
    cbv zeta in H1. rewrite H1. split; intros; outcome_cases.
    repeat split; try (eexists; reflexivity). eexists. split; [reflexivity | assumption].
  - intros s a.
    destruct (member_check_outcome (json_exchanges json) (PyStr s) (PyStr a)) as (H1 & _).
    cbv zeta in H1. rewrite H1. split; intros; outcome_cases.
    repeat split; try (eexists; reflexivity). eexists. split; [reflexivity | assumption].
  - intros s a.
    destruct (member_check_outcome (json_holders json) (PyStr s) (PyStr a)) as (H1 & _).
    cbv zeta in H1. rewrite H1. split; intros; outcome_cases.
    repeat split; try (eexists; reflexivity). eexists. split; [reflexivity | assumption].
  - intros s a Hnot.
    destruct (member_check_outcome (json_assets json) (PyStr s) (PyStr a)) as (_ & H2 & _).
    cbv zeta in H2. apply H2. split; [eexists; reflexivity|].
    eexists. split; [reflexivity | exact Hnot].
  - intros s z. reflexivity.
Qed.

(** ** Table headers and argument packs *)

(** What the table functions can raise: an RP2 error, or one of Python's
    own [ValueError] (from [max] on an empty dictionary) and [IndexError]
    (from indexing the data). *)
Inductive Raised :=
| RaisedError (e : PyError)
| ValueError
| IndexError.

Inductive Outcome (A : Type) :=
| Returns (a : A)
| Raises (r : Raised).
Arguments Returns {A} a.
Arguments Raises {A} r.

(** A header: a Python [dict] from argument names to column positions, as
    its items in insertion order. *)
Definition Header := list (string * Z).

Fixpoint header_get (header : Header) (key : string) : option Z :=
  match header with
  | [] => None
  | (k, position) :: header' =>
      if string_dec key k then Some position else header_get header' key
  end.

(** [header[max(header, key=header.get)]]: the value of the first key whose
    value is largest; [None] when [max] raises on an empty dictionary. *)
Definition max_column (header : Header) : option Z :=
  match header with
  | [] => None
  | item :: header' =>
      Some (snd (fold_left
                   (fun best item' => if (snd best <? snd item')%Z then item' else best)
                   header' item))
  end.

(** [data[position]], with Python's negative indices. *)
Definition py_index {A} (data : list A) (position : Z) : option A :=
  let n := Z.of_nat (List.length data) in
  if (0 <=? position)%Z then nth_error data (Z.to_nat position)
  else if (- n <=? position)%Z then nth_error data (Z.to_nat (n + position))
  else None.

(** The dictionary comprehension [{argument: data[position] for ...}]. *)
Fixpoint pack_items {A} (data : list A) (items : Header) : Outcome (list (string * A)) :=
  match items with
  | [] => Returns []
  | (argument, position) :: items' =>
      match py_index data position with
      | None => Raises IndexError
      | Some x =>
          match pack_items data items' with
          | Returns pack => Returns ((argument, x) :: pack)
          | Raises r => Raises r
          end
      end
  end.

(** [Configuration.__get_table_constructor_argument_pack]; [data] is a list
    by its type. *)
Definition __get_table_constructor_argument_pack {A} (data : list A)
  (table_type : string) (header : Header) : Outcome (list (string * A)) :=
  match max_column header with
  | None => Raises ValueError
  | Some max_column =>
      if (Z.of_nat (List.length data) <=? max_column)%Z
      then Raises (RaisedError RP2ValueError)
      else pack_items data header
  end.

(** The three header dictionaries of a configuration object. *)
Record ConfigurationHeaders := {
  in_header : Header;
  out_header : Header;
  intra_header : Header
}.

Definition get_in_table_constructor_argument_pack {A} (self : ConfigurationHeaders)
  (data : list A) : Outcome (list (string * A)) :=
  __get_table_constructor_argument_pack data "in" (in_header self).

Definition get_out_table_constructor_argument_pack {A} (self : ConfigurationHeaders)
  (data : list A) : Outcome (list (string * A)) :=
  __get_table_constructor_argument_pack data "out" (out_header self).

Definition get_intra_table_constructor_argument_pack {A} (self : ConfigurationHeaders)
  (data : list A) : Outcome (list (string * A)) :=
  __get_table_constructor_argument_pack data "intra" (intra_header self).

(** The lookup of [input_parameter] in a header, after the string check. *)
Definition column_position (header : Header) (input_parameter : PyValue) : Result Z :=
  _ <- type_check_string (PyStr "input_parameter") input_parameter ;;
  match input_parameter with
  | PyStr key =>
      match header_get header key with
      | None => Raise RP2ValueError
      | Some position => Ok position
      end
  | _ => Raise RP2ValueError
  end.

Definition get_in_table_column_position (self : ConfigurationHeaders)
  (input_parameter : PyValue) : Result Z :=
  column_position (in_header self) input_parameter.

Definition get_out_table_column_position (self : ConfigurationHeaders)
  (input_parameter : PyValue) : Result Z :=
  column_position (out_header self) input_parameter.

Definition get_intra_table_column_position (self : ConfigurationHeaders)
  (input_parameter : PyValue) : Result Z :=
  column_position (intra_header self) input_parameter.

(** The argument pack as a dictionary: lookup of an argument. *)
Fixpoint pack_get {A} (pack : list (string * A)) (key : string) : option A :=
  match pack with
  | [] => None
  | (k, x) :: pack' => if string_dec key k then Some x else pack_get pack' key
  end.

Lemma max_fold_spec (rest : Header) (best : string * Z) :
  let r := fold_left (fun b item => if (snd b <? snd item)%Z then item else b) rest best in
  (snd best <= snd r)%Z
  /\ (forall item, In item rest -> (snd item <= snd r)%Z)
  /\ (r = best \/ In r rest).
Proof.
  revert best. induction rest as [|item rest IH]; intro best; cbn [fold_left].
  - split; [lia|]. split; [intros item [] | now left].
  - destruct (snd best <? snd item)%Z eqn:E.
    + apply Z.ltb_lt in E. destruct (IH item) as (H1 & H2 & H3).
      split; [lia|]. split.
      * intros it [<-|Hin]; [exact H1 | apply H2; exact Hin].
      * right. destruct H3 as [->|H3]; [now left | now right].
    + apply Z.ltb_ge in E. destruct (IH best) as (H1 & H2 & H3).
      split; [exact H1|]. split.
      * intros it [<-|Hin]; [lia | apply H2; exact Hin].
      * destruct H3 as [H3|H3]; [now left | right; now right].
Qed.

Lemma max_column_spec header :
  header <> [] ->
  exists m,
    max_column header = Some m
    /\ (forall item, In item header -> (snd item <= m)%Z)
    /\ (exists k, In (k, m) header).
Proof.
  destruct header as [|item header]; [congruence|]. intros _.
  cbn [max_column]. destruct (max_fold_spec header item) as (H1 & H2 & H3).
  cbv zeta in H1, H2, H3. eexists. split; [reflexivity|]. split.
  - intros it [<-|Hin]; [exact H1 | apply H2; exact Hin].
  - set (r := fold_left _ header item) in *. exists (fst r).
    rewrite <- surjective_pairing.
    destruct H3 as [->|H3]; [now left | now right].
Qed.

Lemma py_index_in_range {A} (data : list A) position :
  (0 <= position < Z.of_nat (List.length data))%Z ->
  exists x, py_index data position = Some x
            /\ nth_error data (Z.to_nat position) = Some x.
Proof.
  intros [H0 H1]. unfold py_index.
  destruct (0 <=? position)%Z eqn:E; [|apply Z.leb_gt in E; lia].
  destruct (nth_error data (Z.to_nat position)) as [x|] eqn:En.
  - exists x. split; reflexivity.
  - apply nth_error_None in En. lia.
Qed.

(** Each entry of the pack has its header item's argument and the datum at
    that item's position. *)
Definition packed {A} (data : list A) (item : string * Z) (entry : string * A) : Prop :=
  fst entry = fst item /\ nth_error data (Z.to_nat (snd item)) = Some (snd entry).

Lemma pack_items_in_range {A} (data : list A) items :
  Forall (fun item => (0 <= snd item < Z.of_nat (List.length data))%Z) items ->
  exists pack, pack_items data items = Returns pack /\ Forall2 (packed data) items pack.
Proof.
  induction 1 as [|[k p] items Hp _ IH]; cbn [pack_items].
  - exists []. split; [reflexivity | constructor].
  - destruct (py_index_in_range data p Hp) as (x & Hx & Hn). rewrite Hx.
    destruct IH as (pack & Hpack & Hall). rewrite Hpack.
    exists ((k, x) :: pack). split; [reflexivity|].
    constructor; [split; [reflexivity | exact Hn] | exact Hall].
Qed.

(** X17. The argument pack of a table row.  An empty header makes [max]
    raise [ValueError].  Otherwise, with column positions that are not
    negative, the function raises [RP2ValueError] exactly when the row is not
    longer than the largest position, and else returns a pack with one entry
    per header item, in the header's order, holding the datum at the item's
    position: past the length check no index is out of range. *)
Theorem argument_pack_outcome {A} (data : list A) table_type (header : Header) :
  (header = [] ->
   __get_table_constructor_argument_pack data table_type header = Raises ValueError)
  /\ (header <> [] ->
      Forall (fun item => (0 <= snd item)%Z) header ->
      exists m,
        max_column header = Some m
        /\ (forall item, In item header -> (snd item <= m)%Z)
        /\ (__get_table_constructor_argument_pack data table_type header
            = Raises (RaisedError RP2ValueError)
            <-> (Z.of_nat (List.length data) <= m)%Z)
        /\ ((m < Z.of_nat (List.length data))%Z ->
            exists pack,
              __get_table_constructor_argument_pack data table_type header
              = Returns pack
              /\ Forall2 (packed data) header pack)).
Proof.
  split.
  - intros ->. reflexivity.
  - intros Hne Hpos.
    destruct (max_column_spec header Hne) as (m & Hm & Hmax & _).
    exists m. split; [exact Hm|]. split; [exact Hmax|].
    unfold __get_table_constructor_argument_pack. rewrite Hm.
    assert (Hpack : (m < Z.of_nat (List.length data))%Z ->
              exists pack, pack_items data header = Returns pack
                           /\ Forall2 (packed data) header pack).
    { intro Hlt. apply pack_items_in_range.
      rewrite Forall_forall in *. intros item Hin.
      specialize (Hpos item Hin). specialize (Hmax item Hin). lia. }
    destruct (Z.of_nat (List.length data) <=? m)%Z eqn:E.
    + apply Z.leb_le in E. split; [split; [intros _; exact E | reflexivity]|]. lia.
    + apply Z.leb_gt in E. split.
      * split; [|lia]. destruct (Hpack E) as (pack & Hp & _). rewrite Hp. discriminate.
      * intros _. exact (Hpack E).
Qed.

Lemma pack_items_lookup {A} (data : list A) items pack key :
  pack_items data items = Returns pack ->
  match header_get items key with
  | None => pack_get pack key = None
  | Some position =>
      exists x, pack_get pack key = Some x /\ py_index data position = Some x
  end.
Proof.
  revert pack. induction items as [|[k p] items IH]; intros pack Hpack;
    cbn [pack_items header_get] in *.
  - inversion Hpack. reflexivity.
  - destruct (py_index data p) as [x|] eqn:Hx; [|discriminate].
    destruct (pack_items data items) as [pack'|r]; [|discriminate].
    inversion Hpack; subst; clear Hpack. cbn [pack_get].
    destruct (string_dec key k) as [->|Hne].
    + exists x. split; [reflexivity | exact Hx].
    + apply IH. reflexivity.
Qed.

Lemma argument_pack_Returns {A} (data : list A) table_type header pack :
  __get_table_constructor_argument_pack data table_type header = Returns pack ->
  pack_items data header = Returns pack.
Proof.
  unfold __get_table_constructor_argument_pack.
  destruct (max_column header) as [m|]; [|discriminate].
  destruct (Z.of_nat (List.length data) <=? m)%Z; [discriminate | trivial].
Qed.

Lemma column_position_pack {A} (data : list A) table_type header pack key :
  __get_table_constructor_argument_pack data table_type header = Returns pack ->
  (column_position header (PyStr key) = Raise RP2ValueError
   /\ pack_get pack key = None)
  \/ (exists position x,
        column_position header (PyStr key) = Ok position
        /\ pack_get pack key = Some x
        /\ py_index data position = Some x).
Proof.
  intro Hpack. apply argument_pack_Returns in Hpack.
  pose proof (pack_items_lookup data header pack key Hpack) as Hlook.
  unfold column_position. cbn [type_check_string type_check_parameter_name bind].
  destruct (header_get header key) as [p|].
  - right. destruct Hlook as (x & Hx & Hi). exists p, x. repeat split; assumption.
  - left. split; [reflexivity | exact Hlook].
Qed.

(** X18. Column positions and argument packs agree.  When the pack of a row
    has been built, every argument for which [get_in_table_column_position]
    returns a position is in the pack with the datum at that position of the
    row, and every argument for which it raises [RP2ValueError] is not in the
    pack; likewise for the out and intra tables.  What is no string raises
    [RP2TypeError]. *)
Theorem column_position_matches_pack {A} (self : ConfigurationHeaders)
  (data : list A) key :
  (forall pack,
      get_in_table_constructor_argument_pack self data = Returns pack ->
      (get_in_table_column_position self (PyStr key) = Raise RP2ValueError
       /\ pack_get pack key = None)
      \/ (exists position x,
            get_in_table_column_position self (PyStr key) = Ok position
            /\ pack_get pack key = Some x
            /\ py_index data position = Some x))
  /\ (forall pack,
        get_out_table_constructor_argument_pack self data = Returns pack ->
        (get_out_table_column_position self (PyStr key) = Raise RP2ValueError
         /\ pack_get pack key = None)
        \/ (exists position x,
              get_out_table_column_position self (PyStr key) = Ok position
              /\ pack_get pack key = Some x
              /\ py_index data position = Some x))
  /\ (forall pack,
        get_intra_table_constructor_argument_pack self data = Returns pack ->
        (get_intra_table_column_position self (PyStr key) = Raise RP2ValueError
         /\ pack_get pack key = None)
        \/ (exists position x,
              get_intra_table_column_position self (PyStr key) = Ok position
              /\ pack_get pack key = Some x
              /\ py_index data position = Some x))
  /\ (forall z, get_in_table_column_position self (PyInt z) = Raise RP2TypeError).
Proof.
  split; [|split; [|split]].
  - intros pack. apply column_position_pack.
  - intros pack. apply column_position_pack.
  - intros pack. apply column_position_pack.
  - intro z. reflexivity.
Qed.

(** ** [Configuration.to_string] *)

(** [s * n] on strings: nothing for a count that is not positive. *)
Fixpoint string_repeat (s : string) (n : nat) : string :=
  match n with
  | O => ""
  | S n' => s ++ string_repeat s n'
  end%string.

Definition py_str_mul (s : string) (n : Z) : string := string_repeat s (Z.to_nat n).

(** [separator.join(output)] *)
Fixpoint join (separator : string) (output : list string) : string :=
  match output with
  | [] => ""
  | [line] => line
  | line :: output' => line ++ separator ++ join separator output'
  end%string.

Definition newline : string := String (ascii_of_nat 10) EmptyString.

(** [output[-1] += ")"] *)
Fixpoint close_last (output : list string) : list string :=
  match output with
  | [] => []
  | [line] => [(line ++ ")")%string]
  | line :: output' => line :: close_last output'
  end.

(** [Configuration.to_string].  The list [data] is the caller's, and in repr
    mode its first element is assigned to: the result is the returned string
    together with the list as the call leaves it. *)
Definition to_string (indent : Z) (repr_format : bool) (data : option (list string))
  : string * option (list string) :=
  match data with
  | None => (""%string, data)
  | Some [] => (""%string, data)
  | Some (first :: rest) =>
      if repr_format then
        let padding := ""%string in
        let separator := ", "%string in
        let data' := (py_str_mul "  " indent ++ first)%string :: rest in
        let output := map (fun line => (padding ++ line)%string) data' in
        (join separator (close_last output), Some data')
      else
        let padding := py_str_mul "  " indent in
        let separator := (newline ++ "  ")%string in
        let output := map (fun line => (padding ++ line)%string) (first :: rest) in
        (join separator output, data)
  end.

Lemma string_app_assoc (a b c : string) : ((a ++ b) ++ c = a ++ (b ++ c))%string.
Proof. induction a as [|ch a IH]; cbn; [reflexivity | rewrite IH; reflexivity]. Qed.

Lemma join_close_last separator output :
  output <> [] ->
  join separator (close_last output) = (join separator output ++ ")")%string.
Proof.
  induction output as [|line output IH]; [congruence|]. intros _.
  destruct output as [|line' output].
  - reflexivity.
  - change (close_last (line :: line' :: output))
      with (line :: close_last (line' :: output)).
    assert (Hne : close_last (line' :: output) <> []).
    { destruct output; cbn; discriminate. }
    destruct (close_last (line' :: output)) as [|c cs] eqn:Ec; [congruence|].
    change (join separator (line :: c :: cs))
      with (line ++ separator ++ join separator (c :: cs))%string.
    rewrite IH by discriminate.
    change (join separator (line :: line' :: output))
      with (line ++ separator ++ join separator (line' :: output))%string.
    rewrite !string_app_assoc. reflexivity.
Qed.

Lemma map_empty_padding (l : list string) : map (fun line => (""  ++ line)%string) l = l.
Proof. induction l as [|x l IH]; cbn [map]; [reflexivity | rewrite IH; reflexivity]. Qed.

Lemma join_first separator padding first rest :
  join separator ((padding ++ first)%string :: rest)
  = (padding ++ join separator (first :: rest))%string.
Proof.
  destruct rest as [|line rest]; [reflexivity|].
  change (join separator ((padding ++ first)%string :: line :: rest))
    with ((padding ++ first) ++ separator ++ join separator (line :: rest))%string.
  rewrite string_app_assoc. reflexivity.
Qed.

(** X19. [to_string] on fields.  Without fields the text is empty.  In repr
    mode the text is the indentation, the fields joined by a comma and a
    space, and a closing parenthesis, and the call leaves the caller's list
    with the indentation written into its first element, so that a second
    call on the same list indents once more.  In str mode the list is left
    as it is. *)
Theorem to_string_outcome indent first rest :
  (forall repr_format,
      to_string indent repr_format None = (""%string, None)
      /\ to_string indent repr_format (Some []) = (""%string, Some []))
  /\ to_string indent true (Some (first :: rest))
     = ((py_str_mul "  " indent ++ join ", " (first :: rest) ++ ")")%string,
        Some ((py_str_mul "  " indent ++ first)%string :: rest))
  /\ fst (to_string indent true (snd (to_string indent true (Some (first :: rest)))))
     = (py_str_mul "  " indent
        ++ fst (to_string indent true (Some (first :: rest))))%string
  /\ snd (to_string indent false (Some (first :: rest))) = Some (first :: rest).
Proof.
  assert (Hrepr : forall f r,
             to_string indent true (Some (f :: r))
             = ((py_str_mul "  " indent ++ join ", " (f :: r) ++ ")")%string,
                Some ((py_str_mul "  " indent ++ f)%string :: r))).
  { intros f r. unfold to_string. cbv beta iota zeta.
    rewrite map_empty_padding, join_close_last by discriminate.
    rewrite join_first, string_app_assoc. reflexivity. }
  split; [intro repr_format; split; reflexivity|].
  split; [apply Hrepr|]. split; [|reflexivity].
  rewrite (Hrepr first rest). cbn [fst snd]. rewrite Hrepr. cbn [fst].
  rewrite join_first, !string_app_assoc. reflexivity.
Qed.

(** * The further properties on the scenarios *)

Lemma ex_two_lots_run :
  _create_gain_and_loss_set ex_configuration ex_two_lots [ex_sell 3 8 100]
  = Ok ex_two_lots_gain_loss_set.
Proof. vm_compute. reflexivity. Defined.

Lemma ex_two_lots_distinct : NoDup (in_transaction_set ex_two_lots).
Proof. repeat constructor; cbn; intuition discriminate. Defined.

Lemma ex_two_lots_nonneg :
  Forall (fun l : InTransaction => 0 <= crypto_in l) (in_transaction_set ex_two_lots).
Proof. repeat constructor; discriminate. Defined.

Lemma ex_two_lots_positive :
  Forall (fun l : InTransaction => 0 < crypto_in l) (in_transaction_set ex_two_lots).
Proof. repeat constructor. Defined.

Lemma lots_consumed_first_in_first_out_witness :
  NoDup (in_transaction_set ex_two_lots)
  /\ Forall (fun l : InTransaction => 0 <= crypto_in l) (in_transaction_set ex_two_lots)
  /\ _create_gain_and_loss_set ex_configuration ex_two_lots [ex_sell 3 8 100]
     = Ok ex_two_lots_gain_loss_set
  /\ consumed_in_order (in_transaction_set ex_two_lots) ex_two_lots_gain_loss_set.
Proof.
  split; [exact ex_two_lots_distinct|]. split; [exact ex_two_lots_nonneg|].
  split; [exact ex_two_lots_run|].
  exact (lots_consumed_first_in_first_out ex_configuration ex_two_lots
           [ex_sell 3 8 100] ex_two_lots_gain_loss_set
           ex_two_lots_distinct ex_two_lots_nonneg ex_two_lots_run).
Defined.

Lemma gain_loss_records_follow_events_witness :
  _create_gain_and_loss_set ex_configuration ex_two_lots [ex_sell 3 8 100]
  = Ok ex_two_lots_gain_loss_set
  /\ exists counts,
      List.length counts = List.length [ex_sell 3 8 100]
      /\ Forall (fun n => 1 <= n)%nat counts
      /\ map taxable_event ex_two_lots_gain_loss_set
         = repeated [ex_sell 3 8 100] counts.
Proof.
  split; [exact ex_two_lots_run|].
  exact (gain_loss_records_follow_events ex_configuration ex_two_lots
           [ex_sell 3 8 100] ex_two_lots_gain_loss_set ex_two_lots_run).
Defined.

Lemma gain_loss_records_from_inputs_witness :
  _create_gain_and_loss_set ex_configuration ex_two_lots [ex_sell 3 8 100]
  = Ok ex_two_lots_gain_loss_set
  /\ Forall (record_from [ex_sell 3 8 100] (in_transaction_set ex_two_lots))
       ex_two_lots_gain_loss_set.
Proof.
  split; [exact ex_two_lots_run|].
  exact (gain_loss_records_from_inputs ex_configuration ex_two_lots
           [ex_sell 3 8 100] ex_two_lots_gain_loss_set ex_two_lots_run).
Defined.

Lemma gain_loss_set_size_witness :
  _create_gain_and_loss_set ex_configuration ex_two_lots [ex_sell 3 8 100]
  = Ok ex_two_lots_gain_loss_set
  /\ [ex_sell 3 8 100] <> []
  /\ (List.length [ex_sell 3%Z 8%Q 100%Q] <= List.length ex_two_lots_gain_loss_set)%nat
  /\ in_transaction_set ex_two_lots <> []
  /\ (List.length ex_two_lots_gain_loss_set
      < List.length [ex_sell 3%Z 8%Q 100%Q]
        + List.length (in_transaction_set ex_two_lots))%nat.
Proof.
  assert (He : [ex_sell 3 8 100] <> []) by discriminate.
  destruct (gain_loss_set_size ex_configuration ex_two_lots
              [ex_sell 3 8 100] ex_two_lots_gain_loss_set ex_two_lots_run)
    as (Hlow & _ & Hhigh).
  split; [exact ex_two_lots_run|]. split; [exact He|]. split; [exact Hlow|].
  exact (Hhigh He).
Defined.

Lemma gain_loss_fragments_bounded_witness :
  Forall (fun e => 0 < crypto_taxable_amount e) [ex_sell 3 8 100]
  /\ Forall (fun l : InTransaction => 0 < crypto_in l) (in_transaction_set ex_two_lots)
  /\ _create_gain_and_loss_set ex_configuration ex_two_lots [ex_sell 3 8 100]
     = Ok ex_two_lots_gain_loss_set
  /\ Forall fragment_bounded ex_two_lots_gain_loss_set.
Proof.
  assert (He : Forall (fun e => 0 < crypto_taxable_amount e) [ex_sell 3 8 100])
    by repeat constructor.
  split; [exact He|]. split; [exact ex_two_lots_positive|].
  split; [exact ex_two_lots_run|].
  exact (gain_loss_fragments_bounded ex_configuration ex_two_lots
           [ex_sell 3 8 100] ex_two_lots_gain_loss_set
           He ex_two_lots_positive ex_two_lots_run).
Defined.

(** A lot of 5 units and a disposal of exactly 5 units, alone or followed
    by an earned amount. *)
Definition ex_exact_lots : InputData := ex_input [ex_buy 1 5 50] [ex_sell 2 5 70].

Definition ex_exact_events : list AbstractTransaction := [ex_sell 2 5 70].

Definition ex_exact_then_earn : list AbstractTransaction :=
  [ex_sell 2 5 70; in_base (ex_earn 3 3 30)].

Lemma ex_exact_then_earn_ends e :
  ends_with e ex_exact_then_earn -> lotless e = true.
Proof.
  intros [before H]. unfold ex_exact_then_earn in H.
  destruct before as [|x [|y [|z before]]]; cbn [app] in H;
    inversion H; subst; reflexivity.
Defined.

Lemma sufficient_lots_return_witness :
  (Forall (fun l : InTransaction => 0 <= crypto_in l) (in_transaction_set ex_exact_lots)
   /\ Forall (fun e => 0 <= crypto_taxable_amount e) ex_exact_events
   /\ taxable_from_lots ex_exact_events == lots_quantity (in_transaction_set ex_exact_lots)
   /\ ends_with (ex_sell 2 5 70) ex_exact_events
   /\ lotless (ex_sell 2 5 70) = false /\ 0 < crypto_taxable_amount (ex_sell 2 5 70)
   /\ exists gls,
       _create_gain_and_loss_set ex_configuration ex_exact_lots ex_exact_events = Ok gls)
  /\ (Forall (fun l : InTransaction => 0 < crypto_in l) (in_transaction_set ex_exact_lots)
      /\ Forall (fun e => 0 < crypto_taxable_amount e) ex_exact_then_earn
      /\ taxable_from_lots ex_exact_then_earn
         == lots_quantity (in_transaction_set ex_exact_lots)
      /\ ~ exists gls,
            _create_gain_and_loss_set ex_configuration ex_exact_lots ex_exact_then_earn
            = Ok gls).
Proof.
  assert (Hl0 : Forall (fun l : InTransaction => 0 <= crypto_in l)
                  (in_transaction_set ex_exact_lots))
    by (repeat constructor; discriminate).
  assert (He0 : Forall (fun e => 0 <= crypto_taxable_amount e) ex_exact_events)
    by (repeat constructor; discriminate).
  assert (Heq : taxable_from_lots ex_exact_events
                == lots_quantity (in_transaction_set ex_exact_lots))
    by reflexivity.
  assert (Hends : ends_with (ex_sell 2 5 70) ex_exact_events)
    by (exists []; reflexivity).
  assert (Hpos : 0 < crypto_taxable_amount (ex_sell 2 5 70)) by reflexivity.
  assert (Hl : Forall (fun l : InTransaction => 0 < crypto_in l)
                 (in_transaction_set ex_exact_lots))
    by (repeat constructor).
  assert (He : Forall (fun e => 0 < crypto_taxable_amount e) ex_exact_then_earn)
    by (repeat constructor).
  assert (Heq' : taxable_from_lots ex_exact_then_earn
                 == lots_quantity (in_transaction_set ex_exact_lots))
    by reflexivity.
  split.
  - split; [exact Hl0|]. split; [exact He0|]. split; [exact Heq|].
    split; [exact Hends|]. split; [reflexivity|]. split; [exact Hpos|].
    apply (proj1 (sufficient_lots_return ex_configuration ex_exact_lots ex_exact_events)
             Hl0 He0).
    right. split.
    + rewrite Heq. apply Qle_refl.
    + exists (ex_sell 2 5 70). split; [exact Hends|]. split; [reflexivity | exact Hpos].
  - split; [exact Hl|]. split; [exact He|]. split; [exact Heq'|].
    intro Hret.
    apply (proj2 (sufficient_lots_return ex_configuration ex_exact_lots ex_exact_then_earn)
             Hl He) in Hret.
    destruct Hret as [Hnil | [Hlt | (_ & e & Hends' & Hlot)]].
    + discriminate.
    + rewrite Heq' in Hlt. exact (Qlt_irrefl _ Hlt).
    + rewrite (ex_exact_then_earn_ends e Hends') in Hlot. discriminate.
Defined.

Lemma gain_loss_set_conserves_taxable_amount_witness :
  _create_gain_and_loss_set ex_configuration ex_two_lots [ex_sell 3 8 100]
  = Ok ex_two_lots_gain_loss_set
  /\ Qsum (map crypto_amount ex_two_lots_gain_loss_set)
     == Qsum (map crypto_taxable_amount [ex_sell 3 8 100])
  /\ total_where has_lot crypto_amount ex_two_lots_gain_loss_set
     == taxable_from_lots [ex_sell 3 8 100].
Proof.
  split; [exact ex_two_lots_run|].
  exact (gain_loss_set_conserves_taxable_amount ex_configuration ex_two_lots
           [ex_sell 3 8 100] ex_two_lots_gain_loss_set ex_two_lots_run).
Defined.

Lemma yearly_totals_are_record_totals_witness :
  _create_yearly_gain_loss_list ex_long_term ex_two_lots ex_two_lots_gain_loss_set
  = Ok ex_two_lots_yearly
  /\ Qsum (map (summary_quantity UsdCostBasis) ex_two_lots_yearly)
     == Qsum (map (record_quantity UsdCostBasis) ex_two_lots_gain_loss_set).
Proof.
  split; [exact ex_two_lots_aggregated|].
  exact (proj2 (yearly_totals_are_record_totals ex_long_term
                  ex_two_lots_gain_loss_set UsdCostBasis)
           ex_two_lots ex_two_lots_yearly ex_two_lots_aggregated).
Defined.

Lemma returned_list_conserves_totals_witness :
  _create_yearly_gain_loss_list ex_long_term ex_two_lots ex_two_lots_gain_loss_set
  = Ok ex_two_lots_yearly
  /\ Qsum (map crypto_amount ex_two_lots_gain_loss_set)
     == Qsum (map crypto_taxable_amount (in_entries ex_two_lots))
        + Qsum (map crypto_taxable_amount (out_transaction_set ex_two_lots))
        + Qsum (map crypto_taxable_amount (intra_transaction_set ex_two_lots)).
Proof.
  split; [exact ex_two_lots_aggregated|].
  exact (proj1 (returned_list_conserves_totals ex_long_term ex_two_lots
                  ex_two_lots_gain_loss_set ex_two_lots_yearly ex_two_lots_aggregated)).
Defined.

(** Two lots of 6 units and disposals of 12 units or more. *)
Definition ex_all_sold : InputData :=
  ex_input [ex_buy 1 6 60; ex_buy 2 6 90] [ex_sell 3 8 100; ex_sell 4 5 70].

Lemma verify_cost_basis_of_all_lots_witness :
  Forall (fun l : InTransaction => 0 <= crypto_in l) (in_transaction_set ex_all_sold)
  /\ lots_quantity (in_transaction_set ex_all_sold) <= crypto_sold_amount_total ex_all_sold
  /\ exists v,
      verify_totals ex_all_sold = Ok v
      /\ cost_basis_total_verify v
         == Qsum (map usd_in_with_fee (in_transaction_set ex_all_sold)).
Proof.
  assert (Hnn : Forall (fun l : InTransaction => 0 <= crypto_in l)
                  (in_transaction_set ex_all_sold))
    by (repeat constructor; discriminate).
  assert (Hle : lots_quantity (in_transaction_set ex_all_sold)
                <= crypto_sold_amount_total ex_all_sold)
    by (vm_compute; discriminate).
  split; [exact Hnn|]. split; [exact Hle|].
  exact (verify_cost_basis_of_all_lots ex_all_sold Hnn Hle).
Defined.

Lemma verify_cost_basis_bounds_witness :
  Forall (fun l : InTransaction => 0 < crypto_in l /\ 0 <= usd_in_with_fee l)
    (in_transaction_set ex_two_lots)
  /\ 0 <= crypto_sold_amount_total ex_two_lots
  /\ exists v,
      verify_totals ex_two_lots = Ok v
      /\ 0 <= cost_basis_total_verify v
      /\ cost_basis_total_verify v
         <= Qsum (map usd_in_with_fee (in_transaction_set ex_two_lots)).
Proof.
  assert (Hlots : Forall (fun l : InTransaction => 0 < crypto_in l /\ 0 <= usd_in_with_fee l)
                    (in_transaction_set ex_two_lots)).
  { repeat constructor; discriminate. }
  assert (Hsold : 0 <= crypto_sold_amount_total ex_two_lots)
    by (vm_compute; discriminate).
  split; [exact Hlots|]. split; [exact Hsold|].
  exact (verify_cost_basis_bounds ex_two_lots Hlots Hsold).
Defined.

Definition ex_balance_set (c : Configuration) (i : InputData) : Result unit := Ok tt.

Lemma compute_tax_result_witness :
  match compute_tax ex_long_term unit ex_balance_set ex_configuration ex_two_lots with
  | Ok cd =>
      ~ lots_quantity (in_transaction_set ex_two_lots) == 0
      /\ cd_price_per_unit cd * lots_quantity (in_transaction_set ex_two_lots)
         == Qsum (map usd_in_with_fee (in_transaction_set ex_two_lots))
  | Raise _ => False
  end.
Proof.
  destruct (compute_tax ex_long_term unit ex_balance_set ex_configuration ex_two_lots)
    as [cd|e] eqn:H.
  - destruct (compute_tax_result ex_long_term unit ex_balance_set ex_configuration
                ex_two_lots cd H) as (H1 & H2 & _).
    split; assumption.
  - vm_compute in H. discriminate.
Defined.

Lemma type_check_positive_int_outcome_witness :
  type_check_positive_int (PyStr "unique_id") (PyInt (-1)) false = Raise RP2ValueError
  /\ type_check_positive_int (PyStr "up_to_year") (PyInt 2021) true = Ok 2021%Z.
Proof.
  split.
  - apply (proj1 (proj2 (proj2 (type_check_positive_int_outcome
                                   (PyStr "unique_id") (PyInt (-1)) false)))).
    split; [eexists; reflexivity|]. exists (-1)%Z. split; [reflexivity | left; lia].
  - apply (proj1 (type_check_positive_int_outcome
                    (PyStr "up_to_year") (PyInt 2021) true) 2021%Z).
    split; [eexists; reflexivity|]. split; [reflexivity|]. split; [lia | intros _; lia].
Defined.

Lemma type_check_positive_decimal_outcome_witness :
  type_check_positive_decimal (PyStr "crypto_in") (PyDecimal 6) true = Ok 6
  /\ 0 < 6.
Proof.
  assert (H : type_check_positive_decimal (PyStr "crypto_in") (PyDecimal 6) true
              = Ok 6) by reflexivity.
  split; [exact H|].
  exact (proj1 (proj2 (type_check_positive_decimal_outcome
                         (PyStr "crypto_in") (PyDecimal 6) true)) 6 H).
Defined.

Lemma Configuration_init_outcome_witness :
  Configuration_init ex_file_system "config.json" FIFO (Some (-1)%Z) = Raise RP2ValueError
  /\ exists c,
      Configuration_init ex_file_system "config.json" FIFO (Some 0%Z) = Ok c
      /\ up_to_year c = Some 0%Z.
Proof.
  destruct (Configuration_init_outcome ex_file_system "config.json" (Some (-1)%Z))
    as (Hneg & _).
  destruct (Configuration_init_outcome ex_file_system "config.json" (Some 0%Z))
    as (_ & _ & _ & Hzero).
  split.
  - apply (Hneg (-1)%Z); [reflexivity | lia].
  - apply (Hzero {| json_assets := ["BTC"%string]; json_exchanges := [];
                    json_holders := [] |}); reflexivity.
Defined.

Lemma ex_configuration_constructed :
  Configuration_init ex_file_system "config.json" FIFO None = Ok ex_configuration.
Proof. reflexivity. Defined.

Lemma constructed_configuration_accepts_listed_witness :
  Configuration_init ex_file_system "config.json" FIFO None = Ok ex_configuration
  /\ type_check_asset ex_configuration (PyStr "asset") (PyStr "BTC") = Ok (PyStr "BTC")
  /\ type_check_asset ex_configuration (PyStr "asset") (PyStr "ETH") = Raise RP2ValueError.
Proof.
  split; [exact ex_configuration_constructed|].
  destruct (constructed_configuration_accepts_listed ex_file_system "config.json"
              FIFO None ex_configuration ex_configuration_constructed)
    as (json & Hload & Hasset & _ & _ & Hnot & _).
  inversion Hload; subst; clear Hload. cbn [json_assets] in *.
  split.
  - apply Hasset. left. reflexivity.
  - apply Hnot. intros [H | []]. discriminate.
Defined.

(** A header of three columns and a row of four cells. *)
Definition ex_header : Header :=
  [("timestamp", 0); ("crypto_in", 3); ("asset", 1)]%string%Z.

Definition ex_headers : ConfigurationHeaders :=
  {| in_header := ex_header; out_header := ex_header; intra_header := ex_header |}.

Definition ex_row : list string := ["2021-01-01"; "BTC"; "Coinbase"; "6"]%string.

Lemma argument_pack_outcome_witness :
  ex_header <> []
  /\ Forall (fun item => (0 <= snd item)%Z) ex_header
  /\ (__get_table_constructor_argument_pack (firstn 3 ex_row) "in" ex_header
      = Raises (RaisedError RP2ValueError))
  /\ exists pack,
      __get_table_constructor_argument_pack ex_row "in" ex_header = Returns pack
      /\ Forall2 (packed ex_row) ex_header pack.
Proof.
  assert (Hne : ex_header <> []) by discriminate.
  assert (Hpos : Forall (fun item => (0 <= snd item)%Z) ex_header)
    by (repeat constructor; cbn; lia).
  split; [exact Hne|]. split; [exact Hpos|]. split.
  - destruct (proj2 (argument_pack_outcome (firstn 3 ex_row) "in" ex_header) Hne Hpos)
      as (m & Hm & _ & Hiff & _).
    inversion Hm; subst; clear Hm. apply Hiff. cbn. lia.
  - destruct (proj2 (argument_pack_outcome ex_row "in" ex_header) Hne Hpos)
      as (m & Hm & _ & _ & Hret).
    inversion Hm; subst; clear Hm. apply Hret. cbn. lia.
Defined.

Lemma ex_row_pack :
  get_in_table_constructor_argument_pack ex_headers ex_row
  = Returns [("timestamp", "2021-01-01"); ("crypto_in", "6"); ("asset", "BTC")]%string.
Proof. reflexivity. Defined.

Lemma column_position_matches_pack_witness :
  get_in_table_constructor_argument_pack ex_headers ex_row
  = Returns [("timestamp", "2021-01-01"); ("crypto_in", "6"); ("asset", "BTC")]%string
  /\ ((get_in_table_column_position ex_headers (PyStr "crypto_in") = Raise RP2ValueError
       /\ pack_get [("timestamp", "2021-01-01"); ("crypto_in", "6"); ("asset", "BTC")]%string
            "crypto_in" = None)
      \/ exists position x,
           get_in_table_column_position ex_headers (PyStr "crypto_in") = Ok position
           /\ pack_get [("timestamp", "2021-01-01"); ("crypto_in", "6"); ("asset", "BTC")]%string
                "crypto_in" = Some x
           /\ py_index ex_row position = Some x).
Proof.
  split; [exact ex_row_pack|].
  exact (proj1 (column_position_matches_pack ex_headers ex_row "crypto_in") _ ex_row_pack).
Defined.
